(** * MBTI landmine-word checker: the local analysis engine of [api/analyze.js]

    A shallow embedding of [normalizeText], [isQuotedInsult], [analyzeLocal]
    and the input validation of the HTTP [handler], with the properties the
    specification states about them; and of the callers of the analysis,
    the conversational LINE webhook and the lightweight endpoint of
    [server.js].

    Conventions of the embedding.
    - A JavaScript string is the list of its UTF-16 code units ([jsstring]);
      the dictionaries are written as in the source and decoded by [u].
    - A JavaScript number is a rational kept in lowest terms ([Q] with
      [Qred]); the arithmetic is exact.
    - Two built-ins of the runtime whose tables are not part of the
      repository are parameters of the development:
      [String.prototype.toLowerCase], [String.prototype.toUpperCase] and
      [Math.pow]. *)

From Stdlib Require Import String Ascii.
From Stdlib Require Import ZArith QArith Qround Qreduction Bool List Lia Lqa.
From Stdlib Require Import DecimalString.
Import ListNotations.

Open Scope Z_scope.

(** ** JavaScript strings *)

Definition jsstring := list Z.

(** Decoding of a UTF-8 literal into UTF-16 code units. *)
Fixpoint utf16_of_utf8 (bs : list Z) : jsstring :=
  match bs with
  | [] => []
  | b0 :: r0 =>
    if b0 <? 0x80 then b0 :: utf16_of_utf8 r0
    else if b0 <? 0xE0 then
      match r0 with
      | b1 :: r1 => ((b0 mod 0x20) * 0x40 + b1 mod 0x40) :: utf16_of_utf8 r1
      | _ => []
      end
    else if b0 <? 0xF0 then
      match r0 with
      | b1 :: b2 :: r2 =>
        ((b0 mod 0x10) * 0x1000 + (b1 mod 0x40) * 0x40 + b2 mod 0x40)
          :: utf16_of_utf8 r2
      | _ => []
      end
    else
      match r0 with
      | b1 :: b2 :: b3 :: r3 =>
        let cp := (b0 mod 0x08) * 0x40000 + (b1 mod 0x40) * 0x1000
                  + (b2 mod 0x40) * 0x40 + b3 mod 0x40 - 0x10000 in
        (0xD800 + cp / 0x400) :: (0xDC00 + cp mod 0x400) :: utf16_of_utf8 r3
      | _ => []
      end
  end.

Definition u (s : string) : jsstring :=
  utf16_of_utf8 (map (fun b => Z.of_N (Byte.to_N b)) (list_byte_of_string s)).

Definition jslength (s : jsstring) : Z := Z.of_nat (length s).

Fixpoint str_eqb (a b : jsstring) : bool :=
  match a, b with
  | [], [] => true
  | x :: a', y :: b' => (x =? y) && str_eqb a' b'
  | _, _ => false
  end.

(** [s.startsWith(p)] *)
Fixpoint startsWith (s p : jsstring) : bool :=
  match p with
  | [] => true
  | c :: p' =>
    match s with
    | [] => false
    | d :: s' => (c =? d) && startsWith s' p'
    end
  end.

(** [s.indexOf(p)]: the first index at which [p] occurs, [-1] when absent. *)
Fixpoint indexOf_from (i : Z) (s p : jsstring) : Z :=
  if startsWith s p then i
  else match s with
       | [] => -1
       | _ :: s' => indexOf_from (i + 1) s' p
       end.

Definition indexOf (s p : jsstring) : Z := indexOf_from 0 s p.

(** [s.includes(p)] *)
Fixpoint includes (s p : jsstring) : bool :=
  startsWith s p ||
  match s with
  | [] => false
  | _ :: s' => includes s' p
  end.

(** [s.slice(start)] *)
Definition slice (s : jsstring) (start : Z) : jsstring :=
  let len := jslength s in
  let from := if start <? 0 then Z.max (len + start) 0 else Z.min start len in
  skipn (Z.to_nat from) s.

Definition mem (c : Z) (cs : jsstring) : bool := existsb (Z.eqb c) cs.

(** White space and line terminators of ECMAScript: the class [\s] of
    regular expressions and the characters [trim] strips. *)
Definition isLineTerminator (c : Z) : bool :=
  (c =? 0x0A) || (c =? 0x0D) || (c =? 0x2028) || (c =? 0x2029).

Definition isWhiteSpace (c : Z) : bool :=
  ((0x09 <=? c) && (c <=? 0x0D)) || (c =? 0x20) || (c =? 0xA0)
  || (c =? 0x1680) || ((0x2000 <=? c) && (c <=? 0x200A))
  || (c =? 0x2028) || (c =? 0x2029) || (c =? 0x202F) || (c =? 0x205F)
  || (c =? 0x3000) || (c =? 0xFEFF).

(** ** Regular expressions

    Only the constructs the source uses: literals, character sets, a greedy
    lower-bounded repetition of a set, an optional set, the capturing group
    [(.+)], alternation, sequence, and [$] under the [m] flag. No regex of
    the source has more than one group. *)

Inductive regex : Type :=
| RLit (s : jsstring)
| RSet (cs : jsstring)
| RRep (cs : jsstring) (n : nat)
| ROpt (cs : jsstring)
| RGroupDotPlus
| REol
| RSeq (r1 r2 : regex)
| RAlt (r1 r2 : regex).

(** A way of matching: the text captured by the group (empty when the
    group took no part) and the input left. *)
Definition rresult : Type := (jsstring * jsstring)%type.

(** The inputs left after consuming [n], [n+1], ... characters of the set,
    the longest run first. *)
Fixpoint repRests (cs : jsstring) (n : nat) (s : jsstring) : list rresult :=
  match n with
  | O =>
    match s with
    | c :: s' => if mem c cs then repRests cs O s' ++ [([], s)] else [([], s)]
    | [] => [([], s)]
    end
  | S n' =>
    match s with
    | c :: s' => if mem c cs then repRests cs n' s' else []
    | [] => []
    end
  end.

(** [(.+)]: one or more characters other than line terminators, the
    longest run first. *)
Fixpoint dotPlusRests (s : jsstring) : list rresult :=
  match s with
  | [] => []
  | c :: s' =>
    if isLineTerminator c then []
    else map (fun cr => (c :: fst cr, snd cr)) (dotPlusRests s') ++ [([c], s')]
  end.

(** [rmatch r s]: the ways of matching [r] at the start of [s], in the
    order backtracking tries them. *)
Fixpoint rmatch (r : regex) (s : jsstring) : list rresult :=
  match r with
  | RLit p => if startsWith s p then [([], skipn (length p) s)] else []
  | RSet cs =>
    match s with
    | c :: s' => if mem c cs then [([], s')] else []
    | [] => []
    end
  | RRep cs n => repRests cs n s
  | ROpt cs =>
    match s with
    | c :: s' => if mem c cs then [([], s'); ([], s)] else [([], s)]
    | [] => [([], s)]
    end
  | RGroupDotPlus => dotPlusRests s
  | REol =>
    match s with
    | [] => [([], s)]
    | c :: _ => if isLineTerminator c then [([], s)] else []
    end
  | RSeq r1 r2 =>
    flat_map
      (fun cr1 =>
         map (fun cr2 =>
                (match fst cr1 with [] => fst cr2 | _ :: _ => fst cr1 end,
                 snd cr2))
             (rmatch r2 (snd cr1)))
      (rmatch r1 s)
  | RAlt r1 r2 => rmatch r1 s ++ rmatch r2 s
  end.

Definition matchesAt (r : regex) (s : jsstring) : bool :=
  match rmatch r s with
  | [] => false
  | _ :: _ => true
  end.

(** [r.test(s)] for a regex without the [g] flag. *)
Fixpoint regex_test (r : regex) (s : jsstring) : bool :=
  matchesAt r s ||
  match s with
  | [] => false
  | _ :: s' => regex_test r s'
  end.

(** [(s.match(r) || []).length] for a regex with the [g] flag: the matches
    are taken from left to right and do not overlap. *)
Fixpoint count_from (r : regex) (skip : nat) (s : jsstring) : Z :=
  match skip with
  | S k =>
    match s with
    | [] => 0
    | _ :: s' => count_from r k s'
    end
  | O =>
    match rmatch r s with
    | (_, rest) :: _ =>
      1 + match s with
          | [] => 0
          | _ :: s' => count_from r (length s - length rest - 1) s'
          end
    | [] =>
      match s with
      | [] => 0
      | _ :: s' => count_from r O s'
      end
    end
  end.

Definition match_count (r : regex) (s : jsstring) : Z := count_from r O s.

(** A replacement string: literal text and the reference [$1]. *)
Inductive rpart : Type :=
| T (s : jsstring)
| G1.

Definition expand (repl : list rpart) (cap : jsstring) : jsstring :=
  flat_map (fun p => match p with T s => s | G1 => cap end) repl.

(** [s.replace(r, repl)] for a regex with the [g] flag. Every regex it
    is used with consumes at least one character. *)
Fixpoint replace_from (r : regex) (repl : list rpart) (skip : nat)
    (s : jsstring) : jsstring :=
  match skip with
  | S k =>
    match s with
    | [] => []
    | _ :: s' => replace_from r repl k s'
    end
  | O =>
    match rmatch r s with
    | (cap, rest) :: _ =>
      match s with
      | [] => expand repl cap
      | c :: s' =>
        if (length rest <? length s)%nat then
          expand repl cap ++ replace_from r repl (length s - length rest - 1) s'
        else expand repl cap ++ c :: replace_from r repl O s'
      end
    | [] =>
      match s with
      | [] => []
      | c :: s' => c :: replace_from r repl O s'
      end
    end
  end.

Definition regex_replace (r : regex) (repl : list rpart) (s : jsstring)
    : jsstring :=
  replace_from r repl O s.

(** [s.replaceAll(p, q)] for a non-empty literal [p]. *)
Definition replaceAll (s p q : jsstring) : jsstring :=
  regex_replace (RLit p) [T q] s.

Fixpoint alt (rs : list regex) : regex :=
  match rs with
  | [] => RSet []
  | [r] => r
  | r :: rs' => RAlt r (alt rs')
  end.

Fixpoint seq (rs : list regex) : regex :=
  match rs with
  | [] => RLit []
  | [r] => r
  | r :: rs' => RSeq r (seq rs')
  end.

(** ** JavaScript numbers *)

Definition nadd (a b : Q) : Q := Qred (a + b).
Definition nsub (a b : Q) : Q := Qred (a - b).
Definition nmul (a b : Q) : Q := Qred (a * b).

(** [x || d] on numbers: [0] is the falsy number. *)
Definition num_or (x d : Q) : Q := if Qeq_bool x 0 then d else x.

(** [Math.round]: the nearest integer, halves rounded up. *)
Definition Math_round (x : Q) : Z := Qfloor (x + (1 # 2)).

(** ** The dictionaries *)

(** The keys of [PSY_CATEGORIES]. *)
Inductive catId : Set :=
| direct_insult | ideal_denial | command | command_soft | comparison
| emotional_dismiss | identity_attack | conformity | capability_deny
| freedom_restrict | goodwill_reject | privacy_invade | past_blame
| vague_criticism | generalization | interrogation_pressure
| passive_aggressive.

Definition catId_eq_dec (a b : catId) : {a = b} + {a <> b}.
Proof. decide equality. Defined.

Definition catId_eqb (a b : catId) : bool :=
  if catId_eq_dec a b then true else false.

Record catInfo : Type :=
  { label : jsstring; baseSeverity : Q; desc : jsstring }.

Module CP.
Record t : Type := mk { patterns : list jsstring; reason : jsstring }.
End CP.

Module DI.
Record t : Type :=
  mk { patterns : list jsstring; category : catId; reason : jsstring;
       ultraSevere : bool }.
End DI.

(** An element of [found], and what is left of it in [ngWords]. *)
Module Finding.
Record t : Type :=
  mk { keyword : jsstring; reason : jsstring; mbtiTypes : list jsstring;
       _category : catId; _damage : Q }.
End Finding.

Module NgWord.
Record t : Type :=
  mk { keyword : jsstring; reason : jsstring; mbtiTypes : list jsstring }.
End NgWord.

(** An object whose keys are category ids, in insertion order. *)
Definition catObj (A : Type) : Type := list (catId * A).

Fixpoint obj_get {A : Type} (o : catObj A) (k : catId) : option A :=
  match o with
  | [] => None
  | (k', v) :: o' => if catId_eqb k' k then Some v else obj_get o' k
  end.

Fixpoint obj_set {A : Type} (o : catObj A) (k : catId) (v : A) : catObj A :=
  match o with
  | [] => [(k, v)]
  | (k', v') :: o' =>
    if catId_eqb k' k then (k, v) :: o' else (k', v') :: obj_set o' k v
  end.

(** Lookup in an object whose keys are strings. *)
Fixpoint str_get {A : Type} (o : list (jsstring * A)) (k : jsstring) : option A :=
  match o with
  | [] => None
  | (k', v) :: o' => if str_eqb k' k then Some v else str_get o' k
  end.

Local Open Scope Q_scope.

Definition PSY_CATEGORIES : list (catId * catInfo) :=
  [
    (direct_insult, {| label := u "直接侮辱"; baseSeverity := 10; desc := u "人格を直接攻撃する侮辱表現" |});
    (ideal_denial, {| label := u "理想・価値観の否定"; baseSeverity := 5; desc := u "相手の信念や理想を真っ向から否定する" |});
    (command, {| label := u "命令・支配"; baseSeverity := 4; desc := u "選択の自由を奪い、服従を強いる" |});
    (command_soft, {| label := u "柔らかい命令・圧力"; baseSeverity := 3; desc := u "励ましや指示の形をとりつつ暗に行動を強制する" |});
    (comparison, {| label := u "比較・レッテル"; baseSeverity := 4; desc := u "他者と比較して劣等感を植えつける" |});
    (emotional_dismiss, {| label := u "感情の軽視"; baseSeverity := 5; desc := u "感情を無意味・過剰と切り捨てる" |});
    (identity_attack, {| label := u "人格攻撃"; baseSeverity := 5; desc := u "性格や本質を否定する" |});
    (conformity, {| label := u "同調圧力"; baseSeverity := 4; desc := u "多数派に合わせることを強要する" |});
    (capability_deny, {| label := u "能力の否定"; baseSeverity := 4; desc := u "相手の力量や可能性を否定する" |});
    (freedom_restrict, {| label := u "自由の制限"; baseSeverity := 3; desc := u "行動や思考の自由を制限する" |});
    (goodwill_reject, {| label := u "善意の拒絶"; baseSeverity := 5; desc := u "善意からの行動を迷惑と退ける" |});
    (privacy_invade, {| label := u "境界侵害"; baseSeverity := 3; desc := u "心理的な境界を無視して踏み込む" |});
    (past_blame, {| label := u "過去の蒸し返し"; baseSeverity := 3; desc := u "過去の失敗を持ち出して攻撃する" |});
    (vague_criticism, {| label := u "曖昧な批判"; baseSeverity := 3; desc := u "具体性のない否定で逃げ場を奪う" |});
    (generalization, {| label := u "過度な一般化"; baseSeverity := 2; desc := u "「いつも」「絶対」で事実を歪める" |});
    (interrogation_pressure, {| label := u "詰問・追及"; baseSeverity := 5; desc := u "答えを追い詰め、繰り返しで無力感を与える" |});
    (passive_aggressive, {| label := u "受動攻撃"; baseSeverity := 4; desc := u "間接的に相手の価値を否定する冷淡な表現" |})
  ].

Definition MBTI_MULTIPLIERS : list (jsstring * list (catId * Q)) :=
  [
    (u "INTJ",
     [(ideal_denial, 1.2); (command, 1.0); (command_soft, 0.8); (comparison, 1.0); (emotional_dismiss, 0.6); (identity_attack, 1.2); (conformity, 2.0); (capability_deny, 1.5); (freedom_restrict, 1.5); (goodwill_reject, 0.6); (privacy_invade, 1.0); (past_blame, 0.8); (vague_criticism, 1.2); (generalization, 1.0); (interrogation_pressure, 0.8); (passive_aggressive, 0.8)]);
    (u "INTP",
     [(ideal_denial, 1.5); (command, 1.2); (command_soft, 1.0); (comparison, 0.8); (emotional_dismiss, 0.5); (identity_attack, 1.0); (conformity, 2.0); (capability_deny, 1.2); (freedom_restrict, 1.5); (goodwill_reject, 0.5); (privacy_invade, 1.2); (past_blame, 0.8); (vague_criticism, 1.8); (generalization, 1.5); (interrogation_pressure, 0.8); (passive_aggressive, 0.8)]);
    (u "ENTJ",
     [(ideal_denial, 1.0); (command, 0.8); (command_soft, 0.5); (comparison, 1.2); (emotional_dismiss, 0.5); (identity_attack, 1.2); (conformity, 1.0); (capability_deny, 2.0); (freedom_restrict, 1.2); (goodwill_reject, 0.6); (privacy_invade, 0.8); (past_blame, 1.0); (vague_criticism, 1.0); (generalization, 0.8); (interrogation_pressure, 0.6); (passive_aggressive, 0.6)]);
    (u "ENTP",
     [(ideal_denial, 1.2); (command, 1.5); (command_soft, 0.8); (comparison, 0.8); (emotional_dismiss, 0.5); (identity_attack, 1.0); (conformity, 2.0); (capability_deny, 1.0); (freedom_restrict, 1.8); (goodwill_reject, 0.5); (privacy_invade, 0.8); (past_blame, 0.8); (vague_criticism, 1.5); (generalization, 1.2); (interrogation_pressure, 0.6); (passive_aggressive, 0.8)]);
    (u "INFJ",
     [(ideal_denial, 1.5); (command, 1.2); (command_soft, 1.2); (comparison, 1.2); (emotional_dismiss, 2.0); (identity_attack, 1.8); (conformity, 1.0); (capability_deny, 1.0); (freedom_restrict, 1.0); (goodwill_reject, 1.2); (privacy_invade, 1.8); (past_blame, 1.2); (vague_criticism, 1.0); (generalization, 1.2); (interrogation_pressure, 1.5); (passive_aggressive, 1.5)]);
    (u "INFP",
     [(ideal_denial, 2.0); (command, 1.5); (command_soft, 1.5); (comparison, 1.5); (emotional_dismiss, 2.0); (identity_attack, 1.8); (conformity, 1.2); (capability_deny, 1.0); (freedom_restrict, 1.2); (goodwill_reject, 1.0); (privacy_invade, 1.2); (past_blame, 1.5); (vague_criticism, 1.2); (generalization, 1.0); (interrogation_pressure, 1.5); (passive_aggressive, 1.8)]);
    (u "ENFJ",
     [(ideal_denial, 1.2); (command, 1.0); (command_soft, 1.0); (comparison, 1.2); (emotional_dismiss, 1.5); (identity_attack, 1.5); (conformity, 0.8); (capability_deny, 1.0); (freedom_restrict, 0.8); (goodwill_reject, 2.0); (privacy_invade, 1.0); (past_blame, 1.0); (vague_criticism, 1.0); (generalization, 1.0); (interrogation_pressure, 1.2); (passive_aggressive, 1.2)]);
    (u "ENFP",
     [(ideal_denial, 1.8); (command, 1.5); (command_soft, 1.2); (comparison, 1.2); (emotional_dismiss, 1.5); (identity_attack, 1.2); (conformity, 1.5); (capability_deny, 1.0); (freedom_restrict, 1.8); (goodwill_reject, 0.8); (privacy_invade, 0.8); (past_blame, 1.5); (vague_criticism, 1.0); (generalization, 1.0); (interrogation_pressure, 1.0); (passive_aggressive, 1.2)]);
    (u "ISTJ",
     [(ideal_denial, 1.5); (command, 0.6); (command_soft, 0.5); (comparison, 1.0); (emotional_dismiss, 0.5); (identity_attack, 1.2); (conformity, 0.6); (capability_deny, 1.5); (freedom_restrict, 0.8); (goodwill_reject, 0.8); (privacy_invade, 1.2); (past_blame, 1.0); (vague_criticism, 1.5); (generalization, 1.2); (interrogation_pressure, 0.8); (passive_aggressive, 0.6)]);
    (u "ISFJ",
     [(ideal_denial, 1.2); (command, 1.2); (command_soft, 1.2); (comparison, 1.5); (emotional_dismiss, 1.5); (identity_attack, 1.8); (conformity, 0.8); (capability_deny, 1.0); (freedom_restrict, 0.8); (goodwill_reject, 2.0); (privacy_invade, 1.5); (past_blame, 1.2); (vague_criticism, 1.2); (generalization, 1.0); (interrogation_pressure, 1.5); (passive_aggressive, 1.5)]);
    (u "ESTJ",
     [(ideal_denial, 1.0); (command, 0.5); (command_soft, 0.5); (comparison, 1.2); (emotional_dismiss, 0.5); (identity_attack, 1.5); (conformity, 0.5); (capability_deny, 1.8); (freedom_restrict, 0.6); (goodwill_reject, 0.8); (privacy_invade, 0.8); (past_blame, 1.0); (vague_criticism, 1.2); (generalization, 0.8); (interrogation_pressure, 0.5); (passive_aggressive, 0.5)]);
    (u "ESFJ",
     [(ideal_denial, 1.0); (command, 1.0); (command_soft, 1.0); (comparison, 1.5); (emotional_dismiss, 1.5); (identity_attack, 2.0); (conformity, 0.6); (capability_deny, 1.0); (freedom_restrict, 0.8); (goodwill_reject, 1.8); (privacy_invade, 1.2); (past_blame, 1.2); (vague_criticism, 1.0); (generalization, 1.0); (interrogation_pressure, 1.2); (passive_aggressive, 1.2)]);
    (u "ISTP",
     [(ideal_denial, 0.8); (command, 1.5); (command_soft, 1.0); (comparison, 0.8); (emotional_dismiss, 0.5); (identity_attack, 1.0); (conformity, 1.5); (capability_deny, 1.2); (freedom_restrict, 2.0); (goodwill_reject, 0.5); (privacy_invade, 1.5); (past_blame, 0.8); (vague_criticism, 1.2); (generalization, 1.0); (interrogation_pressure, 0.8); (passive_aggressive, 0.6)]);
    (u "ISFP",
     [(ideal_denial, 1.5); (command, 1.5); (command_soft, 1.2); (comparison, 1.5); (emotional_dismiss, 1.8); (identity_attack, 1.5); (conformity, 1.2); (capability_deny, 1.0); (freedom_restrict, 1.5); (goodwill_reject, 0.8); (privacy_invade, 1.5); (past_blame, 1.2); (vague_criticism, 1.5); (generalization, 1.0); (interrogation_pressure, 1.5); (passive_aggressive, 1.5)]);
    (u "ESTP",
     [(ideal_denial, 0.8); (command, 1.2); (command_soft, 0.6); (comparison, 1.0); (emotional_dismiss, 0.5); (identity_attack, 1.2); (conformity, 1.2); (capability_deny, 1.0); (freedom_restrict, 1.8); (goodwill_reject, 0.5); (privacy_invade, 1.0); (past_blame, 1.8); (vague_criticism, 0.8); (generalization, 1.0); (interrogation_pressure, 0.6); (passive_aggressive, 0.5)]);
    (u "ESFP",
     [(ideal_denial, 1.0); (command, 1.2); (command_soft, 1.0); (comparison, 1.5); (emotional_dismiss, 1.5); (identity_attack, 2.0); (conformity, 1.0); (capability_deny, 0.8); (freedom_restrict, 1.5); (goodwill_reject, 0.8); (privacy_invade, 0.8); (past_blame, 1.2); (vague_criticism, 1.0); (generalization, 1.0); (interrogation_pressure, 1.0); (passive_aggressive, 1.0)])
  ].

Definition CATEGORY_PATTERNS : list (catId * list CP.t) :=
  [
    (ideal_denial,
     [CP.mk [u "現実を見"; u "現実見"; u "現実的に"; u "地に足つけ"; u "目を覚ませ"]
         (u "理想を持つこと自体を否定し、価値観の根幹を攻撃する表現です");
      CP.mk [u "理想論"; u "きれいごと"; u "絵空事"; u "夢ばかり"; u "夢物語"; u "机上の空論"]
         (u "価値観や夢の全否定につながる危険な表現です");
      CP.mk [u "甘い"; u "甘えてる"; u "甘すぎ"; u "世間知らず"]
         (u "優しさや理想主義を弱さとして否定する表現です");
      CP.mk [u "ダメ"; u "ダメだ"; u "ダメでしょ"]
         (u "全否定的な表現は相手の自尊心を傷つけます");
      CP.mk [u "意味ある"; u "役に立つの"; u "何の得が"; u "無駄じゃない"]
         (u "知的好奇心や取り組みの否定。実用性だけで価値を測る表現です");
      CP.mk [u "ルール通りじゃなくても"; u "ルールなんて"; u "規則は破る"]
         (u "秩序や信念を軽視する表現です");
      CP.mk [u "自分のこと先に"; u "人の心配より"; u "自分を優先しろ"]
         (u "他者貢献の姿勢を批判する表現です");
      CP.mk [u "夢見すぎ"; u "妄想"; u "現実離れ"]
         (u "ビジョンや理想の原動力を否定する表現です");
      CP.mk [u "将来のこと考えてる"; u "先のこと"; u "将来どうする"; u "老後"]
         (u "今を大切に生きる姿勢への批判です");
      CP.mk [u "食べていける"; u "稼げるの"; u "お金になる"; u "生活できる"]
         (u "情熱や価値観を経済性だけで否定する表現です");
      CP.mk [u "現実的じゃない"]
         (u "可能性の探究を封じる表現です")]);
    (command,
     [CP.mk [u "感情出して"; u "気持ちを言って"; u "もっと笑って"]
         (u "感情表現の強制は大きなストレスを生みます");
      CP.mk [u "早く決めて"; u "さっさと決め"; u "いつまで迷って"]
         (u "熟考を軽視し、即断を強いる表現です");
      CP.mk [u "落ち着き"; u "落ち着け"; u "落ち着いて"; u "静かにして"]
         (u "エネルギーや活力を抑圧する表現です");
      CP.mk [u "断ればいい"; u "NOと言え"; u "嫌なら断れ"]
         (u "優しさゆえに断れない苦しみを理解しない発言です");
      CP.mk [u "はっきり言って"; u "はっきりして"; u "どっちなの"]
         (u "控えめさを否定し、即答を強制する表現です");
      CP.mk [u "落ち着い"; u "冷静に"; u "もっとゆっくり"]
         (u "即断即決のスタイルを否定する表現です");
      CP.mk [u "真面目にやって"; u "真剣にやれ"; u "遊びじゃない"; u "ふざけてないで"]
         (u "自由な表現を抑制する命令です")]);
    (command_soft,
     [CP.mk [u "頑張れよ"; u "頑張れば"; u "頑張りなよ"; u "もっと頑張"]
         (u "励ましの形をとりつつ、現状の努力を否定し行動を強制するニュアンスがあります");
      CP.mk [u "ちゃんとやれ"; u "ちゃんとしろ"; u "ちゃんとして"]
         (u "「ちゃんと」は曖昧な基準で行動を強制する圧力表現です");
      CP.mk [u "しろよ"; u "やれよ"; u "しなよ"; u "やりなよ"]
         (u "柔らかい口調でも行動の強制は相手の自律性を脅かします")]);
    (comparison,
     [CP.mk [u "リーダーぶる"; u "仕切りたがり"; u "目立ちたがり"]
         (u "自然なリーダーシップを自己顕示欲と決めつける攻撃です");
      CP.mk [u "優しく言えない"; u "言い方きつい"; u "キツイ"; u "怖い"]
         (u "コミュニケーションスタイルへの一方的な批判です");
      CP.mk [u "人の目気にし"; u "周り気にし"; u "人目を"; u "顔色うかがい"]
         (u "周囲への配慮を批判する表現です")]);
    (emotional_dismiss,
     [CP.mk [u "気にしすぎ"; u "気にするな"; u "気にしないで"; u "気にしなくていい"]
         (u "繊細さを弱さとして否定する表現です");
      CP.mk [u "考えすぎ"; u "考え過ぎ"; u "深読みしすぎ"]
         (u "洞察力を過剰反応と片付ける表現です");
      CP.mk [u "泣いても"; u "泣くな"; u "泣いたって"; u "めそめそ"]
         (u "感情表現を無意味と切り捨てる表現です");
      CP.mk [u "結論は"; u "結局何"; u "要するに"; u "で、何が言いたい"]
         (u "思考プロセスを軽視する表現です");
      CP.mk [u "でもさ、"; u "でも、"; u "だけど、"; u "だけどさ、"; u "しかし、"]
         (u "逆接の多用は相手の意見を否定する印象を与えます");
      CP.mk [u "大げさ"; u "大げさすぎ"; u "オーバー"; u "オーバーすぎ"]
         (u "感情の表出を過剰と切り捨てる表現です");
      CP.mk [u "それくらいで"; u "そのくらいで"; u "たかが"; u "たかだか"]
         (u "感情の大きさを軽視し、感じること自体を否定します");
      CP.mk [u "落ち込むな"; u "凹むな"; u "へこむな"; u "くよくよするな"]
         (u "ネガティブな感情を感じること自体を否定する表現です")]);
    (identity_attack,
     [CP.mk [u "理屈っぽい"; u "理屈ばかり"; u "理屈じゃない"]
         (u "論理的思考力を欠点扱いする表現です");
      CP.mk [u "冷たい"; u "冷たすぎ"; u "薄情"; u "ドライ"]
         (u "冷静さを冷淡と決めつける表現です");
      CP.mk [u "繊細すぎ"; u "敏感すぎ"; u "打たれ弱い"; u "メンタル弱い"]
         (u "感受性そのものを否定する人格攻撃です");
      CP.mk [u "仕切らないで"; u "仕切りすぎ"; u "出しゃばり"; u "でしゃばる"]
         (u "自然なリーダーシップを否定する表現です");
      CP.mk [u "謙虚に"; u "偉そう"; u "上から目線"; u "傲慢"; u "何様"; u "威張る"]
         (u "自信を傲慢と決めつける人格否定です");
      CP.mk [u "屁理屈"; u "理屈ばっかり"; u "ごちゃごちゃ言う"; u "ああ言えばこう言う"]
         (u "議論や思考を楽しむ姿勢を全否定する表現です");
      CP.mk [u "偽善"; u "いい人ぶって"; u "ぶりっ子"; u "白々しい"]
         (u "誠意を疑い、人格を否定する表現です");
      CP.mk [u "テンション高"; u "うるさい"; u "騒がしい"; u "はしゃぎすぎ"]
         (u "感情の自由な表現を抑制する表現です");
      CP.mk [u "融通きかない"; u "融通がきかない"; u "頭が固い"; u "石頭"]
         (u "一貫性と信頼性を欠点扱いする表現です");
      CP.mk [u "堅すぎ"; u "真面目すぎ"; u "堅物"; u "カタブツ"]
         (u "誠実さを欠点として否定する表現です");
      CP.mk [u "自分の意見ないの"; u "意見がない"; u "主体性がない"; u "言いなり"]
         (u "協調性を弱さとして批判する表現です");
      CP.mk [u "都合よく使われ"; u "利用されてる"; u "いいように使われ"]
         (u "献身を利用と指摘する攻撃的な表現です");
      CP.mk [u "押し付け"; u "強制するな"; u "押しつけがましい"]
         (u "指導や助けを強制と決めつける表現です");
      CP.mk [u "八方美人"; u "いい顔しすぎ"; u "誰にでもいい顔"]
         (u "調和の努力を偽りと否定する表現です");
      CP.mk [u "嫌われたくない"; u "好かれたい"; u "人気取り"; u "媚び"]
         (u "動機を疑う攻撃的な表現です");
      CP.mk [u "自分がない"; u "個性がない"; u "没個性"; u "流される"]
         (u "協調性を個性の欠如と否定する表現です");
      CP.mk [u "優柔不断"; u "決められない"; u "迷いすぎ"; u "煮え切らない"]
         (u "慎重さを弱点として批判する表現です");
      CP.mk [u "雑すぎ"; u "雑だね"; u "いい加減"; u "適当すぎ"]
         (u "スピード感や自由さを雑と批判する表現です");
      CP.mk [u "空気読めてない"; u "KY"; u "場違い"; u "浮いてる"]
         (u "社交性や自然体を否定する表現です");
      CP.mk [u "チャラい"; u "軽い"; u "軽薄"; u "薄っぺらい"]
         (u "表面的と決めつける人格否定です");
      CP.mk [u "深みがない"; u "中身がない"; u "浅い"]
         (u "人格の全否定につながる危険な表現です")]);
    (conformity,
     [CP.mk [u "周りに合わせ"; u "合わせたら"; u "合わせろ"; u "合わせなよ"]
         (u "独自の視点を否定し、多数派への同調を強要する表現です");
      CP.mk [u "みんなそうしてる"; u "普通はこう"; u "常識的に"; u "一般的には"]
         (u "多数派論法で独自性を全否定する表現です");
      CP.mk [u "空気読"; u "場の雰囲気"; u "空気を"]
         (u "暗黙のルールを強制する同調圧力です");
      CP.mk [u "協調性ない"; u "チームワーク"; u "みんなと一緒に"; u "一人で勝手に"]
         (u "独立性を欠点として批判する表現です");
      CP.mk [u "普通は"; u "普通さ"; u "当然でしょ"; u "当然だろ"]
         (u "「普通」「当然」は自分の基準を相手に押し付ける断定語です")]);
    (capability_deny,
     [CP.mk [u "任せるのは不安"; u "任せられない"; u "心配だから"]
         (u "能力への不信感を示す表現です");
      CP.mk [u "無理だと思う"; u "できないよ"; u "不可能"; u "どうせ無理"]
         (u "可能性を否定する表現です");
      CP.mk [u "やり方が全てじゃない"; u "他にもやり方"; u "古い"]
         (u "経験に基づく判断を否定する表現です")]);
    (freedom_restrict,
     [CP.mk [u "計画的に"; u "計画を立てて"; u "行き当たりばったり"; u "無計画"]
         (u "柔軟性を否定し、自由さを制限する表現です");
      CP.mk [u "柔軟に"; u "もっと柔軟"; u "臨機応変に"; u "適当でいい"]
         (u "計画性を否定し、混乱を強要する表現です");
      CP.mk [u "報連相"; u "報告して"; u "連絡して"; u "逐一報告"]
         (u "自由な行動を制限する管理的な表現です");
      CP.mk [u "後先考え"; u "先のこと考えて"; u "リスク考えろ"]
         (u "行動力を軽率と決めつける表現です");
      CP.mk [u "ふざけ"; u "ふざけるな"; u "ふざけすぎ"; u "悪ふざけ"]
         (u "楽しさを生み出す力の否定です")]);
    (goodwill_reject,
     [CP.mk [u "お節介"; u "おせっかい"; u "余計なお世話"; u "頼んでない"]
         (u "善意からの行動を否定する表現です");
      CP.mk [u "気を遣わなくて"; u "気遣い不要"; u "余計な心配"]
         (u "気遣いを否定され、存在意義を疑わせます")]);
    (privacy_invade,
     [CP.mk [u "本音を言"; u "本心は"; u "隠さないで"; u "正直に言って"]
         (u "心を無理にこじ開けようとする表現です")]);
    (past_blame,
     [CP.mk [u "飽きっぽい"; u "三日坊主"; u "続かない"; u "すぐ投げ出す"]
         (u "多方面への興味を欠点扱いする批判です");
      CP.mk [u "途中でやめる"; u "どうせまた"; u "また飽きる"]
         (u "過去の失敗を蒸し返し、成長を認めない表現です");
      CP.mk [u "反省してる"; u "反省しろ"; u "反省しな"; u "懲りない"]
         (u "過去の失敗を蒸し返す攻撃的な表現です")]);
    (vague_criticism,
     [CP.mk [u "ちゃんとして"; u "しっかりして"; u "だらしない"; u "しっかりしな"; u "ちゃんとしな"; u "もっとしっかり"]
         (u "曖昧な基準の押しつけ。具体性のない批判です");
      CP.mk [u "曖昧"]
         (u "控えめさを否定する表現です")]);
    (generalization,
     [CP.mk [u "いつも"; u "毎回"; u "いっつも"]
         (u "「いつも」は過度な一般化。実際には毎回ではないため反発を招きます");
      CP.mk [u "絶対"; u "絶対に"; u "必ず"]
         (u "断定的な表現は相手の選択肢を奪うニュアンスがあります")]);
    (interrogation_pressure,
     [CP.mk [u "なんで？"; u "なんでできない"; u "なぜできない"; u "ナンデ"; u "どうしてできない"]
         (u "能力を疑う詰問は相手の自信を破壊します");
      CP.mk [u "何回言わせる"; u "何度言えば"; u "何回言ったら"]
         (u "繰り返しの詰問は相手を追い詰め無力感を与えます");
      CP.mk [u "どうして毎回"; u "いつになったら"]
         (u "過去の蒸し返しと詰問の複合で強い圧迫感を与えます")]);
    (passive_aggressive,
     [CP.mk [u "期待してない"; u "期待しない"; u "期待できない"]
         (u "暗に相手の能力・価値を否定する受動攻撃的な表現です");
      CP.mk [u "まあいいんじゃない"; u "別にいいけど"; u "好きにすれば"; u "どうでもいい"]
         (u "関心の放棄を装った拒絶のメッセージです");
      CP.mk [u "別にいいよ"; u "ご自由に"; u "勝手にすれば"]
         (u "投げやりな態度で相手を突き放す表現です")])
  ].

Definition DIRECT_INSULTS : list DI.t :=
  [
    DI.mk [u "ばか"; u "バカ"; u "馬鹿"] direct_insult
      (u "直接的な侮辱は相手の尊厳を根本から傷つけます") false;
    DI.mk [u "アホ"; u "あほ"; u "阿呆"] direct_insult
      (u "知性を否定する侮辱表現です") false;
    DI.mk [u "無能"; u "能無し"; u "役立たず"] direct_insult
      (u "存在価値そのものを否定する極めて攻撃的な表現です") false;
    DI.mk [u "死ね"; u "しね"; u "タヒね"; u "死んで"; u "死ねば"] direct_insult
      (u "生存を否定する最も危険な言葉です") true;
    DI.mk [u "クズ"; u "くず"; u "カス"; u "ゴミ"] direct_insult
      (u "人間としての価値を完全に否定する侮辱です") false;
    DI.mk [u "きもい"; u "キモい"; u "キモイ"; u "気持ち悪い"] direct_insult
      (u "生理的嫌悪を示す深い侮辱表現です") false;
    DI.mk [u "うざい"; u "ウザい"; u "ウザイ"] direct_insult
      (u "存在そのものを否定する攻撃的な表現です") false;
    DI.mk [u "お前"; u "てめえ"; u "てめぇ"; u "おまえ"] direct_insult
      (u "人格を軽視する呼称は攻撃性を増幅させます") false
  ].

Local Close Scope Q_scope.

(** [QUOTE_PATTERNS] *)
Definition QUOTE_PATTERNS : list jsstring :=
  [u "って言われた"; u "と言われた"; u "言われたら"; u "って言うな";
   u "って言われて"; u "と言われて"].

(** [isQuotedInsult(text, matchIndex)] *)
Definition isQuotedInsult (text : jsstring) (matchIndex : Z) : bool :=
  let after := slice text matchIndex in
  existsb (fun qp => includes after qp) QUOTE_PATTERNS.

(** ** Normalization *)

Definition charRange (lo hi : string) (c : Z) : bool :=
  match u lo, u hi with
  | [l], [h] => (l <=? c) && (c <=? h)
  | _, _ => false
  end.

Definition hankakuMap : jsstring :=
  u "ｦｧｨｩｪｫｬｭｮｯｰｱｲｳｴｵｶｷｸｹｺｻｼｽｾｿﾀﾁﾂﾃﾄﾅﾆﾇﾈﾉﾊﾋﾌﾍﾎﾏﾐﾑﾒﾓﾔﾕﾖﾗﾘﾙﾚﾛﾜﾝﾞﾟ".
Definition zenkakuMap : jsstring :=
  u "ヲァィゥェォャュョッーアイウエオカキクケコサシスセソタチツテトナニヌネノハヒフヘホマミムメモヤユヨラリルレロワン゛゜".

(** [t.replace(/[\s　]+/g, "")] *)
Definition removeSpaces (t : jsstring) : jsstring :=
  filter (fun c => negb (isWhiteSpace c || (c =? 0x3000))) t.

(** [t.replace(/[Ａ-Ｚａ-ｚ０-９]/g, ch => String.fromCharCode(ch.charCodeAt(0) - 0xFEE0))] *)
Definition isZenkakuAlnum (c : Z) : bool :=
  charRange "Ａ" "Ｚ" c || charRange "ａ" "ｚ" c || charRange "０" "９" c.

Definition zenkakuToHankaku (t : jsstring) : jsstring :=
  map (fun ch => if isZenkakuAlnum ch then ch - 0xFEE0 else ch) t.

(** [t.replace(/[ｦ-ﾟ]/g, ch => { idx = hankakuMap.indexOf(ch); return idx >= 0 ? zenkakuMap[idx] : ch })];
    an index past the end of [zenkakuMap] reads [undefined], which
    [replace] inserts as the text "undefined". *)
Definition isHankakuKana (c : Z) : bool := charRange "ｦ" "ﾟ" c.

Definition hankakuToZenkaku (t : jsstring) : jsstring :=
  flat_map
    (fun ch =>
       if isHankakuKana ch then
         let idx := indexOf hankakuMap [ch] in
         if 0 <=? idx then
           match nth_error zenkakuMap (Z.to_nat idx) with
           | Some z => [z]
           | None => u "undefined"
           end
         else [ch]
       else [ch])
    t.

Section Analyze.

(** [String.prototype.toLowerCase] of the runtime. *)
Variable toLowerCase : jsstring -> jsstring.

(** [String.prototype.toUpperCase] of the runtime. *)
Variable toUpperCase : jsstring -> jsstring.

(** [Math.pow] of the runtime, on the finite non-negative numbers the
    analysis applies it to. *)
Variable Math_pow : Q -> Q -> Q.

(** [normalizeText(text)] *)
Definition normalizeText (text : jsstring) : jsstring :=
  let t := text in
  let t := removeSpaces t in
  let t := zenkakuToHankaku t in
  let t := hankakuToZenkaku t in
  let t := toLowerCase t in
  t.

(** ** [analyzeLocal] *)

(** The multiplier table of a personality code: [MBTI_MULTIPLIERS[targetMbti] || {}].
    A key that is not one of the sixteen codes reads [undefined], or a
    member of [Object.prototype], which has none of the category ids as a
    property: either way every later lookup [multipliers[catId]] is
    [undefined], as in the empty table. *)
Definition multipliersOf (targetMbti : jsstring) : catObj Q :=
  match str_get MBTI_MULTIPLIERS targetMbti with
  | Some m => m
  | None => []
  end.

(** [o[k] || d] *)
Definition get_or (o : catObj Q) (k : catId) (d : Q) : Q :=
  match obj_get o k with
  | Some v => num_or v d
  | None => d
  end.

(** [PSY_CATEGORIES.direct_insult.baseSeverity]; the key is present. *)
Definition direct_insult_base : Q :=
  match obj_get PSY_CATEGORIES direct_insult with
  | Some ci => baseSeverity ci
  | None => 0
  end.

(** [PSY_CATEGORIES[catId]?.baseSeverity || 3] *)
Definition baseSeverityOf (c : catId) : Q :=
  match obj_get PSY_CATEGORIES c with
  | Some ci => num_or (baseSeverity ci) 3
  | None => 3
  end.

(** The mutable locals of the two detection phases. *)
Record state : Type := mkState
  { found : list Finding.t;
    categoryBaseDamage : catObj Q;
    categoryMbtiDamage : catObj Q;
    directInsultCount : Z;
    hasUltraSevere : bool }.

Definition init : state := mkState [] [] [] 0 false.

(** [found.some(f => f.keyword === pattern)] *)
Definition found_some (fs : list Finding.t) (pattern : jsstring) : bool :=
  existsb (fun f => str_eqb (Finding.keyword f) pattern) fs.

Section Detection.

Variable normalized : jsstring.
Variable targetMbti : jsstring.
Variable multipliers : catObj Q.

(** Phase 1, the body of [for (const pattern of di.patterns)]. *)
Fixpoint phase1_patterns (di : DI.t) (ps : list jsstring) (st : state) : state :=
  match ps with
  | [] => st
  | pattern :: rest =>
    let idx := indexOf normalized pattern in
    if negb (idx =? -1) then
      if isQuotedInsult normalized idx then st
      else if negb (found_some (found st) pattern) then
        let base := direct_insult_base in
        {| found := found st ++
             [Finding.mk pattern (DI.reason di) [targetMbti] direct_insult base];
           categoryBaseDamage :=
             obj_set (categoryBaseDamage st) direct_insult
               (nadd (get_or (categoryBaseDamage st) direct_insult 0) base);
           categoryMbtiDamage :=
             obj_set (categoryMbtiDamage st) direct_insult
               (nadd (get_or (categoryMbtiDamage st) direct_insult 0) base);
           directInsultCount := directInsultCount st + 1;
           hasUltraSevere :=
             if DI.ultraSevere di then true else hasUltraSevere st |}
      else st
    else phase1_patterns di rest st
  end.

(** Phase 1, [for (const di of DIRECT_INSULTS)]. *)
Definition phase1 (st : state) : state :=
  fold_left (fun st di => phase1_patterns di (DI.patterns di) st)
    DIRECT_INSULTS st.

(** Phase 2, the body of [for (const pattern of entry.patterns)]. *)
Fixpoint phase2_patterns (catId : catId) (entry : CP.t) (ps : list jsstring)
    (st : state) : state :=
  match ps with
  | [] => st
  | pattern :: rest =>
    if includes normalized pattern then
      if negb (found_some (found st) pattern) then
        let base := baseSeverityOf catId in
        let mult := get_or multipliers catId 1.0%Q in
        let mbtiDamage := nmul base mult in
        {| found := found st ++
             [Finding.mk pattern (CP.reason entry) [targetMbti] catId mbtiDamage];
           categoryBaseDamage :=
             obj_set (categoryBaseDamage st) catId
               (nadd (get_or (categoryBaseDamage st) catId 0) base);
           categoryMbtiDamage :=
             obj_set (categoryMbtiDamage st) catId
               (nadd (get_or (categoryMbtiDamage st) catId 0) mbtiDamage);
           directInsultCount := directInsultCount st;
           hasUltraSevere := hasUltraSevere st |}
      else st
    else phase2_patterns catId entry rest st
  end.

Definition phase2_entries (catId : catId) (entries : list CP.t) (st : state)
    : state :=
  fold_left (fun st entry => phase2_patterns catId entry (CP.patterns entry) st)
    entries st.

(** Phase 2, [for (const [catId, entries] of Object.entries(CATEGORY_PATTERNS))]. *)
Definition phase2 (st : state) : state :=
  fold_left (fun st ce => phase2_entries (fst ce) (snd ce) st)
    CATEGORY_PATTERNS st.

Definition detect : state := phase2 (phase1 init).

End Detection.

(** *** Tone correction *)

Definition excl : jsstring := u "！!".
Definition ques : jsstring := u "？?".

(** [/[！!]{2,}|[！!][？?]|[？?][！!]/] *)
Definition re_emphasis : regex :=
  alt [RRep excl 2; seq [RSet excl; RSet ques]; seq [RSet ques; RSet excl]].

(** [/！|!/g] *)
Definition re_exclam : regex := alt [RLit (u "！"); RLit (u "!")].

(** [/[？?]{3,}/] and [/[？?]{2,}/] *)
Definition re_ques3 : regex := RRep ques 3.
Definition re_ques2 : regex := RRep ques 2.

(** [/ナンデ|マジデ|フツウ|ホント[ニ二]|イミ[ワハ]カ|ダカラ|ムリ[ダだ]|ウザ|キモ/] *)
Definition re_katakana : regex :=
  alt [RLit (u "ナンデ"); RLit (u "マジデ"); RLit (u "フツウ");
       seq [RLit (u "ホント"); RSet (u "ニ二")];
       seq [RLit (u "イミ"); RSet (u "ワハ"); RLit (u "カ")];
       RLit (u "ダカラ");
       seq [RLit (u "ムリ"); RSet (u "ダだ")];
       RLit (u "ウザ"); RLit (u "キモ")].

(** [/[しすき]ろ[。！!]?$|しなさい|するな|やめろ|やめなさい|黙れ|出ていけ|消えろ|どけ|失せろ|帰れ|来るな/m] *)
Definition re_imperative : regex :=
  alt [seq [RSet (u "しすき"); RLit (u "ろ"); ROpt (u "。！!"); REol];
       RLit (u "しなさい"); RLit (u "するな"); RLit (u "やめろ");
       RLit (u "やめなさい"); RLit (u "黙れ"); RLit (u "出ていけ");
       RLit (u "消えろ"); RLit (u "どけ"); RLit (u "失せろ"); RLit (u "帰れ");
       RLit (u "来るな")].

(** [/ない|ません|じゃない|ではない|できない|しない/g] *)
Definition re_negation : regex :=
  alt [RLit (u "ない"); RLit (u "ません"); RLit (u "じゃない");
       RLit (u "ではない"); RLit (u "できない"); RLit (u "しない")].

(** A correction and the reasons pushed with it. *)
Definition correction : Type := (Z * list jsstring)%type.

Definition bump (c : correction) (n : Z) (reasons : list jsstring) : correction :=
  (fst c + n, snd c ++ reasons).

Definition toneCorrection (text normalized : jsstring) : correction :=
  let c : correction := (0, []) in
  let c :=
    if regex_test re_emphasis text then
      bump c 15 [u "感嘆符・疑問符の連続が強い攻撃性・圧迫感を示しています"]
    else
      let exclamCount := match_count re_exclam text in
      if exclamCount >=? 3 then
        bump c 8 [u "感嘆符の多用が心理的圧迫感を生んでいます"]
      else if exclamCount >=? 1 then bump c 1 []
      else c in
  let c :=
    if regex_test re_ques3 text then
      bump c 15 [u "疑問符の連続が強い詰問・追及のプレッシャーを与えます"]
    else if regex_test re_ques2 text then
      bump c 8 [u "連続する疑問符が詰問・追及のプレッシャーを与えます"]
    else c in
  let c :=
    if regex_test re_katakana normalized then
      bump c 15 [u "カタカナ強調が威圧的・嘲笑的なトーンを生んでいます"]
    else c in
  let c :=
    if regex_test re_imperative normalized then
      bump c 10 [u "命令口調は相手の自律性を脅かし、心理的安全性を破壊します"]
    else c in
  let negCount := match_count re_negation normalized in
  let c :=
    if negCount >=? 3 then
      bump c 5 [u "否定表現の蓄積が無力感・絶望感を誘発します"]
    else c in
  c.

(** *** Pressure correction *)

Definition pressureCorrection (normalized : jsstring) (st : state) : correction :=
  let c : correction := (0, []) in
  let c :=
    if jslength normalized >? 200 then
      bump c 2 [u "長文は受け手に処理の負担を与え、逃げ場のなさを感じさせます"]
    else c in
  let c :=
    if (jslength normalized <? 5) && (jslength normalized >? 0) then
      bump c 3 [u "極端に短い言葉は突き放しや拒絶のシグナルとして受け取られます"]
    else c in
  let uniqueCats := map fst (categoryMbtiDamage st) in
  let c :=
    if Z.of_nat (length uniqueCats) >=? 3 then
      bump c 5 [u "複数の心理的攻撃が重なり、相手の防御機能を突破する危険があります"]
    else c in
  c.

(** *** Score *)

(** [Object.values(o).reduce((a, b) => a + b, 0)] *)
Definition total (o : catObj Q) : Q := fold_left nadd (map snd o) 0%Q.

(** [Math.pow(totalDamage, 1.3) * 2.0 + toneCorrection + pressureCorrection] *)
Definition deduction (totalDamage : Q) (tone pressure : Z) : Q :=
  nadd (nadd (nmul (Math_pow totalDamage 1.3%Q) 2.0%Q) (inject_Z tone))
       (inject_Z pressure).

(** [Math.max(0, Math.min(100, Math.round(100 - deduction)))] *)
Definition scoreOf (d : Q) : Z :=
  Z.max 0 (Z.min 100 (Math_round (nsub 100%Q d))).

(** The insult cap: the [if (hasUltraSevere) ... else if (directInsultCount > 0) ...]. *)
Definition insultCap (n : Z) : Z := Z.max 0 (30 - (n - 1) * 20).

Definition applyCap (count : Z) (ultra : bool) (score : Z) : Z :=
  if ultra then Z.min score 5
  else if count >? 0 then Z.min score (insultCap count)
  else score.

Definition clampToBase (baseScore mbtiRawScore : Z) : Z :=
  Z.max 0 (Z.min 100
    (Z.max (baseScore - 10) (Z.min (baseScore + 10) mbtiRawScore))).

Definition computeScore (st : state) (tone pressure : Z) : Z :=
  let totalBaseDamage := total (categoryBaseDamage st) in
  let totalMbtiDamage := total (categoryMbtiDamage st) in
  let baseDeduction := deduction totalBaseDamage tone pressure in
  let baseScore := scoreOf baseDeduction in
  let mbtiDeduction := deduction totalMbtiDamage tone pressure in
  let mbtiRawScore := scoreOf mbtiDeduction in
  let score := clampToBase baseScore mbtiRawScore in
  applyCap (directInsultCount st) (hasUltraSevere st) score.

(** *** Score reasons *)

(** [Object.entries(o).sort((a, b) => b[1] - a[1])]: a stable sort by
    decreasing damage. The damages are compared as exact rationals. The
    runtime compares doubles, and two damages that are equal as rationals
    can differ there in the last place ([4 * 0.6] and [3 * 0.8]): where
    this sort keeps the insertion order of such a tie, the runtime orders
    the two categories by that last place. *)
Fixpoint insert_desc (x : catId * Q) (l : list (catId * Q)) : list (catId * Q) :=
  match l with
  | [] => [x]
  | y :: l' =>
    if Qle_bool (snd x) (snd y) then y :: insert_desc x l' else x :: l
  end.

Definition sort_desc (l : list (catId * Q)) : list (catId * Q) :=
  fold_left (fun acc x => insert_desc x acc) l [].

Definition categoryReason (targetMbti : jsstring) (multipliers : catObj Q)
    (catId : catId) : list jsstring :=
  let catInfo := obj_get PSY_CATEGORIES catId in
  let mult := get_or multipliers catId 1.0%Q in
  match catInfo with
  | Some catInfo =>
    if Qle_bool 1.8%Q mult then
      [u "【危険】" ++ label catInfo ++ u ": " ++ targetMbti
         ++ u "はこの領域に極めて敏感です。" ++ desc catInfo
         ++ u "表現が深い傷を与えます。"]
    else if Qle_bool 1.3%Q mult then
      [u "【注意】" ++ label catInfo ++ u ": " ++ targetMbti
         ++ u "にとって敏感な領域です。" ++ desc catInfo
         ++ u "表現に注意が必要です。"]
    else
      [label catInfo ++ u ": " ++ desc catInfo ++ u "表現が含まれています。"]
  | None => []
  end.

Definition scoreBand (score : Z) : list jsstring :=
  if score <=? 20 then
    [u "相手の心理的防衛線を複数突破しており、深刻な信頼関係の破壊につながる恐れがあります。"]
  else if score <=? 40 then
    [u "相手のコア・アイデンティティに触れる表現が多く、大幅な書き直しを強く推奨します。"]
  else if score <=? 60 then
    [u "部分的に相手の価値観と衝突する表現があります。改善案を参考にしてください。"]
  else if score <=? 80 then
    [u "概ね安全ですが、一部の表現を調整するとより良い関係構築につながります。"]
  else [].

Definition buildScoreReason (targetMbti : jsstring) (multipliers : catObj Q)
    (st : state) (tone pressure : correction) (score : Z) : list jsstring :=
  if (Z.of_nat (length (found st)) =? 0) && (fst tone =? 0)
     && (fst pressure =? 0) then
    [targetMbti ++ u " の心理的安全性を脅かす表現は検出されませんでした。";
     u "相手の価値観を尊重した安全なメッセージです。"]
  else
    let sortedCats := firstn 3 (sort_desc (categoryMbtiDamage st)) in
    flat_map (fun cd => categoryReason targetMbti multipliers (fst cd)) sortedCats
    ++ scoreBand score
    ++ snd tone
    ++ snd pressure.

(** *** Rewriting *)

Inductive ruleGroup : Set :=
| g_command | g_assertion | g_denial | g_comparison_transform.

Record rule : Type := mkRule { rule_match : regex; rule_replace : list rpart }.

Definition TRANSFORM_RULES (g : ruleGroup) : list rule :=
  match g with
  | g_command =>
    [(* /(.+)[しすき]ろ[。！!]?/g *)
     mkRule (seq [RGroupDotPlus; RSet (u "しすき"); RLit (u "ろ"); ROpt (u "。！!")])
       [G1; T (u "してみるのはどうかな？")];
     (* /(.+)しなさい[。！!]?/g *)
     mkRule (seq [RGroupDotPlus; RLit (u "しなさい"); ROpt (u "。！!")])
       [G1; T (u "してみない？")];
     (* /(.+)するな[。！!]?/g *)
     mkRule (seq [RGroupDotPlus; RLit (u "するな"); ROpt (u "。！!")])
       [G1; T (u "しないほうがいいかもしれないけど、どう思う？")];
     (* /やめろ/g *)
     mkRule (RLit (u "やめろ"))
       [T (u "一度立ち止まって考えてみない？")];
     (* /やめなさい/g *)
     mkRule (RLit (u "やめなさい"))
       [T (u "少し休んでみるのはどうかな？")];
     (* /黙れ/g *)
     mkRule (RLit (u "黙れ"))
       [T (u "少し落ち着いて話そう")];
     (* /出ていけ/g *)
     mkRule (RLit (u "出ていけ"))
       [T (u "少し距離を置いて考えよう")];
     (* /消えろ/g *)
     mkRule (RLit (u "消えろ"))
       [T (u "お互い少し時間をおこう")];
     (* /失せろ/g *)
     mkRule (RLit (u "失せろ"))
       [T (u "お互い冷静になってから話そう")];
     (* /帰れ/g *)
     mkRule (RLit (u "帰れ"))
       [T (u "今日はここまでにしよう")];
     (* /来るな/g *)
     mkRule (RLit (u "来るな"))
       [T (u "少し時間をおいてからにしよう")]]
  | g_assertion =>
    [(* /絶対(.+)だ[。！!]?/g *)
     mkRule (seq [RLit (u "絶対"); RGroupDotPlus; RLit (u "だ"); ROpt (u "。！!")])
       [G1; T (u "かもしれないね。どう思う？")];
     (* /(.+)に決まってる/g *)
     mkRule (seq [RGroupDotPlus; RLit (u "に決まってる")])
       [G1; T (u "の可能性もあるけど、他にも考えられるかな？")];
     (* /間違いなく/g *)
     mkRule (RLit (u "間違いなく"))
       [T (u "もしかすると")];
     (* /当然(.+)でしょ/g *)
     mkRule (seq [RLit (u "当然"); RGroupDotPlus; RLit (u "でしょ")])
       [G1; T (u "という考え方もあるけど、あなたはどう思う？")]]
  | g_denial =>
    [(* /(.+)なんて無駄/g *)
     mkRule (seq [RGroupDotPlus; RLit (u "なんて無駄")])
       [G1; T (u "に取り組んでるんだね。もっと効果的な方法も一緒に探してみない？")];
     (* /(.+)なんて意味ない/g *)
     mkRule (seq [RGroupDotPlus; RLit (u "なんて意味ない")])
       [G1; T (u "を頑張ってるんだね。別のアプローチも考えてみない？")];
     (* /できるわけない/g *)
     mkRule (RLit (u "できるわけない"))
       [T (u "難しいかもしれないけど、一緒にやり方を考えてみよう")];
     (* /無理に決まってる/g *)
     mkRule (RLit (u "無理に決まってる"))
       [T (u "大変そうだね。小さなステップから始めてみるのはどう？")];
     (* /どうせ(.+)できない/g *)
     mkRule (seq [RLit (u "どうせ"); RGroupDotPlus; RLit (u "できない")])
       [G1; T (u "は難しいかもしれないけど、まずやれることから始めてみない？")]]
  | g_comparison_transform =>
    [(* /(.+)を見習え/g *)
     mkRule (seq [RGroupDotPlus; RLit (u "を見習え")])
       [T (u "あなたにはあなたの強みがあるよね。"); G1; T (u "のこういう部分は参考になるかも")];
     (* /(.+)はできるのに/g *)
     mkRule (seq [RGroupDotPlus; RLit (u "はできるのに")])
       [T (u "あなたにはあなたのペースがあるよね")];
     (* /他の人は(.+)/g *)
     mkRule (seq [RLit (u "他の人は"); RGroupDotPlus])
       [T (u "それぞれ違うやり方があるよね。あなたはどうしたい？")]]
  end.

(** [generatePsychologicalReplacement(keyword, category, mbti)] *)
Definition generatePsychologicalReplacement (keyword : jsstring) (category : catId)
    (mbti : jsstring) : jsstring :=
  let kw := keyword in
  match category with
  | direct_insult => u "（" ++ kw ++ u "→）【この表現は削除すべきです】"
  | ideal_denial => u "（" ++ kw ++ u "→）あなたの考えには価値があるよ。一緒に方法を探してみない？"
  | command => u "（" ++ kw ++ u "→）こうしてみるのはどうかな？"
  | command_soft => u "（" ++ kw ++ u "→）応援してるよ。自分のペースでいいからね"
  | comparison => u "（" ++ kw ++ u "→）あなたにはあなたの良さがあるよね"
  | emotional_dismiss => u "（" ++ kw ++ u "→）その気持ちは大切だよ。聞かせてくれてありがとう"
  | identity_attack => u "（" ++ kw ++ u "→）あなたのそういうところも個性だよね"
  | conformity => u "（" ++ kw ++ u "→）いろんなやり方があるよね。あなたのやり方も聞かせて"
  | capability_deny => u "（" ++ kw ++ u "→）難しいかもしれないけど、やり方を一緒に考えよう"
  | freedom_restrict => u "（" ++ kw ++ u "→）こういう方法もあるかも。どう思う？"
  | goodwill_reject => u "（" ++ kw ++ u "→）気にかけてくれてありがとう"
  | privacy_invade => u "（" ++ kw ++ u "→）話せるタイミングで教えてくれたら嬉しいな"
  | past_blame => u "（" ++ kw ++ u "→）これからどうするか一緒に考えよう"
  | vague_criticism => u "（" ++ kw ++ u "→）具体的にはこの部分をこうしてみない？"
  | generalization => u "（" ++ kw ++ u "→）今回の場合は"
  | interrogation_pressure => u "（" ++ kw ++ u "→）どうしたらうまくいくかな？"
  | passive_aggressive => u "（" ++ kw ++ u "→）あなたのことを信じてるよ"
  end.

(** The rule groups tried for a finding of category [cat]. *)
Definition ruleGroupsOf (cat : catId) : list ruleGroup :=
  (if catId_eqb cat command || catId_eqb cat freedom_restrict
      || catId_eqb cat command_soft then [g_command] else [])
  ++ (if catId_eqb cat ideal_denial || catId_eqb cat capability_deny
      then [g_denial] else [])
  ++ (if catId_eqb cat comparison then [g_comparison_transform] else [])
  ++ (if catId_eqb cat generalization then [g_assertion] else []).

(** [for (const rule of rules)]: the first rule that changes the text. *)
Fixpoint tryRules (rules : list rule) (improved : jsstring) : jsstring * bool :=
  match rules with
  | [] => (improved, false)
  | rule :: rest =>
    let before := improved in
    let improved := regex_replace (rule_match rule) (rule_replace rule) improved in
    if negb (str_eqb improved before) then (improved, true)
    else tryRules rest improved
  end.

(** [for (const groupName of ruleGroups)] *)
Fixpoint tryGroups (groups : list ruleGroup) (improved : jsstring)
    : jsstring * bool :=
  match groups with
  | [] => (improved, false)
  | groupName :: rest =>
    let '(improved, transformed) := tryRules (TRANSFORM_RULES groupName) improved in
    if transformed then (improved, true) else tryGroups rest improved
  end.

(** The body of [for (const item of found)]. *)
Definition rewriteItem (targetMbti : jsstring) (improved : jsstring)
    (item : Finding.t) : jsstring :=
  let cat := Finding._category item in
  let '(improved, transformed) := tryGroups (ruleGroupsOf cat) improved in
  if negb transformed && includes improved (Finding.keyword item) then
    let replacement :=
      generatePsychologicalReplacement (Finding.keyword item) cat targetMbti in
    replaceAll improved (Finding.keyword item) replacement
  else improved.

Definition rewrite (targetMbti : jsstring) (text : jsstring)
    (found : list Finding.t) : jsstring :=
  let improved := fold_left (rewriteItem targetMbti) found text in
  fold_left
    (fun improved rule =>
       regex_replace (rule_match rule) (rule_replace rule) improved)
    (TRANSFORM_RULES g_assertion) improved.

(** *** The result *)

Record AnalysisResult : Type :=
  { score : Z;
    scoreReason : list jsstring;
    ngWords : list NgWord.t;
    improved : jsstring }.

(** [found.map(({ _category, _damage, ...rest }) => rest)] *)
Definition cleanFound (found : list Finding.t) : list NgWord.t :=
  map (fun f => NgWord.mk (Finding.keyword f) (Finding.reason f)
                  (Finding.mbtiTypes f))
      found.

(** [analyzeLocal(text, targetMbti)] *)
Definition analyzeLocal (text targetMbti : jsstring) : AnalysisResult :=
  let multipliers := multipliersOf targetMbti in
  let normalized := normalizeText text in
  let st := detect normalized targetMbti multipliers in
  let tone := toneCorrection text normalized in
  let pressure := pressureCorrection normalized st in
  let score := computeScore st (fst tone) (fst pressure) in
  {| score := score;
     scoreReason := buildScoreReason targetMbti multipliers st tone pressure score;
     ngWords := cleanFound (found st);
     improved := rewrite targetMbti text (found st) |}.

(** ** The input validation of the HTTP [handler] *)

(** A value read from the request body. *)
Inductive jsvalue : Type :=
| JUndefined
| JNull
| JBoolean (b : bool)
| JNumber (q : Q)
| JString (s : jsstring)
| JObject.

(** [s.trim()] *)
Fixpoint trimStart (s : jsstring) : jsstring :=
  match s with
  | [] => []
  | c :: s' => if isWhiteSpace c then trimStart s' else s
  end.

Definition trim (s : jsstring) : jsstring :=
  rev (trimStart (rev (trimStart s))).

(** [/^[EI][SN][TF][JP]$/i.test(s)]. Without the [u] flag a character
    outside ASCII never matches an ASCII letter under [i], so the regex
    accepts the four-letter codes in either case and nothing else. *)
Definition isMbtiCode (s : jsstring) : bool :=
  match s with
  | [a; b; c; d] =>
    mem a (u "EIei") && mem b (u "SNsn") && mem c (u "TFtf") && mem d (u "JPjp")
  | _ => false
  end.

(** What the handler does with a request. *)
Inductive response : Type :=
| Status204
| Status405
| Status400 (error : jsstring)
| ClaudeAPI (text targetMbti : jsstring)
| Status200 (result : AnalysisResult).

(** [!text || typeof text !== "string" || text.trim().length === 0] *)
Definition textRejected (text : jsvalue) : bool :=
  match text with
  | JString s => (jslength s =? 0) || (jslength (trim s) =? 0)
  | _ => true
  end.

(** [!targetMbti || typeof targetMbti !== "string" || !/^[EI][SN][TF][JP]$/i.test(targetMbti)] *)
Definition targetMbtiRejected (targetMbti : jsvalue) : bool :=
  match targetMbti with
  | JString s => (jslength s =? 0) || negb (isMbtiCode s)
  | _ => true
  end.

Definition asString (v : jsvalue) : jsstring :=
  match v with
  | JString s => s
  | _ => []
  end.

(** [handler(req, res)], with [text] and [targetMbti] the two fields read
    from [req.body || {}] and [apiKey] the environment variable. *)
Definition handler (method : jsstring) (text targetMbti : jsvalue)
    (apiKey : option jsstring) : response :=
  if str_eqb method (u "OPTIONS") then Status204
  else if negb (str_eqb method (u "POST")) then Status405
  else if textRejected text then Status400 (u "text は必須です")
  else if targetMbtiRejected targetMbti then
    Status400 (u "targetMbti は有効なMBTIタイプ（例: INFP）を指定してください")
  else
    let useAI :=
      match apiKey with
      | Some k => negb (jslength k =? 0) && negb (includes k (u "xxx"))
      | None => false
      end in
    if useAI then
      ClaudeAPI (trim (asString text)) (toUpperCase (asString targetMbti))
    else
      Status200 (analyzeLocal (trim (asString text))
                              (toUpperCase (asString targetMbti))).

End Analyze.

(** ** A runtime to evaluate the analysis with

    [toLowerCaseASCII], [toUpperCaseASCII] and [Math_pow_model] stand for the
    built-ins when the analysis is evaluated on a concrete text. The first
    two agree with the runtime on every string whose only cased characters
    are ASCII letters; the third is the power of a non-negative rational to a
    non-negative rational exponent [p/q], truncated to twelve decimal
    places. *)

Definition toLowerCaseASCII (s : jsstring) : jsstring :=
  map (fun c => if (0x41 <=? c) && (c <=? 0x5A) then c + 0x20 else c) s.

Definition toUpperCaseASCII (s : jsstring) : jsstring :=
  map (fun c => if (0x61 <=? c) && (c <=? 0x7A) then c - 0x20 else c) s.

(** The largest [r] in [lo, hi) with [r ^ q <= n]. *)
Fixpoint iroot_bisect (fuel : nat) (q n lo hi : Z) : Z :=
  match fuel with
  | O => lo
  | S fuel' =>
    if hi - lo <=? 1 then lo
    else
      let mid := (lo + hi) / 2 in
      if mid ^ q <=? n then iroot_bisect fuel' q n mid hi
      else iroot_bisect fuel' q n lo mid
  end.

Definition iroot (q n : Z) : Z :=
  let bits := Z.log2 n / q + 1 in
  iroot_bisect (Z.to_nat (bits + 2)) q n 0 (2 ^ bits).

Definition Math_pow_model (x y : Q) : Q :=
  let x := Qred x in
  let y := Qred y in
  let p := Qnum y in
  let q := Zpos (Qden y) in
  let scale := 10 ^ 12 in
  let n := (Qnum x ^ p * scale ^ q) / (Zpos (Qden x) ^ p) in
  Qred (iroot q n # 1000000000000).

Definition analyze : jsstring -> jsstring -> AnalysisResult :=
  analyzeLocal toLowerCaseASCII Math_pow_model.

(** ** The LINE bot: [api/webhook.js]

    The conversational webhook keeps one state per user in [userStates].
    A handler invocation treats the events of a request one after the
    other; within an event the state is read and written before the first
    [await], so an event is one step on the shared object. The object is
    read and written at LINE user ids only; it is a finite map here. *)

(** The decimal text of an integer, as a template literal prints it. *)
Definition numberToString (n : Z) : jsstring :=
  map (fun a => Z.of_N (N_of_ascii a))
      (list_ascii_of_string (NilZero.string_of_int (Z.to_int n))).

(** [a.join("\n")] *)
Fixpoint join_lines (a : list jsstring) : jsstring :=
  match a with
  | [] => []
  | [x] => x
  | x :: a' => x ++ [10] ++ join_lines a'
  end.

(** [riskLabel(risk)] *)
Definition riskLabel (risk : Z) : jsstring * jsstring :=
  if risk >=? 60 then (u "🔴", u "地雷")
  else if risk >=? 30 then (u "🟠", u "危険")
  else if risk >=? 10 then (u "🟡", u "注意")
  else (u "🟢", u "安全").

(** [scoreEmoji(score)], of the earlier reply format and of [server.js]. *)
Definition scoreEmoji (score : Z) : jsstring :=
  if score >=? 80 then u "✅"
  else if score >=? 60 then u "⚠️"
  else if score >=? 40 then u "🔶"
  else u "🚨".

(** [formatResult(result)] *)
Definition formatResult (result : AnalysisResult) : jsstring :=
  let risk := 100 - score result in
  let '(emoji, label) := riskLabel risk in
  let reasons := join_lines (scoreReason result) in
  let sep := u "━━━━━━━━━━━━" in
  sep ++ [10]
  ++ u "⚠️ 地雷リスク：" ++ numberToString risk ++ u "%（" ++ emoji ++ u " "
  ++ label ++ u "）" ++ [10]
  ++ sep ++ [10]
  ++ [10]
  ++ u "🧠 理由：" ++ [10] ++ reasons ++ [10]
  ++ [10]
  ++ u "💡 改善案：" ++ [10] ++ improved result.

(** A value of [userStates]: [{ step: "waiting_mbti" }] or
    [{ step: "waiting_text", mbti }]. *)
Inductive userState : Type :=
| waiting_mbti
| waiting_text (mbti : jsstring).

Definition userStatesT : Type := list (jsstring * userState).

(** [o[k] = v] on an object whose keys are strings. On a plain object
    such as [userStates] the key [__proto__] is no own property but the
    accessor of the prototype: the assignment of an object replaces the
    prototype and a later read [o["__proto__"]] returns it. The pair with
    the key [__proto__] stands for that prototype; a property it would
    hand down to another key is a string ([step], [mbti]), which the
    handler reads as no state. *)
Fixpoint str_set {A : Type} (o : list (jsstring * A)) (k : jsstring) (v : A)
    : list (jsstring * A) :=
  match o with
  | [] => [(k, v)]
  | (k', v') :: o' =>
    if str_eqb k' k then (k, v) :: o' else (k', v') :: str_set o' k v
  end.

(** The object without its own property [k]. *)
Fixpoint str_remove {A : Type} (o : list (jsstring * A)) (k : jsstring)
    : list (jsstring * A) :=
  match o with
  | [] => []
  | (k', v') :: o' =>
    if str_eqb k' k then str_remove o' k else (k', v') :: str_remove o' k
  end.

(** [delete o[k]] on a plain object: it removes an own property, and so
    leaves the prototype that [o["__proto__"] = v] has put in place. *)
Definition str_delete {A : Type} (o : list (jsstring * A)) (k : jsstring)
    : list (jsstring * A) :=
  if str_eqb k (u "__proto__") then o else str_remove o k.

(** What the handler reads of a webhook event: [event.type],
    [event.message?.type], [event.source?.userId], [event.message.text]
    (a string whenever the message type is "text") and [event.replyToken]. *)
Record event : Type :=
  { ev_type : jsstring;
    ev_messageType : option jsstring;
    ev_userId : option jsstring;
    ev_text : jsstring;
    ev_replyToken : jsstring }.

(** A call [replyToLine(replyToken, [{ type: "text", text, quickReply }])];
    the quick-reply items are given by their label and text. *)
Record reply : Type :=
  { replyToken : jsstring;
    reply_text : jsstring;
    quickReply : list (jsstring * jsstring) }.

(** [/^[EI][SN][TF][JP]$/.test(s)] *)
Definition isUpperMbtiCode (s : jsstring) : bool :=
  match s with
  | [a; b; c; d] =>
    mem a (u "EI") && mem b (u "SN") && mem c (u "TF") && mem d (u "JP")
  | _ => false
  end.

Definition mbtiTypes : list jsstring :=
  [u "INFP"; u "ENFP"; u "INFJ"; u "ENFJ";
   u "INTJ"; u "ENTJ"; u "INTP"; u "ENTP";
   u "ISFP"; u "ESFP"; u "ISTP"; u "ESTP";
   u "ISFJ"; u "ESFJ"; u "ISTJ"; u "ESTJ"].



Section Bot.

Variable toLowerCase : jsstring -> jsstring.
Variable toUpperCase : jsstring -> jsstring.
Variable Math_pow : Q -> Q -> Q.

(** The body of [for (const event of events)] in the conversational
    handler: the new [userStates] and the replies sent. *)
Definition onEvent (userStates : userStatesT) (ev : event)
    : userStatesT * list reply :=
  if negb (str_eqb (ev_type ev) (u "message"))
     || negb (match ev_messageType ev with
              | Some t => str_eqb t (u "text")
              | None => false
              end)
  then (userStates, [])
  else
    match ev_userId ev with
    | None => (userStates, [])
    | Some userId =>
      if jslength userId =? 0 then (userStates, [])
      else
        let userText := trim (ev_text ev) in
        let token := ev_replyToken ev in
        let state := str_get userStates userId in
        if str_eqb userText (u "診断") || str_eqb userText (u "診断を始める") then
          (str_set userStates userId waiting_mbti,
           [{| replyToken := token;
               reply_text := u "相手のMBTIを選んでください";
               quickReply := map (fun t => (t, t)) mbtiTypes |}])
        else
          match state with
          | Some waiting_mbti =>
            let mbti := toUpperCase userText in
            if negb (isUpperMbtiCode mbti) then
              (userStates,
               [{| replyToken := token;
                   reply_text :=
                     u "有効なMBTIタイプを入力してください（例: INFP, ESTJ）";
                   quickReply := [] |}])
            else
              (str_set userStates userId (waiting_text mbti),
               [{| replyToken := token;
                   reply_text :=
                     mbti ++ u " ですね！" ++ [10]
                     ++ u "チェックしたい文章を送ってください。";
                   quickReply := [] |}])
          | Some (waiting_text mbti) =>
            let result := analyzeLocal toLowerCase Math_pow userText mbti in
            (str_delete userStates userId,
             [{| replyToken := token;
                 reply_text := formatResult result;
                 quickReply := [(u "もう一度診断する", u "診断を始める")] |}])
          | None =>
            (userStates,
             [{| replyToken := token;
                 reply_text := u "🔍 MBTI地雷診断を始めますか？";
                 quickReply := [(u "診断を始める", u "診断を始める")] |}])
          end
    end.

(** The events of one or several requests, in order. *)
Definition onEvents (userStates : userStatesT) (events : list event)
    : userStatesT * list reply :=
  fold_left
    (fun acc ev =>
       let '(states, replies) := acc in
       let '(states', sent) := onEvent states ev in
       (states', replies ++ sent))
    events (userStates, []).


End Bot.

(** ** Loading [.env] in [server.js] *)

(** [s.slice(start, end)] *)
Definition slice2 (s : jsstring) (start stop : Z) : jsstring :=
  let len := jslength s in
  let from := if start <? 0 then Z.max (len + start) 0 else Z.min start len in
  let to := if stop <? 0 then Z.max (len + stop) 0 else Z.min stop len in
  firstn (Z.to_nat (to - from)) (skipn (Z.to_nat from) s).

(** [s.split("\n")] *)
Fixpoint split_lines (s : jsstring) : list jsstring :=
  match s with
  | [] => [[]]
  | c :: s' =>
    if c =? 10 then [] :: split_lines s'
    else match split_lines s' with
         | line :: lines => (c :: line) :: lines
         | [] => [[c]]
         end
  end.

(** The environment, [process.env]: names and their values. *)
Definition environment : Type := list (jsstring * jsstring).

(** The body of [for (const line of envContent.split("\n"))]. *)
Definition loadEnvLine (env : environment) (line : jsstring) : environment :=
  let trimmed := trim line in
  if (jslength trimmed =? 0) || startsWith trimmed (u "#") then env
  else
    let eqIndex := indexOf trimmed (u "=") in
    if eqIndex =? -1 then env
    else
      let key := trim (slice2 trimmed 0 eqIndex) in
      let val := trim (slice trimmed (eqIndex + 1)) in
      let unset :=
        match str_get env key with
        | Some v => jslength v =? 0
        | None => true
        end in
      if unset then str_set env key val else env.

(** The loop over the lines of the file. *)
Definition loadEnv (envContent : jsstring) (env : environment) : environment :=
  fold_left loadEnvLine (split_lines envContent) env.

(** ** Notions the properties are stated with *)

(** [pattern] occurs in [normalized]: [normalized.indexOf(pattern) !== -1]. *)
Definition occurs (normalized pattern : jsstring) : bool :=
  negb (indexOf normalized pattern =? -1).

(** The state after the block that records an insult. *)
Definition push_insult (targetMbti : jsstring) (di : DI.t) (pattern : jsstring)
    (st : state) : state :=
  {| found := found st ++
       [Finding.mk pattern (DI.reason di) [targetMbti] direct_insult
          direct_insult_base];
     categoryBaseDamage :=
       obj_set (categoryBaseDamage st) direct_insult
         (nadd (get_or (categoryBaseDamage st) direct_insult 0) direct_insult_base);
     categoryMbtiDamage :=
       obj_set (categoryMbtiDamage st) direct_insult
         (nadd (get_or (categoryMbtiDamage st) direct_insult 0) direct_insult_base);
     directInsultCount := directInsultCount st + 1;
     hasUltraSevere := if DI.ultraSevere di then true else hasUltraSevere st |}.

(** The state after the block that records a category finding. *)
Definition push_category (targetMbti : jsstring) (multipliers : catObj Q)
    (c : catId) (entry : CP.t) (pattern : jsstring) (st : state) : state :=
  let base := baseSeverityOf c in
  let mbtiDamage := nmul base (get_or multipliers c 1.0%Q) in
  {| found := found st ++
       [Finding.mk pattern (CP.reason entry) [targetMbti] c mbtiDamage];
     categoryBaseDamage :=
       obj_set (categoryBaseDamage st) c
         (nadd (get_or (categoryBaseDamage st) c 0) base);
     categoryMbtiDamage :=
       obj_set (categoryMbtiDamage st) c
         (nadd (get_or (categoryMbtiDamage st) c 0) mbtiDamage);
     directInsultCount := directInsultCount st;
     hasUltraSevere := hasUltraSevere st |}.

(** The sixteen personality codes: the keys of [MBTI_MULTIPLIERS]. *)
Definition validCodes : list jsstring := map fst MBTI_MULTIPLIERS.

(** Two states that differ at most in the weighted damages and in the
    labels of the findings. *)
Definition same_detection (a b : state) : Prop :=
  map Finding.keyword (found a) = map Finding.keyword (found b) /\
  categoryBaseDamage a = categoryBaseDamage b /\
  map fst (categoryMbtiDamage a) = map fst (categoryMbtiDamage b) /\
  directInsultCount a = directInsultCount b /\
  hasUltraSevere a = hasUltraSevere b.

(** The findings carry pairwise distinct phrases. *)
Definition unique_keywords (st : state) : Prop :=
  NoDup (map Finding.keyword (found st)).

(** A decision procedure for [NoDup] on strings. *)
Fixpoint nodupb (l : list jsstring) : bool :=
  match l with
  | [] => true
  | x :: l' => negb (existsb (str_eqb x) l') && nodupb l'
  end.

(** The ultra-severe entry of the dictionary. *)
Definition ultraEntry : DI.t :=
  DI.mk [u "死ね"; u "しね"; u "タヒね"; u "死んで"; u "死ねば"] direct_insult
    (u "生存を否定する最も危険な言葉です") true.

(** Phase 1 reports at least [k] insults in [normalized], or an
    ultra-severe one. *)
Definition insultsAtLeast (k : Z) (normalized : jsstring) : bool :=
  let st := phase1 normalized [] init in
  (directInsultCount st >=? k) || hasUltraSevere st.

(** A character the first three steps of [normalizeText] leave alone. *)
Definition settled (c : Z) : bool :=
  negb (isWhiteSpace c || (c =? 0x3000))
  && negb (isZenkakuAlnum c) && negb (isHankakuKana c).

(** The replacement of one half-width katakana, as in [hankakuToZenkaku]. *)
Definition zenkakuOf (ch : Z) : jsstring :=
  if isHankakuKana ch then
    let idx := indexOf hankakuMap [ch] in
    if 0 <=? idx then
      match nth_error zenkakuMap (Z.to_nat idx) with
      | Some z => [z]
      | None => u "undefined"
      end
    else [ch]
  else [ch].

(** [analyzeLocal] with the multiplier table as an argument: the body of
    the function after its first line. *)
Definition analyzeWith (toLowerCase : jsstring -> jsstring)
    (Math_pow : Q -> Q -> Q) (multipliers : catObj Q)
    (text targetMbti : jsstring) : AnalysisResult :=
  let normalized := normalizeText toLowerCase text in
  let st := detect normalized targetMbti multipliers in
  let tone := toneCorrection text normalized in
  let pressure := pressureCorrection normalized st in
  let score := computeScore Math_pow st (fst tone) (fst pressure) in
  {| score := score;
     scoreReason := buildScoreReason targetMbti multipliers st tone pressure score;
     ngWords := cleanFound (found st);
     improved := rewrite targetMbti text (found st) |}.

(** The score before the personality weighting, with the insult cap. *)
Definition baseScoreCapped (Math_pow : Q -> Q -> Q) (st : state)
    (tone pressure : Z) : Z :=
  applyCap (directInsultCount st) (hasUltraSevere st)
    (scoreOf (deduction Math_pow (total (categoryBaseDamage st)) tone pressure)).

(** The weighted damages are the base damages. *)
Definition unweighted (st : state) : Prop :=
  categoryMbtiDamage st = categoryBaseDamage st
  /\ Forall (fun f => Finding._category f = direct_insult
                      \/ Finding._damage f = baseSeverityOf (Finding._category f))
            (found st).

(** Every finding is labelled with the code of the call. *)
Definition labelled (ty : jsstring) (st : state) : Prop :=
  Forall (fun f => Finding.mbtiTypes f = [ty]) (found st).

(** The insult cap in force: 5 with an ultra-severe insult, [insultCap n]
    with [n >= 1] insults, none (100) otherwise. *)
Definition capInForce (st : state) : Z :=
  if hasUltraSevere st then 5
  else if directInsultCount st >? 0 then insultCap (directInsultCount st)
  else 100.

(** Every phrase of [DIRECT_INSULTS]. *)
Definition insultPhrases : list jsstring :=
  concat (map DI.patterns DIRECT_INSULTS).

(** Every phrase of [CATEGORY_PATTERNS]. *)
Definition categoryPhrases : list jsstring :=
  concat (map CP.patterns (concat (map snd CATEGORY_PATTERNS))).

(** What a finding shows once the personality code is set aside. *)
Definition findingCore (f : Finding.t) : jsstring * jsstring * catId :=
  (Finding.keyword f, Finding.reason f, Finding._category f).

(** Every rule of [TRANSFORM_RULES]. *)
Definition allRules : list rule :=
  TRANSFORM_RULES g_command ++ TRANSFORM_RULES g_assertion
  ++ TRANSFORM_RULES g_denial ++ TRANSFORM_RULES g_comparison_transform.

(** The categories other than [direct_insult]: the keys of a multiplier
    table. *)
Definition weightedCategories : list catId :=
  [ideal_denial; command; command_soft; comparison; emotional_dismiss;
   identity_attack; conformity; capability_deny; freedom_restrict;
   goodwill_reject; privacy_invade; past_blame; vague_criticism;
   generalization; interrogation_pressure; passive_aggressive].

(** The multiplier of [c] for the code [ty] is listed and lies between
    0.5 and 2.0. *)
Definition multiplierListed (ty : jsstring) (c : catId) : bool :=
  match obj_get (multipliersOf ty) c with
  | Some m => Qle_bool 0.5 m && Qle_bool m 2.0
  | None => false
  end.

(** The damage a finding is recorded with under the multiplier table [m]. *)
Definition weighedBy (m : catObj Q) (f : Finding.t) : Prop :=
  (Finding._category f = direct_insult /\ Finding._damage f = 10%Q)
  \/ (Finding._category f <> direct_insult
      /\ Finding._damage f
         = nmul (baseSeverityOf (Finding._category f))
                (get_or m (Finding._category f) 1.0%Q)).

(** Every stored [waiting_text] state carries one of the sixteen codes. *)
Definition codesValid (userStates : userStatesT) : Prop :=
  forall userId mbti,
    str_get userStates userId = Some (waiting_text mbti) -> In mbti validCodes.

(** A text message event of the user [userId]. *)
Definition textEventOf (userId : jsstring) (ev : event) : Prop :=
  ev_type ev = u "message" /\ ev_messageType ev = Some (u "text")
  /\ ev_userId ev = Some userId /\ userId <> [].

(** The texts that start the flow. *)
Definition startsFlow (userText : jsstring) : bool :=
  str_eqb userText (u "診断") || str_eqb userText (u "診断を始める").

(** Sample events, for evaluating the bot. *)
Definition textEvent (userId text : string) : event :=
  {| ev_type := u "message"; ev_messageType := Some (u "text");
     ev_userId := Some (u userId); ev_text := u text;
     ev_replyToken := u "token" |}.

(** A correction of at most [hi], with at most [n] reasons, and with no
    reason when it is 0. *)
Definition boundedCorrection (hi : Z) (n : nat) (c : correction) : Prop :=
  0 <= fst c <= hi /\ (length (snd c) <= n)%nat /\ (fst c = 0 -> snd c = []).

(** ** Notions for texts that grow by an insult phrase *)

(** The entry [di] is reported for [normalized]: the first of its phrases
    that occurs there is not taken as quoted. *)
Definition reported (normalized : jsstring) (di : DI.t) : bool :=
  match find (occurs normalized) (DI.patterns di) with
  | Some p => negb (isQuotedInsult normalized (indexOf normalized p))
  | None => false
  end.

(** [q] has an occurrence in [n ++ p] that ends in [p]. *)
Definition completes (n p q : jsstring) : bool :=
  includes (skipn (length n + 1 - length q) (n ++ p)) q.

(** The spellings of the insult [p]: the phrases of the entries of
    [DIRECT_INSULTS] that list [p]. *)
Definition spellingsOf (p : jsstring) : list jsstring :=
  concat (map DI.patterns
            (filter (fun di => existsb (str_eqb p) (DI.patterns di))
                    DIRECT_INSULTS)).

(** The two parts of [re_imperative]: the command ending, which [$] ties
    to the end of the text, and the command words. *)
Definition commandEnding : regex :=
  seq [RSet (u "しすき"); RLit (u "ろ"); ROpt (u "。！!"); REol].

Definition commandWords : regex :=
  alt [RLit (u "しなさい"); RLit (u "するな"); RLit (u "やめろ");
       RLit (u "やめなさい"); RLit (u "黙れ"); RLit (u "出ていけ");
       RLit (u "消えろ"); RLit (u "どけ"); RLit (u "失せろ"); RLit (u "帰れ");
       RLit (u "来るな")].

(** The damage object after [k] insults and before any category finding. *)
Definition insultObj (k : nat) : catObj Q :=
  match k with
  | O => []
  | S _ => [(direct_insult, inject_Z (10 * Z.of_nat k))]
  end.

(** A regex without [$]. *)
Fixpoint eolFree (r : regex) : bool :=
  match r with
  | REol => false
  | RSeq r1 r2 | RAlt r1 r2 => eolFree r1 && eolFree r2
  | _ => true
  end.

(** No phrase of the list is a prefix of a phrase listed before it. *)
Fixpoint prefixFree (ls : list jsstring) : bool :=
  match ls with
  | [] => true
  | a :: ls' => forallb (fun l => negb (startsWith a l)) ls' && prefixFree ls'
  end.

(** The proper prefixes of [l]. *)
Definition properPrefixes (l : jsstring) : list jsstring :=
  map (fun k => firstn k l) (List.seq 0 (length l)).

(** What the growth of a text by an insult phrase needs of the runtime's
    [toLowerCase]: the phrase has no cased character, and lower-casing
    leaves it alone wherever it is appended. *)
Definition lowersApart (toLowerCase : jsstring -> jsstring) : Prop :=
  forall a p, In p insultPhrases -> toLowerCase (a ++ p) = toLowerCase a ++ p.

(** What it needs of [Math.pow(x, 1.3)] on the non-negative rationals: it
    increases with [x], ten more damage add at least 6.5 to it as long as
    the damage is 21 or less, and at 21 it has passed 50.25, from where on
    the score is 0. *)
Definition powGrows (Math_pow : Q -> Q -> Q) : Prop :=
  (forall x y, 0 <= x -> x <= y -> Math_pow x 1.3 <= Math_pow y 1.3)%Q
  /\ (forall x, 0 <= x -> x <= 21 ->
      Math_pow x 1.3 + 6.5 <= Math_pow (x + 10) 1.3)%Q
  /\ (50.25 <= Math_pow 21 1.3)%Q.

(** The entries of [CATEGORY_PATTERNS], each with its category, in the
    order phase 2 visits them. *)
Definition entriesOf : list (catId * CP.t) :=
  flat_map (fun ce => map (fun e => (fst ce, e)) (snd ce)) CATEGORY_PATTERNS.

(** The entry [ce] lists the phrase [q]. *)
Definition lists (q : jsstring) (ce : catId * CP.t) : bool :=
  existsb (str_eqb q) (CP.patterns (snd ce)).

(** The category phrases that two entries share. *)
Definition sharedPhrases : list jsstring :=
  filter (fun q => (2 <=? length (filter (lists q) entriesOf))%nat)
         categoryPhrases.

(** The phrases recorded so far. *)
Definition keywords (st : state) : list jsstring :=
  map Finding.keyword (found st).

(** The states of phase 2 for a text [n] and for a longer text, after the
    entries [done]: what the longer text has recorded of [n] the text has
    recorded too, and the longer text is ahead by [extra] damage at least
    and by its categories. *)
Definition ahead (n : jsstring) (extra : Q) (done : list (catId * CP.t))
    (a b : state) : Prop :=
  (forall q, In q (keywords b) ->
             In q insultPhrases
             \/ exists ce, In ce done /\ In q (CP.patterns (snd ce)))
  /\ (forall q, In q (keywords b) -> In q categoryPhrases ->
                includes n q = true -> In q (keywords a))
  /\ (total (categoryBaseDamage a) + extra <= total (categoryBaseDamage b))%Q
  /\ (total (categoryMbtiDamage a) + extra <= total (categoryMbtiDamage b))%Q
  /\ incl (map fst (categoryMbtiDamage a)) (map fst (categoryMbtiDamage b))
  /\ NoDup (map fst (categoryMbtiDamage a)).

(** The alternation of the literals [ls]. *)
Definition lits (ls : list jsstring) : regex := alt (map RLit ls).

(** After a proper prefix of a literal has lost its first character, what
    is left holds at most one match of [r]. *)
Definition shortTails (r : regex) (ls : list jsstring) : bool :=
  forallb
    (fun l => forallb (fun v => count_from r O (tl v) <=? 1) (properPrefixes l))
    ls.

(** * Properties *)

(** ** Strings *)

Lemma str_eqb_eq (a b : jsstring) : str_eqb a b = true <-> a = b.
Proof.
  revert b; induction a as [|x a IH]; intros [|y b]; simpl; split;
    try congruence; try reflexivity.
  - intros H. apply andb_true_iff in H as [H1 H2].
    apply Z.eqb_eq in H1. apply IH in H2. congruence.
  - intros H. injection H as -> ->. rewrite Z.eqb_refl. simpl.
    now apply IH.
Qed.

Lemma str_eqb_refl (a : jsstring) : str_eqb a a = true.
Proof. now apply str_eqb_eq. Qed.

Lemma found_some_In (fs : list Finding.t) (p : jsstring) :
  found_some fs p = true <-> In p (map Finding.keyword fs).
Proof.
  unfold found_some. rewrite existsb_exists, in_map_iff. split.
  - intros [f [Hf He]]. apply str_eqb_eq in He. now exists f.
  - intros [f [He Hf]]. exists f. split; [assumption|]. now apply str_eqb_eq.
Qed.

(** ** Folds *)

Lemma fold_left_inv {A B : Type} (P : A -> Prop) (f : A -> B -> A)
    (l : list B) (a : A) :
  P a -> (forall a b, In b l -> P a -> P (f a b)) -> P (fold_left f l a).
Proof.
  revert a; induction l as [|b l IH]; intros a Ha Hf; simpl; [assumption|].
  apply IH.
  - apply Hf; [now left | assumption].
  - intros a' b' Hb. apply Hf. now right.
Qed.

Lemma fold_left_rel {A A' B : Type} (R : A -> A' -> Prop) (f : A -> B -> A)
    (g : A' -> B -> A') (l : list B) (a : A) (a' : A') :
  R a a' -> (forall a a' b, In b l -> R a a' -> R (f a b) (g a' b)) ->
  R (fold_left f l a) (fold_left g l a').
Proof.
  revert a a'; induction l as [|b l IH]; intros a a' Ha Hf; simpl;
    [assumption|].
  apply IH.
  - apply Hf; [now left | assumption].
  - intros x x' b' Hb. apply Hf. now right.
Qed.

(** ** The two detection loops, entry by entry *)

Section DetectionFacts.

Variable normalized : jsstring.
Variable targetMbti : jsstring.
Variable multipliers : catObj Q.

(** An entry of [DIRECT_INSULTS] is decided by the first of its phrases
    that occurs in the normalized text. *)
Lemma phase1_patterns_find (di : DI.t) (ps : list jsstring) (st : state) :
  phase1_patterns normalized targetMbti di ps st =
  match find (occurs normalized) ps with
  | None => st
  | Some p =>
    if isQuotedInsult normalized (indexOf normalized p) then st
    else if found_some (found st) p then st
    else push_insult targetMbti di p st
  end.
Proof.
  induction ps as [|p ps IH]; simpl; [reflexivity|].
  unfold occurs at 1.
  destruct (negb (indexOf normalized p =? -1)); [|apply IH].
  destruct (isQuotedInsult normalized (indexOf normalized p)); [reflexivity|].
  destruct (found_some (found st) p); reflexivity.
Qed.

(** An entry of [CATEGORY_PATTERNS] is decided by the first of its phrases
    the normalized text includes. *)
Lemma phase2_patterns_find (c : catId) (entry : CP.t) (ps : list jsstring)
    (st : state) :
  phase2_patterns normalized targetMbti multipliers c entry ps st =
  match find (includes normalized) ps with
  | None => st
  | Some p =>
    if found_some (found st) p then st
    else push_category targetMbti multipliers c entry p st
  end.
Proof.
  induction ps as [|p ps IH]; simpl; [reflexivity|].
  destruct (includes normalized p); [|apply IH].
  destruct (found_some (found st) p); reflexivity.
Qed.

End DetectionFacts.

(** ** Score arithmetic *)

Lemma clampToBase_range (b r : Z) : 0 <= clampToBase b r <= 100.
Proof. unfold clampToBase. lia. Qed.

Lemma clampToBase_near (b r : Z) :
  0 <= b <= 100 -> b - 10 <= clampToBase b r <= b + 10.
Proof. unfold clampToBase. lia. Qed.

Lemma scoreOf_range (d : Q) : 0 <= scoreOf d <= 100.
Proof. unfold scoreOf. lia. Qed.

Lemma applyCap_range (count : Z) (ultra : bool) (s : Z) :
  0 <= s <= 100 -> 0 <= applyCap count ultra s <= 100.
Proof.
  unfold applyCap, insultCap. intros H.
  destruct ultra; [lia|]. destruct (count >? 0); lia.
Qed.

Lemma applyCap_close (count : Z) (ultra : bool) (s1 s2 : Z) :
  Z.abs (applyCap count ultra s1 - applyCap count ultra s2) <= Z.abs (s1 - s2).
Proof.
  unfold applyCap. destruct ultra; [lia|]. destruct (count >? 0); lia.
Qed.

Lemma computeScore_range (Math_pow : Q -> Q -> Q) (st : state) (tone pressure : Z) :
  0 <= computeScore Math_pow st tone pressure <= 100.
Proof. unfold computeScore. apply applyCap_range, clampToBase_range. Qed.

(** C1. The score [analyzeLocal] returns is an integer between 0 and 100,
    for every text and every personality code, whatever the runtime's
    [toLowerCase] and [Math.pow] compute. *)
Theorem score_in_0_100 (toLowerCase : jsstring -> jsstring)
    (Math_pow : Q -> Q -> Q) (text targetMbti : jsstring) :
  0 <= score (analyzeLocal toLowerCase Math_pow text targetMbti) <= 100.
Proof. unfold analyzeLocal; simpl. apply computeScore_range. Qed.

(** ** One finding per phrase *)

Lemma push_insult_keywords (ty : jsstring) (di : DI.t) (p : jsstring) (st : state) :
  map Finding.keyword (found (push_insult ty di p st))
  = map Finding.keyword (found st) ++ [p].
Proof. unfold push_insult; simpl. now rewrite map_app. Qed.

Lemma push_category_keywords (ty : jsstring) (m : catObj Q) (c : catId)
    (e : CP.t) (p : jsstring) (st : state) :
  map Finding.keyword (found (push_category ty m c e p st))
  = map Finding.keyword (found st) ++ [p].
Proof. unfold push_category; simpl. now rewrite map_app. Qed.

Lemma not_found_some (fs : list Finding.t) (p : jsstring) :
  found_some fs p = false -> ~ In p (map Finding.keyword fs).
Proof.
  intros H Hin. apply found_some_In in Hin. congruence.
Qed.

(** What one entry of [DIRECT_INSULTS] does to the findings. *)
Lemma phase1_entry_once (normalized ty : jsstring) (di : DI.t) (st : state) :
  let st' := phase1_patterns normalized ty di (DI.patterns di) st in
  st' = st \/
  exists p, find (occurs normalized) (DI.patterns di) = Some p /\
            ~ In p (map Finding.keyword (found st)) /\
            map Finding.keyword (found st') = map Finding.keyword (found st) ++ [p].
Proof.
  cbv zeta. rewrite phase1_patterns_find.
  destruct (find (occurs normalized) (DI.patterns di)) as [p|]; [|now left].
  destruct (isQuotedInsult normalized (indexOf normalized p)); [now left|].
  destruct (found_some (found st) p) eqn:E; [now left|].
  right. exists p. split; [reflexivity|]. split.
  - now apply not_found_some.
  - apply push_insult_keywords.
Qed.

(** What one entry of [CATEGORY_PATTERNS] does to the findings. *)
Lemma phase2_entry_once (normalized ty : jsstring) (m : catObj Q) (c : catId)
    (e : CP.t) (st : state) :
  let st' := phase2_patterns normalized ty m c e (CP.patterns e) st in
  st' = st \/
  exists p, find (includes normalized) (CP.patterns e) = Some p /\
            ~ In p (map Finding.keyword (found st)) /\
            map Finding.keyword (found st') = map Finding.keyword (found st) ++ [p].
Proof.
  cbv zeta. rewrite phase2_patterns_find.
  destruct (find (includes normalized) (CP.patterns e)) as [p|]; [|now left].
  destruct (found_some (found st) p) eqn:E; [now left|].
  right. exists p. split; [reflexivity|]. split.
  - now apply not_found_some.
  - apply push_category_keywords.
Qed.

Lemma NoDup_snoc {A : Type} (l : list A) (x : A) :
  NoDup l -> ~ In x l -> NoDup (l ++ [x]).
Proof.
  intros Hl Hx. apply NoDup_app; [assumption | repeat constructor; auto |].
  intros y Hy [<-|[]]. contradiction.
Qed.


Lemma phase1_unique (normalized ty : jsstring) (st : state) :
  unique_keywords st -> unique_keywords (phase1 normalized ty st).
Proof.
  intros H. unfold phase1. apply fold_left_inv; [assumption|].
  intros a di _ Ha.
  destruct (phase1_entry_once normalized ty di a) as [->|[p [_ [Hn Hk]]]];
    [assumption|].
  unfold unique_keywords. rewrite Hk. now apply NoDup_snoc.
Qed.

Lemma phase2_unique (normalized ty : jsstring) (m : catObj Q) (st : state) :
  unique_keywords st -> unique_keywords (phase2 normalized ty m st).
Proof.
  intros H. unfold phase2. apply fold_left_inv; [assumption|].
  intros a [c es] _ Ha. unfold phase2_entries; simpl.
  apply fold_left_inv; [assumption|].
  intros b e _ Hb.
  destruct (phase2_entry_once normalized ty m c e b) as [->|[p [_ [Hn Hk]]]];
    [assumption|].
  unfold unique_keywords. rewrite Hk. now apply NoDup_snoc.
Qed.

Lemma cleanFound_keywords (fs : list Finding.t) :
  map NgWord.keyword (cleanFound fs) = map Finding.keyword fs.
Proof. unfold cleanFound. rewrite map_map. reflexivity. Qed.

(** C9. The findings of one call carry pairwise distinct phrases; an entry
    of either dictionary adds at most one finding, for the first of its
    phrases found in the normalized text, and only when that phrase has not
    been recorded before. *)
Theorem findings_unique_per_phrase (toLowerCase : jsstring -> jsstring)
    (Math_pow : Q -> Q -> Q) (text targetMbti : jsstring) :
  NoDup (map NgWord.keyword
           (ngWords (analyzeLocal toLowerCase Math_pow text targetMbti)))
  /\ (forall (di : DI.t) (st : state),
        let normalized := normalizeText toLowerCase text in
        let st' := phase1_patterns normalized targetMbti di (DI.patterns di) st in
        st' = st \/
        exists p, find (occurs normalized) (DI.patterns di) = Some p /\
                  ~ In p (map Finding.keyword (found st)) /\
                  map Finding.keyword (found st')
                  = map Finding.keyword (found st) ++ [p])
  /\ (forall (c : catId) (e : CP.t) (st : state),
        let normalized := normalizeText toLowerCase text in
        let st' := phase2_patterns normalized targetMbti
                     (multipliersOf targetMbti) c e (CP.patterns e) st in
        st' = st \/
        exists p, find (includes normalized) (CP.patterns e) = Some p /\
                  ~ In p (map Finding.keyword (found st)) /\
                  map Finding.keyword (found st')
                  = map Finding.keyword (found st) ++ [p]).
Proof.
  split; [|split].
  - unfold analyzeLocal; simpl. rewrite cleanFound_keywords.
    unfold detect. apply phase2_unique, phase1_unique. constructor.
  - intros di st. apply phase1_entry_once.
  - intros c e st. apply phase2_entry_once.
Qed.

(** ** What detection does not take from the personality code *)


Lemma found_some_keywords (a b : list Finding.t) (p : jsstring) :
  map Finding.keyword a = map Finding.keyword b ->
  found_some a p = found_some b p.
Proof.
  intros H. apply eq_true_iff_eq. rewrite !found_some_In. now rewrite H.
Qed.

Lemma obj_set_keys {A : Type} (o o' : catObj A) (k : catId) (v v' : A) :
  map fst o = map fst o' ->
  map fst (obj_set o k v) = map fst (obj_set o' k v').
Proof.
  revert o'; induction o as [|[k1 v1] o IH]; intros [|[k2 v2] o'] H;
    simpl in *; try discriminate; [reflexivity|].
  injection H as -> H.
  destruct (catId_eqb k2 k); simpl; [now rewrite H|].
  f_equal. now apply IH.
Qed.

Lemma same_detection_refl (a : state) : same_detection a a.
Proof. repeat split. Qed.

Lemma push_insult_same (t1 t2 : jsstring) (di : DI.t) (p : jsstring)
    (a b : state) :
  same_detection a b ->
  same_detection (push_insult t1 di p a) (push_insult t2 di p b).
Proof.
  intros (Hk & Hb & Hm & Hc & Hu). unfold same_detection, push_insult; simpl.
  rewrite !map_app, Hk, Hb, Hc, Hu. repeat split.
  now apply obj_set_keys.
Qed.

Lemma push_category_same (t1 t2 : jsstring) (m1 m2 : catObj Q) (c : catId)
    (e : CP.t) (p : jsstring) (a b : state) :
  same_detection a b ->
  same_detection (push_category t1 m1 c e p a) (push_category t2 m2 c e p b).
Proof.
  intros (Hk & Hb & Hm & Hc & Hu). unfold same_detection, push_category; simpl.
  rewrite !map_app, Hk, Hb, Hc, Hu. repeat split.
  now apply obj_set_keys.
Qed.

Lemma phase1_same (n t1 t2 : jsstring) (a b : state) :
  same_detection a b ->
  same_detection (phase1 n t1 a) (phase1 n t2 b).
Proof.
  intros H. unfold phase1. apply fold_left_rel; [assumption|].
  intros x y di _ Hxy. rewrite !phase1_patterns_find.
  destruct (find (occurs n) (DI.patterns di)) as [p|]; [|assumption].
  destruct (isQuotedInsult n (indexOf n p)); [assumption|].
  rewrite (found_some_keywords (found x) (found y) p) by apply Hxy.
  destruct (found_some (found y) p); [assumption|].
  now apply push_insult_same.
Qed.

Lemma phase2_same (n t1 t2 : jsstring) (m1 m2 : catObj Q) (a b : state) :
  same_detection a b ->
  same_detection (phase2 n t1 m1 a) (phase2 n t2 m2 b).
Proof.
  intros H. unfold phase2. apply fold_left_rel; [assumption|].
  intros x y [c es] _ Hxy. unfold phase2_entries; simpl.
  apply fold_left_rel; [assumption|].
  intros x' y' e _ Hxy'. rewrite !phase2_patterns_find.
  destruct (find (includes n) (CP.patterns e)) as [p|]; [|assumption].
  rewrite (found_some_keywords (found x') (found y') p) by apply Hxy'.
  destruct (found_some (found y') p); [assumption|].
  now apply push_category_same.
Qed.

Lemma detect_same (n t1 t2 : jsstring) (m1 m2 : catObj Q) :
  same_detection (detect n t1 m1) (detect n t2 m2).
Proof. unfold detect. apply phase2_same, phase1_same, same_detection_refl. Qed.

Lemma pressure_same (n : jsstring) (a b : state) :
  same_detection a b -> pressureCorrection n a = pressureCorrection n b.
Proof.
  intros (_ & _ & Hm & _). unfold pressureCorrection. now rewrite Hm.
Qed.

(** C5. For a fixed text the scores of any two personality codes differ
    by at most 20. *)
Theorem score_divergence_at_most_20 (toLowerCase : jsstring -> jsstring)
    (Math_pow : Q -> Q -> Q) (text t1 t2 : jsstring) :
  Z.abs (score (analyzeLocal toLowerCase Math_pow text t1)
         - score (analyzeLocal toLowerCase Math_pow text t2)) <= 20.
Proof.
  unfold analyzeLocal; simpl.
  set (n := normalizeText toLowerCase text).
  pose proof (detect_same n t1 t2 (multipliersOf t1) (multipliersOf t2)) as H.
  rewrite (pressure_same n _ _ H).
  destruct H as (_ & Hb & _ & Hc & Hu).
  unfold computeScore. rewrite Hb, Hc, Hu.
  set (b := scoreOf _). 
  eapply Z.le_trans; [apply applyCap_close|].
  pose proof (scoreOf_range
    (deduction Math_pow (total (categoryBaseDamage (detect n t2 (multipliersOf t2))))
       (fst (toneCorrection text n))
       (fst (pressureCorrection n (detect n t2 (multipliersOf t2)))))) as Hr.
  fold b in Hr.
  match goal with
  | |- Z.abs (clampToBase b ?x - clampToBase b ?y) <= 20 =>
    pose proof (clampToBase_near b x Hr); pose proof (clampToBase_near b y Hr)
  end.
  lia.
Qed.

(** ** The insult dictionary *)


Lemma nodupb_sound (l : list jsstring) : nodupb l = true -> NoDup l.
Proof.
  induction l as [|x l IH]; simpl; intros H; constructor.
  - apply andb_true_iff in H as [H _]. intros Hin.
    apply negb_true_iff in H.
    assert (existsb (str_eqb x) l = true) as E.
    { apply existsb_exists. exists x. split; [assumption | apply str_eqb_refl]. }
    congruence.
  - apply IH. now apply andb_true_iff in H as [_ H].
Qed.

Lemma NoDup_app_disjoint {A : Type} (l1 l2 : list A) (a : A) :
  NoDup (l1 ++ l2) -> In a l1 -> ~ In a l2.
Proof.
  induction l1 as [|x l1 IH]; simpl; intros H Hin; [contradiction|].
  inversion H as [|? ? Hx Hn]; subst. destruct Hin as [->|Hin].
  - intros Ha. apply Hx, in_app_iff. now right.
  - now apply IH.
Qed.

(** No phrase is listed twice in [DIRECT_INSULTS]. *)
Lemma insult_phrases_distinct :
  NoDup (concat (map DI.patterns DIRECT_INSULTS)).
Proof. apply nodupb_sound. vm_compute. reflexivity. Qed.

Lemma phase1_patterns_keywords (n ty : jsstring) (di : DI.t) (st : state)
    (k : jsstring) :
  In k (map Finding.keyword
          (found (phase1_patterns n ty di (DI.patterns di) st))) ->
  In k (map Finding.keyword (found st)) \/ In k (DI.patterns di).
Proof.
  destruct (phase1_entry_once n ty di st) as [->|[p [Hf [_ Hk]]]];
    [now left|].
  rewrite Hk, in_app_iff. intros [H|[<-|[]]]; [now left|right].
  now apply find_some in Hf.
Qed.

Lemma phase1_fold_keywords (n ty : jsstring) (l : list DI.t) (st : state)
    (k : jsstring) :
  In k (map Finding.keyword
          (found (fold_left
                    (fun st di => phase1_patterns n ty di (DI.patterns di) st)
                    l st))) ->
  In k (map Finding.keyword (found st)) \/ In k (concat (map DI.patterns l)).
Proof.
  revert st; induction l as [|di l IH]; intros st; simpl; [now left|].
  intros H. apply IH in H as [H|H].
  - apply phase1_patterns_keywords in H as [H|H]; [now left|].
    right. apply in_app_iff. now left.
  - right. apply in_app_iff. now right.
Qed.

Lemma phase1_patterns_ultra (n ty : jsstring) (di : DI.t) (st : state) :
  hasUltraSevere st = true ->
  hasUltraSevere (phase1_patterns n ty di (DI.patterns di) st) = true.
Proof.
  intros H. rewrite phase1_patterns_find.
  destruct (find (occurs n) (DI.patterns di)) as [p|]; [|assumption].
  destruct (isQuotedInsult n (indexOf n p)); [assumption|].
  destruct (found_some (found st) p); [assumption|].
  unfold push_insult; simpl. now destruct (DI.ultraSevere di).
Qed.

Lemma phase2_keeps_insults (n ty : jsstring) (m : catObj Q) (st : state) :
  directInsultCount (phase2 n ty m st) = directInsultCount st /\
  hasUltraSevere (phase2 n ty m st) = hasUltraSevere st.
Proof.
  unfold phase2.
  apply (fold_left_inv
    (fun a => directInsultCount a = directInsultCount st /\
              hasUltraSevere a = hasUltraSevere st)); [now split|].
  intros a [c es] _ Ha. unfold phase2_entries; simpl.
  apply (fold_left_inv
    (fun a => directInsultCount a = directInsultCount st /\
              hasUltraSevere a = hasUltraSevere st)); [assumption|].
  intros b e _ Hb. rewrite phase2_patterns_find.
  destruct (find (includes n) (CP.patterns e)) as [p|]; [|assumption].
  destruct (found_some (found b) p); assumption.
Qed.

(** An ultra-severe entry whose first occurring phrase is not in a
    quotation context raises the flag. *)
Lemma phase1_flags_ultra (n ty : jsstring) (di : DI.t) (p : jsstring) :
  In di DIRECT_INSULTS -> DI.ultraSevere di = true ->
  find (occurs n) (DI.patterns di) = Some p ->
  isQuotedInsult n (indexOf n p) = false ->
  hasUltraSevere (phase1 n ty init) = true.
Proof.
  intros Hin Hu Hf Hq. unfold phase1.
  pose proof insult_phrases_distinct as Hnd.
  destruct (in_split _ _ Hin) as [l1 [l2 E]]. rewrite E in *.
  rewrite fold_left_app. simpl.
  set (st1 := fold_left _ l1 init).
  apply (fold_left_inv (fun a => hasUltraSevere a = true)).
  - rewrite phase1_patterns_find, Hf, Hq.
    destruct (found_some (found st1) p) eqn:Efs.
    + exfalso. apply found_some_In in Efs.
      apply phase1_fold_keywords in Efs as [[]|Hl1].
      rewrite map_app, concat_app in Hnd. simpl in Hnd.
      apply find_some in Hf as [Hp _].
      apply (NoDup_app_disjoint _ _ p Hnd Hl1).
      apply in_app_iff. now left.
    + unfold push_insult; simpl. now rewrite Hu.
  - intros a d _ Ha. now apply phase1_patterns_ultra.
Qed.

Lemma detect_flags_ultra (n ty : jsstring) (m : catObj Q) (di : DI.t)
    (p : jsstring) :
  In di DIRECT_INSULTS -> DI.ultraSevere di = true ->
  find (occurs n) (DI.patterns di) = Some p ->
  isQuotedInsult n (indexOf n p) = false ->
  hasUltraSevere (detect n ty m) = true.
Proof.
  intros. unfold detect.
  rewrite (proj2 (phase2_keeps_insults n ty m _)).
  now apply (phase1_flags_ultra n ty di p).
Qed.

Lemma computeScore_ultra (Math_pow : Q -> Q -> Q) (st : state)
    (tone pressure : Z) :
  hasUltraSevere st = true -> computeScore Math_pow st tone pressure <= 5.
Proof. intros H. unfold computeScore, applyCap. rewrite H. lia. Qed.

(** C3, as the code has it. When the ultra-severe entry is reported, that
    is, when the first of its phrases that occurs in the normalized text is
    not followed by a quotation suffix from its first occurrence on, the
    score is at most 5 for every personality code. *)
Theorem ultra_severe_caps_at_5 (toLowerCase : jsstring -> jsstring)
    (Math_pow : Q -> Q -> Q) (text targetMbti : jsstring) (di : DI.t)
    (p : jsstring) :
  In di DIRECT_INSULTS -> DI.ultraSevere di = true ->
  find (occurs (normalizeText toLowerCase text)) (DI.patterns di) = Some p ->
  isQuotedInsult (normalizeText toLowerCase text)
    (indexOf (normalizeText toLowerCase text) p) = false ->
  score (analyzeLocal toLowerCase Math_pow text targetMbti) <= 5.
Proof.
  intros Hin Hu Hf Hq. unfold analyzeLocal; simpl.
  apply computeScore_ultra. now apply (detect_flags_ultra _ _ _ di p).
Qed.


Lemma ultra_severe_caps_at_5_witness :
  score (analyze (u "死ね") (u "INFP")) <= 5.
Proof.
  apply (ultra_severe_caps_at_5 toLowerCaseASCII Math_pow_model (u "死ね")
           (u "INFP") ultraEntry (u "死ね")).
  - vm_compute. tauto.
  - reflexivity.
  - vm_compute. reflexivity.
  - vm_compute. reflexivity.
Defined.

(** C3 as stated fails: the normalized text below contains the
    ultra-severe phrase, in a quotation context, and scores 100. *)
Lemma ultra_severe_quoted_scores_100 :
  includes (normalizeText toLowerCaseASCII (u "死ねって言われた")) (u "死ね") = true
  /\ score (analyze (u "死ねって言われた") (u "INFP")) = 100
  /\ ~ score (analyze (u "死ねって言われた") (u "INFP")) <= 5.
Proof.
  assert (score (analyze (u "死ねって言われた") (u "INFP")) = 100) as E
    by (vm_compute; reflexivity).
  split; [vm_compute; reflexivity|]. split; [exact E|]. rewrite E. lia.
Qed.

(** ** Quotation contexts *)

Lemma isQuotedInsult_iff (text : jsstring) (matchIndex : Z) :
  isQuotedInsult text matchIndex = true <->
  exists qp, In qp QUOTE_PATTERNS /\ includes (slice text matchIndex) qp = true.
Proof. unfold isQuotedInsult. apply existsb_exists. Qed.

Lemma quoted_entry_skipped (normalized ty : jsstring) (di : DI.t)
    (p qp : jsstring) (st : state) :
  find (occurs normalized) (DI.patterns di) = Some p ->
  In qp QUOTE_PATTERNS ->
  includes (slice normalized (indexOf normalized p)) qp = true ->
  phase1_patterns normalized ty di (DI.patterns di) st = st.
Proof.
  intros Hf Hq Hi. rewrite phase1_patterns_find, Hf.
  assert (isQuotedInsult normalized (indexOf normalized p) = true) as ->
    by (apply isQuotedInsult_iff; now exists qp).
  reflexivity.
Qed.

Lemma normalizeText_unfold (toLowerCase : jsstring -> jsstring) (text : jsstring) :
  normalizeText toLowerCase text
  = toLowerCase (hankakuToZenkaku (zenkakuToHankaku (removeSpaces text))).
Proof. reflexivity. Qed.

(** C7. Reporting an insult is not an insult: "バカって言われた" yields no
    finding, "バカ" alone yields one; and an entry whose first occurring
    phrase is followed, anywhere from its first occurrence on, by one of the
    quotation suffixes leaves the analysis untouched. The two texts have no
    cased character, so [toLowerCase] returns them unchanged. *)
Theorem quoted_insult_not_counted (toLowerCase : jsstring -> jsstring)
    (Math_pow : Q -> Q -> Q) (targetMbti : jsstring) :
  toLowerCase (u "バカって言われた") = u "バカって言われた" ->
  toLowerCase (u "バカ") = u "バカ" ->
  (ngWords (analyzeLocal toLowerCase Math_pow (u "バカって言われた") targetMbti) = []
   /\ directInsultCount
        (detect (normalizeText toLowerCase (u "バカって言われた")) targetMbti
           (multipliersOf targetMbti)) = 0)
  /\ (ngWords (analyzeLocal toLowerCase Math_pow (u "バカ") targetMbti)
      = [NgWord.mk (u "バカ") (u "直接的な侮辱は相手の尊厳を根本から傷つけます")
           [targetMbti]]
      /\ directInsultCount
           (detect (normalizeText toLowerCase (u "バカ")) targetMbti
              (multipliersOf targetMbti)) = 1)
  /\ (forall (normalized : jsstring) (di : DI.t) (p qp : jsstring) (st : state),
        find (occurs normalized) (DI.patterns di) = Some p ->
        In qp QUOTE_PATTERNS ->
        includes (slice normalized (indexOf normalized p)) qp = true ->
        phase1_patterns normalized targetMbti di (DI.patterns di) st = st).
Proof.
  intros H1 H2.
  assert (normalizeText toLowerCase (u "バカって言われた") = u "バカって言われた") as N1.
  { rewrite normalizeText_unfold.
    change (hankakuToZenkaku (zenkakuToHankaku (removeSpaces (u "バカって言われた"))))
      with (u "バカって言われた").
    exact H1. }
  assert (normalizeText toLowerCase (u "バカ") = u "バカ") as N2.
  { rewrite normalizeText_unfold.
    change (hankakuToZenkaku (zenkakuToHankaku (removeSpaces (u "バカ"))))
      with (u "バカ").
    exact H2. }
  split; [|split].
  - unfold analyzeLocal. cbn [ngWords]. rewrite N1.
    generalize (multipliersOf targetMbti) as m. intros m.
    split; vm_compute; reflexivity.
  - unfold analyzeLocal. cbn [ngWords]. rewrite N2.
    generalize (multipliersOf targetMbti) as m. intros m.
    split; vm_compute; reflexivity.
  - intros. now apply (quoted_entry_skipped normalized targetMbti di p qp).
Qed.

Lemma quoted_insult_not_counted_witness :
  ngWords (analyze (u "バカって言われた") (u "INFP")) = []
  /\ map NgWord.keyword (ngWords (analyze (u "バカ") (u "INFP"))) = [u "バカ"].
Proof.
  destruct (quoted_insult_not_counted toLowerCaseASCII Math_pow_model (u "INFP"))
    as [[A _] [[B _] _]].
  - vm_compute. reflexivity.
  - vm_compute. reflexivity.
  - split; [exact A|]. unfold analyze. rewrite B. reflexivity.
Defined.

(** ** The insult caps *)

Lemma detect_insults (n ty : jsstring) (m : catObj Q) :
  directInsultCount (detect n ty m) = directInsultCount (phase1 n [] init) /\
  hasUltraSevere (detect n ty m) = hasUltraSevere (phase1 n [] init).
Proof.
  unfold detect.
  destruct (phase2_keeps_insults n ty m (phase1 n ty init)) as [-> ->].
  destruct (phase1_same n ty [] init init (same_detection_refl init))
    as (_ & _ & _ & Hc & Hu).
  now split.
Qed.

Lemma computeScore_capped (Math_pow : Q -> Q -> Q) (st : state)
    (tone pressure k : Z) :
  1 <= k ->
  directInsultCount st >= k \/ hasUltraSevere st = true ->
  computeScore Math_pow st tone pressure <= Z.max 5 (insultCap k).
Proof.
  intros Hk H. unfold computeScore, applyCap, insultCap.
  destruct (hasUltraSevere st); [lia|].
  destruct H as [H|H]; [|discriminate].
  destruct (directInsultCount st >? 0) eqn:E; lia.
Qed.

Lemma score_capped_by_insults (toLowerCase : jsstring -> jsstring)
    (Math_pow : Q -> Q -> Q) (text ty : jsstring) (k : Z) :
  1 <= k ->
  insultsAtLeast k (normalizeText toLowerCase text) = true ->
  score (analyzeLocal toLowerCase Math_pow text ty) <= Z.max 5 (insultCap k).
Proof.
  intros Hk H. unfold analyzeLocal; simpl.
  apply computeScore_capped; [assumption|].
  destruct (detect_insults (normalizeText toLowerCase text) ty (multipliersOf ty))
    as [-> ->].
  unfold insultsAtLeast in H. apply orb_true_iff in H as [H|H]; [left|now right].
  apply Z.geb_le in H. lia.
Qed.

Lemma forallb_pairs (f : jsstring -> bool) (ps qs : list jsstring) :
  forallb (fun p => forallb (fun q => f (p ++ q)) qs) ps = true ->
  forall p q, In p ps -> In q qs -> f (p ++ q) = true.
Proof.
  intros H p q Hp Hq. rewrite forallb_forall in H.
  specialize (H p Hp). rewrite forallb_forall in H. now apply H.
Qed.

(** Every phrase of a non-ultra entry, alone, is reported. *)
Lemma single_insult_reported (di : DI.t) (p : jsstring) :
  In di DIRECT_INSULTS -> DI.ultraSevere di = false -> In p (DI.patterns di) ->
  insultsAtLeast 1 p = true.
Proof.
  intros Hd Hu Hp.
  assert (forallb (insultsAtLeast 1)
            (concat (map DI.patterns DIRECT_INSULTS)) = true) as H
    by (vm_compute; reflexivity).
  rewrite forallb_forall in H. apply H.
  apply in_concat. exists (DI.patterns di). split; [|assumption].
  now apply in_map.
Qed.

Lemma pairs_distinct_check {A : Type} (P : A -> A -> bool) (l : list A) :
  forallb
    (fun i =>
       forallb
         (fun j =>
            (i =? j)%nat ||
            match nth_error l i, nth_error l j with
            | Some a, Some b => P a b
            | _, _ => true
            end)
         (List.seq 0%nat (length l)))
    (List.seq 0%nat (length l)) = true ->
  forall a b, In a l -> In b l -> a <> b -> P a b = true.
Proof.
  intros H a b Ha Hb Hne.
  destruct (In_nth_error _ _ Ha) as [i Hi].
  destruct (In_nth_error _ _ Hb) as [j Hj].
  assert (i < length l)%nat as Li by (apply nth_error_Some; congruence).
  assert (j < length l)%nat as Lj by (apply nth_error_Some; congruence).
  rewrite forallb_forall in H.
  specialize (H i ltac:(apply in_seq; lia)).
  rewrite forallb_forall in H.
  specialize (H j ltac:(apply in_seq; lia)).
  rewrite Hi, Hj in H. apply orb_true_iff in H as [H|H]; [|assumption].
  apply Nat.eqb_eq in H. subst j. congruence.
Qed.

(** Two phrases of different non-ultra entries, one after the other, are
    both reported. *)
Lemma two_insults_reported (d1 d2 : DI.t) (p q : jsstring) :
  In d1 DIRECT_INSULTS -> In d2 DIRECT_INSULTS -> d1 <> d2 ->
  DI.ultraSevere d1 = false -> DI.ultraSevere d2 = false ->
  In p (DI.patterns d1) -> In q (DI.patterns d2) ->
  insultsAtLeast 2 (p ++ q) = true.
Proof.
  intros H1 H2 Hne U1 U2 Hp Hq.
  pose proof (pairs_distinct_check
    (fun a b =>
       DI.ultraSevere a || DI.ultraSevere b ||
       forallb (fun p => forallb (fun q => insultsAtLeast 2 (p ++ q))
                           (DI.patterns b))
               (DI.patterns a))
    DIRECT_INSULTS) as H.
  revert p q Hp Hq. apply forallb_pairs.
  specialize (H ltac:(vm_compute; reflexivity) d1 d2 H1 H2 Hne).
  cbv beta in H. rewrite U1, U2 in H. exact H.
Qed.

Lemma score_analyzeLocal (toLowerCase : jsstring -> jsstring)
    (Math_pow : Q -> Q -> Q) (text ty : jsstring) :
  score (analyzeLocal toLowerCase Math_pow text ty)
  = computeScore Math_pow
      (detect (normalizeText toLowerCase text) ty (multipliersOf ty))
      (fst (toneCorrection text (normalizeText toLowerCase text)))
      (fst (pressureCorrection (normalizeText toLowerCase text)
              (detect (normalizeText toLowerCase text) ty (multipliersOf ty)))).
Proof. reflexivity. Qed.

Lemma computeScore_cap_eq (Math_pow : Q -> Q -> Q) (st : state)
    (tone pressure : Z) :
  hasUltraSevere st = false -> directInsultCount st >= 1 ->
  computeScore Math_pow st tone pressure
  = Z.min
      (clampToBase
         (scoreOf (deduction Math_pow (total (categoryBaseDamage st)) tone pressure))
         (scoreOf (deduction Math_pow (total (categoryMbtiDamage st)) tone pressure)))
      (Z.max 0 (30 - (directInsultCount st - 1) * 20)).
Proof.
  intros Hu Hc. unfold computeScore, applyCap, insultCap. rewrite Hu.
  destruct (directInsultCount st >? 0) eqn:E; [reflexivity|lia].
Qed.

(** C4, as the code has it. With no ultra-severe insult and [n >= 1]
    reported insults the score is the uncapped score cut at
    [max(0, 30 - (n - 1) * 20)]: at most 30 for one insult, at most 10 for
    two, 0 for three or more. An insult is an entry of [DIRECT_INSULTS], not
    a phrase: a text whose normalized form is one phrase of a non-ultra
    entry scores at most 30, and one whose normalized form is two phrases of
    two different non-ultra entries scores at most 10. *)
Theorem insult_cap_law (toLowerCase : jsstring -> jsstring)
    (Math_pow : Q -> Q -> Q) (text targetMbti : jsstring) :
  let normalized := normalizeText toLowerCase text in
  let st := detect normalized targetMbti (multipliersOf targetMbti) in
  let tone := fst (toneCorrection text normalized) in
  let pressure := fst (pressureCorrection normalized st) in
  let uncapped :=
    clampToBase
      (scoreOf (deduction Math_pow (total (categoryBaseDamage st)) tone pressure))
      (scoreOf (deduction Math_pow (total (categoryMbtiDamage st)) tone pressure)) in
  let s := score (analyzeLocal toLowerCase Math_pow text targetMbti) in
  (hasUltraSevere st = false -> directInsultCount st >= 1 ->
   s = Z.min uncapped (Z.max 0 (30 - (directInsultCount st - 1) * 20)))
  /\ (hasUltraSevere st = false -> directInsultCount st = 1 -> s <= 30)
  /\ (hasUltraSevere st = false -> directInsultCount st = 2 -> s <= 10)
  /\ (hasUltraSevere st = false -> directInsultCount st >= 3 -> s = 0)
  /\ (forall di p,
        In di DIRECT_INSULTS -> DI.ultraSevere di = false ->
        In p (DI.patterns di) -> normalized = p -> s <= 30)
  /\ (forall d1 d2 p q,
        In d1 DIRECT_INSULTS -> In d2 DIRECT_INSULTS -> d1 <> d2 ->
        DI.ultraSevere d1 = false -> DI.ultraSevere d2 = false ->
        In p (DI.patterns d1) -> In q (DI.patterns d2) ->
        normalized = p ++ q -> s <= 10).
Proof.
  cbv zeta.
  pose proof (computeScore_range Math_pow
    (detect (normalizeText toLowerCase text) targetMbti (multipliersOf targetMbti))
    (fst (toneCorrection text (normalizeText toLowerCase text)))
    (fst (pressureCorrection (normalizeText toLowerCase text)
            (detect (normalizeText toLowerCase text) targetMbti
               (multipliersOf targetMbti))))) as Hr.
  pose proof (score_capped_by_insults toLowerCase Math_pow text targetMbti 1) as H1.
  pose proof (score_capped_by_insults toLowerCase Math_pow text targetMbti 2) as H2.
  rewrite score_analyzeLocal in *.
  set (normalized := normalizeText toLowerCase text) in *.
  set (st := detect normalized targetMbti (multipliersOf targetMbti)) in *.
  set (tone := fst (toneCorrection text normalized)) in *.
  set (pressure := fst (pressureCorrection normalized st)) in *.
  clearbody tone pressure.
  unfold insultCap in H1, H2.
  split; [|split; [|split; [|split; [|split]]]].
  - intros Hu Hc. now apply computeScore_cap_eq.
  - intros Hu Hc. rewrite computeScore_cap_eq by (assumption || lia). lia.
  - intros Hu Hc. rewrite computeScore_cap_eq by (assumption || lia). lia.
  - intros Hu Hc. rewrite computeScore_cap_eq in * by (assumption || lia).
    set (c := clampToBase _ _) in *. clearbody c. lia.
  - intros di p Hd Hu Hp Hn.
    assert (insultsAtLeast 1 normalized = true) as Hi
      by (rewrite Hn; now apply (single_insult_reported di p)).
    specialize (H1 ltac:(lia) Hi). lia.
  - intros d1 d2 p q Hd1 Hd2 Hne U1 U2 Hp Hq Hn.
    assert (insultsAtLeast 2 normalized = true) as Hi
      by (rewrite Hn; now apply (two_insults_reported d1 d2 p q)).
    specialize (H2 ltac:(lia) Hi). lia.
Qed.

Lemma insult_cap_law_witness :
  score (analyze (u "バカ") (u "INFP")) <= 30
  /\ score (analyze (u "バカアホ") (u "INFP")) <= 10.
Proof.
  split.
  - refine (proj1 (proj2 (insult_cap_law toLowerCaseASCII Math_pow_model
                            (u "バカ") (u "INFP"))) _ _);
      vm_compute; reflexivity.
  - refine (proj1 (proj2 (proj2 (insult_cap_law toLowerCaseASCII Math_pow_model
                                   (u "バカアホ") (u "INFP")))) _ _);
      vm_compute; reflexivity.
Defined.

(** ** Normalization *)

Lemma isZenkakuAlnum_ranges (c : Z) :
  isZenkakuAlnum c =
  ((0xFF21 <=? c) && (c <=? 0xFF3A)) || ((0xFF41 <=? c) && (c <=? 0xFF5A))
  || ((0xFF10 <=? c) && (c <=? 0xFF19)).
Proof. reflexivity. Qed.

Lemma isHankakuKana_range (c : Z) :
  isHankakuKana c = ((0xFF66 <=? c) && (c <=? 0xFF9F)).
Proof. reflexivity. Qed.

Lemma hankakuToZenkaku_flat (t : jsstring) :
  hankakuToZenkaku t = flat_map zenkakuOf t.
Proof. reflexivity. Qed.

(** Every half-width katakana has a full-width replacement, which no
    step rewrites again. *)
Lemma zenkakuOf_table :
  forallb (fun i => forallb settled (zenkakuOf (0xFF66 + Z.of_nat i)))
          (List.seq 0%nat 58) = true.
Proof. vm_compute. reflexivity. Qed.

Lemma zenkakuOf_settled (c : Z) :
  isWhiteSpace c || (c =? 0x3000) = false -> isZenkakuAlnum c = false ->
  forallb settled (zenkakuOf c) = true.
Proof.
  intros Hw Hz. destruct (isHankakuKana c) eqn:Hk.
  - rewrite isHankakuKana_range in Hk.
    apply andb_true_iff in Hk as [H1 H2].
    apply Z.leb_le in H1, H2.
    pose proof zenkakuOf_table as T. rewrite forallb_forall in T.
    specialize (T (Z.to_nat (c - 0xFF66))).
    replace (0xFF66 + Z.of_nat (Z.to_nat (c - 0xFF66))) with c in T by lia.
    apply T. apply in_seq. lia.
  - unfold zenkakuOf. rewrite Hk. simpl. unfold settled.
    rewrite Hw, Hz, Hk. reflexivity.
Qed.

Lemma hankaku_digit_settled (c : Z) :
  isZenkakuAlnum c = true ->
  isWhiteSpace (c - 0xFEE0) || (c - 0xFEE0 =? 0x3000) = false
  /\ isZenkakuAlnum (c - 0xFEE0) = false.
Proof.
  rewrite !isZenkakuAlnum_ranges. unfold isWhiteSpace. intros H. split; lia.
Qed.

(** After the first three steps every character is settled. *)
Lemma prefix_settled (t : jsstring) :
  forallb settled (hankakuToZenkaku (zenkakuToHankaku (removeSpaces t))) = true.
Proof.
  rewrite hankakuToZenkaku_flat. unfold zenkakuToHankaku, removeSpaces.
  induction t as [|c t IH]; [reflexivity|]. simpl.
  destruct (isWhiteSpace c || (c =? 0x3000)) eqn:Hw; simpl; [exact IH|].
  rewrite forallb_app, IH, andb_true_r.
  destruct (isZenkakuAlnum c) eqn:Hz.
  - destruct (hankaku_digit_settled c Hz) as [A B]. now apply zenkakuOf_settled.
  - now apply zenkakuOf_settled.
Qed.

(** The first three steps leave a settled string as it is. *)
Lemma prefix_fixes_settled (t : jsstring) :
  forallb settled t = true ->
  hankakuToZenkaku (zenkakuToHankaku (removeSpaces t)) = t.
Proof.
  rewrite hankakuToZenkaku_flat. unfold zenkakuToHankaku, removeSpaces.
  induction t as [|c t IH]; [reflexivity|]. simpl. intros H.
  apply andb_true_iff in H as [Hc Ht].
  unfold settled in Hc.
  apply andb_true_iff in Hc as [Hc Hk]. apply andb_true_iff in Hc as [Hw Hz].
  apply negb_true_iff in Hw, Hz, Hk.
  rewrite Hw. simpl. rewrite Hz. unfold zenkakuOf at 1. rewrite Hk. simpl.
  f_equal. now apply IH.
Qed.

(** C8. [normalizeText] is idempotent. The runtime's [toLowerCase] enters
    through two facts: it is idempotent, and applied to a string without
    white space, full-width letters or digits and half-width katakana it
    returns such a string. *)
Theorem normalizeText_idempotent (toLowerCase : jsstring -> jsstring) :
  (forall s, toLowerCase (toLowerCase s) = toLowerCase s) ->
  (forall s, forallb settled s = true -> forallb settled (toLowerCase s) = true) ->
  forall x : jsstring,
    normalizeText toLowerCase (normalizeText toLowerCase x)
    = normalizeText toLowerCase x.
Proof.
  intros Hidem Hclean x. rewrite !normalizeText_unfold.
  rewrite (prefix_fixes_settled (toLowerCase _)).
  - apply Hidem.
  - apply Hclean, prefix_settled.
Qed.

Lemma toLowerCaseASCII_idempotent (s : jsstring) :
  toLowerCaseASCII (toLowerCaseASCII s) = toLowerCaseASCII s.
Proof.
  unfold toLowerCaseASCII. rewrite map_map. apply map_ext. intros c.
  destruct ((0x41 <=? c) && (c <=? 0x5A)) eqn:E; [|now rewrite E].
  replace ((0x41 <=? c + 0x20) && (c + 0x20 <=? 0x5A)) with false by lia.
  reflexivity.
Qed.

Lemma toLowerCaseASCII_settled (s : jsstring) :
  forallb settled s = true -> forallb settled (toLowerCaseASCII s) = true.
Proof.
  unfold toLowerCaseASCII. induction s as [|c s IH]; [reflexivity|]. simpl.
  intros H. apply andb_true_iff in H as [Hc Hs]. rewrite (IH Hs), andb_true_r.
  destruct ((0x41 <=? c) && (c <=? 0x5A)) eqn:E; [|assumption].
  unfold settled. rewrite isZenkakuAlnum_ranges, isHankakuKana_range.
  unfold isWhiteSpace. lia.
Qed.

Lemma normalizeText_idempotent_witness :
  normalizeText toLowerCaseASCII
    (normalizeText toLowerCaseASCII (u "Ｈｅｌｌｏ　ﾊﾞｶ ＡＢＣ"))
  = normalizeText toLowerCaseASCII (u "Ｈｅｌｌｏ　ﾊﾞｶ ＡＢＣ").
Proof.
  apply (normalizeText_idempotent toLowerCaseASCII
           toLowerCaseASCII_idempotent toLowerCaseASCII_settled).
Defined.

(** ** Codes outside the table *)

Lemma str_get_None {A : Type} (o : list (jsstring * A)) (k : jsstring) :
  ~ In k (map fst o) -> str_get o k = None.
Proof.
  induction o as [|[k' v] o IH]; simpl; intros H; [reflexivity|].
  destruct (str_eqb k' k) eqn:E.
  - apply str_eqb_eq in E. exfalso. apply H. now left.
  - apply IH. intros Hin. apply H. now right.
Qed.

Lemma not_in_b (k : jsstring) (l : list jsstring) :
  existsb (str_eqb k) l = false -> ~ In k l.
Proof.
  intros H Hin.
  assert (existsb (str_eqb k) l = true) as E.
  { apply existsb_exists. exists k. split; [assumption | apply str_eqb_refl]. }
  congruence.
Qed.

Lemma multipliersOf_unknown (ty : jsstring) :
  ~ In ty validCodes -> multipliersOf ty = [].
Proof.
  intros H. unfold multipliersOf. now rewrite (str_get_None MBTI_MULTIPLIERS ty H).
Qed.

Lemma nmul_base_one (c : catId) :
  nmul (baseSeverityOf c) (get_or [] c 1.0%Q) = baseSeverityOf c.
Proof. destruct c; reflexivity. Qed.

Lemma detect_unweighted (n ty : jsstring) : unweighted (detect n ty []).
Proof.
  unfold detect, phase2, phase1.
  apply fold_left_inv.
  - apply (fold_left_inv unweighted).
    + split; [reflexivity | constructor].
    + intros a di _ [Ha Hf]. rewrite phase1_patterns_find.
      destruct (find (occurs n) (DI.patterns di)) as [p|]; [|now split].
      destruct (isQuotedInsult n (indexOf n p)); [now split|].
      destruct (found_some (found a) p); [now split|].
      unfold unweighted, push_insult; simpl. rewrite Ha. split; [reflexivity|].
      apply Forall_app. split; [assumption|]. constructor; [now left | constructor].
  - intros a [c es] _ Ha. unfold phase2_entries; simpl.
    apply fold_left_inv; [assumption|].
    intros b e _ [Hb Hf]. rewrite phase2_patterns_find.
    destruct (find (includes n) (CP.patterns e)) as [p|]; [|now split].
    destruct (found_some (found b) p); [now split|].
    unfold unweighted, push_category; cbv zeta; cbn [found categoryBaseDamage categoryMbtiDamage].
    rewrite nmul_base_one, Hb. split; [reflexivity|].
    apply Forall_app. split; [assumption|].
    constructor; [now right | constructor].
Qed.

Lemma detect_labelled (n ty : jsstring) (m : catObj Q) :
  labelled ty (detect n ty m).
Proof.
  unfold detect, phase2, phase1.
  apply fold_left_inv.
  - apply (fold_left_inv (labelled ty)).
    + constructor.
    + intros a di _ Ha. rewrite phase1_patterns_find.
      destruct (find (occurs n) (DI.patterns di)) as [p|]; [|assumption].
      destruct (isQuotedInsult n (indexOf n p)); [assumption|].
      destruct (found_some (found a) p); [assumption|].
      unfold labelled, push_insult; simpl.
      apply Forall_app. split; [assumption|]. now repeat constructor.
  - intros a [c es] _ Ha. unfold phase2_entries; simpl.
    apply fold_left_inv; [assumption|].
    intros b e _ Hb. rewrite phase2_patterns_find.
    destruct (find (includes n) (CP.patterns e)) as [p|]; [|assumption].
    destruct (found_some (found b) p); [assumption|].
    unfold labelled, push_category; simpl.
    apply Forall_app. split; [assumption|]. now repeat constructor.
Qed.

Lemma computeScore_unweighted (Math_pow : Q -> Q -> Q) (st : state)
    (tone pressure : Z) :
  categoryMbtiDamage st = categoryBaseDamage st ->
  computeScore Math_pow st tone pressure = baseScoreCapped Math_pow st tone pressure.
Proof.
  intros H. unfold computeScore, baseScoreCapped. rewrite H.
  f_equal. set (d := deduction _ _ _ _).
  pose proof (scoreOf_range d). unfold clampToBase. lia.
Qed.

(** C10. [analyzeLocal] validates nothing: for every text and every code
    it returns a result whose score lies in [0, 100] and whose findings are
    labelled with the code it was given. A code outside the table gets the
    empty multiplier table: every sensitivity multiplier is 1.0, the
    weighted damages are the base damages, and the score is the base score
    under the insult cap. *)
Theorem unknown_code_is_unweighted (toLowerCase : jsstring -> jsstring)
    (Math_pow : Q -> Q -> Q) (text targetMbti : jsstring) :
  let r := analyzeLocal toLowerCase Math_pow text targetMbti in
  let normalized := normalizeText toLowerCase text in
  let st := detect normalized targetMbti (multipliersOf targetMbti) in
  (0 <= score r <= 100
   /\ Forall (fun w => NgWord.mbtiTypes w = [targetMbti]) (ngWords r))
  /\ (~ In targetMbti validCodes ->
      r = analyzeWith toLowerCase Math_pow [] text targetMbti
      /\ (forall c, get_or (multipliersOf targetMbti) c 1.0%Q = 1.0%Q)
      /\ categoryMbtiDamage st = categoryBaseDamage st
      /\ Forall (fun f => Finding._category f = direct_insult
                          \/ Finding._damage f
                             = baseSeverityOf (Finding._category f))
                (found st)
      /\ score r = baseScoreCapped Math_pow st
                     (fst (toneCorrection text normalized))
                     (fst (pressureCorrection normalized st))).
Proof.
  cbv zeta. split.
  - split.
    + rewrite score_analyzeLocal. apply computeScore_range.
    + unfold analyzeLocal; cbn [ngWords]. unfold cleanFound.
      apply Forall_map. cbn [NgWord.mbtiTypes].
      apply (detect_labelled (normalizeText toLowerCase text) targetMbti
               (multipliersOf targetMbti)).
  - intros Hu. rewrite score_analyzeLocal.
    unfold analyzeLocal, analyzeWith. rewrite (multipliersOf_unknown _ Hu).
    destruct (detect_unweighted (normalizeText toLowerCase text) targetMbti)
      as [Hd Hf].
    repeat split; try assumption.
    now apply computeScore_unweighted.
Qed.

Lemma unknown_code_is_unweighted_witness :
  analyze (u "現実を見ろ、甘い") (u "ABCD")
  = analyzeWith toLowerCaseASCII Math_pow_model [] (u "現実を見ろ、甘い") (u "ABCD")
  /\ score (analyze (u "現実を見ろ、甘い") (u "ABCD")) = 60
  /\ score (analyze (u "現実を見ろ、甘い") (u "INFP")) = 50.
Proof.
  split.
  - refine (proj1 (proj2 (unknown_code_is_unweighted toLowerCaseASCII
                            Math_pow_model (u "現実を見ろ、甘い") (u "ABCD")) _)).
    apply not_in_b. vm_compute. reflexivity.
  - split; vm_compute; reflexivity.
Defined.

(** ** Monotonicity of the score *)

Lemma scoreOf_antitone (d d' : Q) : (d <= d')%Q -> scoreOf d' <= scoreOf d.
Proof.
  intros H. unfold scoreOf, Math_round, nsub.
  assert (Qfloor (Qred (100 - d') + (1 # 2)) <= Qfloor (Qred (100 - d) + (1 # 2))) as F.
  { apply Qfloor_resp_le. rewrite !Qred_correct.
    apply Qplus_le_compat; [|apply Qle_refl].
    apply Qplus_le_compat; [apply Qle_refl|]. now apply Qopp_le_compat. }
  lia.
Qed.

Lemma clampToBase_monotone (b b' r r' : Z) :
  b' <= b -> r' <= r -> clampToBase b' r' <= clampToBase b r.
Proof. unfold clampToBase. lia. Qed.

Lemma applyCap_capInForce (st : state) (s : Z) :
  s <= 100 ->
  applyCap (directInsultCount st) (hasUltraSevere st) s = Z.min s (capInForce st).
Proof.
  intros H. unfold applyCap, capInForce.
  destruct (hasUltraSevere st); [reflexivity|].
  destruct (directInsultCount st >? 0); [reflexivity|lia].
Qed.

Lemma in_b (k : jsstring) (l : list jsstring) :
  existsb (str_eqb k) l = true -> In k l.
Proof.
  intros H. apply existsb_exists in H as [x [Hx E]].
  apply str_eqb_eq in E. now subst.
Qed.

(** ** Validation *)

Lemma trimStart_nil (s : jsstring) :
  trimStart s = [] <-> forallb isWhiteSpace s = true.
Proof.
  induction s as [|c s IH]; simpl; [tauto|].
  destruct (isWhiteSpace c); simpl; [exact IH|]. split; discriminate.
Qed.

Lemma trimStart_head (s r : jsstring) (c : Z) :
  trimStart s = c :: r -> isWhiteSpace c = false.
Proof.
  induction s as [|d s IH]; simpl; [discriminate|].
  destruct (isWhiteSpace d) eqn:E; [exact IH|]. intros H. now injection H as <- _.
Qed.

Lemma forallb_rev {A : Type} (f : A -> bool) (l : list A) :
  forallb f (rev l) = forallb f l.
Proof.
  induction l as [|x l IH]; [reflexivity|]. simpl.
  rewrite forallb_app, IH. simpl. rewrite andb_true_r. apply andb_comm.
Qed.

(** [trim] leaves nothing exactly when every character is white space. *)
Lemma trim_nil (s : jsstring) :
  trim s = [] <-> forallb isWhiteSpace s = true.
Proof.
  unfold trim. split.
  - intros H. apply (f_equal (@rev Z)) in H. rewrite rev_involutive in H.
    simpl in H. apply trimStart_nil in H. rewrite forallb_rev in H.
    destruct (trimStart s) as [|c r] eqn:E; [now apply trimStart_nil|].
    apply trimStart_head in E. simpl in H. now rewrite E in H.
  - intros H. apply trimStart_nil in H. now rewrite H.
Qed.

Lemma textRejected_iff (s : jsstring) :
  textRejected (JString s) = true <-> forallb isWhiteSpace s = true.
Proof.
  unfold textRejected, jslength. rewrite <- trim_nil. split.
  - intros H. apply orb_true_iff in H as [H|H].
    + destruct s; [reflexivity | discriminate].
    + destruct (trim s); [reflexivity | discriminate].
  - intros ->. apply orb_true_r.
Qed.

(** The codes the regex accepts are, once in upper case, the sixteen keys
    of the multiplier table. *)
Lemma accepted_codes_valid :
  forallb (fun a => forallb (fun b => forallb (fun c => forallb (fun d =>
    existsb (str_eqb (toUpperCaseASCII [a; b; c; d])) validCodes)
    (u "JPjp")) (u "TFtf")) (u "SNsn")) (u "EIei") = true.
Proof. vm_compute. reflexivity. Qed.

Lemma mem_In (c : Z) (cs : jsstring) : mem c cs = true -> In c cs.
Proof.
  unfold mem. intros H. apply existsb_exists in H as [x [Hx E]].
  apply Z.eqb_eq in E. now subst.
Qed.

Lemma isMbtiCode_valid (m : jsstring) :
  isMbtiCode m = true -> In (toUpperCaseASCII m) validCodes.
Proof.
  destruct m as [|a [|b [|c [|d [|e m]]]]]; try discriminate.
  unfold isMbtiCode. intros H.
  apply andb_true_iff in H as [H Hd]. apply andb_true_iff in H as [H Hc].
  apply andb_true_iff in H as [Ha Hb].
  apply mem_In in Ha, Hb, Hc, Hd.
  pose proof accepted_codes_valid as T.
  rewrite forallb_forall in T. specialize (T a Ha).
  rewrite forallb_forall in T. specialize (T b Hb).
  rewrite forallb_forall in T. specialize (T c Hc).
  rewrite forallb_forall in T. specialize (T d Hd).
  now apply in_b.
Qed.

(** C2, as the code has it. The rejection of invalid input is the HTTP
    handler's, not [analyzeLocal]'s. For a POST request the handler answers
    400 when [text] is not a string or is empty or all white space, and when
    [targetMbti] is not a string or is not a four-letter code in either
    case; any other request reaches the analysis with the trimmed, non-empty
    text and the code in upper case, one of the sixteen keys of the table.
    [toUpperCase] is the runtime's; on the ASCII letters of an accepted code
    it is the ASCII mapping. *)
Theorem handler_rejects_invalid_input (toLowerCase toUpperCase : jsstring -> jsstring)
    (Math_pow : Q -> Q -> Q) (text targetMbti : jsvalue)
    (apiKey : option jsstring) :
  (forall m, isMbtiCode m = true -> toUpperCase m = toUpperCaseASCII m) ->
  let res := handler toLowerCase toUpperCase Math_pow (u "POST") text targetMbti
               apiKey in
  ((forall s, text = JString s -> forallb isWhiteSpace s = true) ->
   res = Status400 (u "text は必須です"))
  /\ ((exists s, text = JString s /\ forallb isWhiteSpace s = false) ->
      (forall m, targetMbti = JString m -> isMbtiCode m = false) ->
      res = Status400
              (u "targetMbti は有効なMBTIタイプ（例: INFP）を指定してください"))
  /\ (forall r, res = Status200 r ->
      exists t m,
        text = JString t /\ targetMbti = JString m
        /\ trim t <> [] /\ isMbtiCode m = true
        /\ In (toUpperCase m) validCodes
        /\ r = analyzeLocal toLowerCase Math_pow (trim t) (toUpperCase m)).
Proof.
  intros Hup. cbv zeta. unfold handler.
  change (str_eqb (u "POST") (u "OPTIONS")) with false.
  change (str_eqb (u "POST") (u "POST")) with true.
  cbv iota. cbn [negb].
  split; [|split].
  - intros H. assert (textRejected text = true) as ->; [|reflexivity].
    destruct text; try reflexivity. apply textRejected_iff. now apply H.
  - intros [s [-> Hs]] Hm.
    assert (textRejected (JString s) = false) as ->.
    { destruct (textRejected (JString s)) eqn:E; [|reflexivity].
      apply textRejected_iff in E. congruence. }
    assert (targetMbtiRejected targetMbti = true) as ->; [|reflexivity].
    destruct targetMbti; try reflexivity. unfold targetMbtiRejected.
    rewrite (Hm s0 eq_refl). apply orb_true_r.
  - intros r.
    destruct (textRejected text) eqn:Et; [discriminate|].
    destruct (targetMbtiRejected targetMbti) eqn:Em; [discriminate|].
    destruct text as [| | | |t|]; try discriminate Et.
    destruct targetMbti as [| | | |m|]; try discriminate Em.
    unfold targetMbtiRejected in Em. apply orb_false_iff in Em as [_ Em].
    apply negb_false_iff in Em.
    match goal with |- (if ?c then _ else _) = _ -> _ => destruct c end;
      [discriminate|].
    intros H. injection H as <-. exists t, m. cbn [asString].
    repeat split; try assumption.
    + intros E. apply trim_nil in E. apply textRejected_iff in E. congruence.
    + rewrite (Hup m Em). now apply isMbtiCode_valid.
Qed.

Lemma handler_rejects_invalid_input_witness :
  handler toLowerCaseASCII toUpperCaseASCII Math_pow_model (u "POST")
    (JString (u " 　")) (JString (u "INFP")) None
  = Status400 (u "text は必須です").
Proof.
  refine (proj1 (handler_rejects_invalid_input toLowerCaseASCII toUpperCaseASCII
                   Math_pow_model (JString (u " 　")) (JString (u "INFP")) None
                   (fun m _ => eq_refl)) _).
  intros s H. injection H as <-. vm_compute. reflexivity.
Defined.

(** C2 as stated fails: [analyzeLocal] takes the empty text and the code
    "ABCD", both of which the handler rejects, and returns the all-clear
    result. *)
Lemma analyzeLocal_accepts_invalid_input :
  textRejected (JString (u "")) = true
  /\ targetMbtiRejected (JString (u "ABCD")) = true
  /\ analyze (u "") (u "ABCD")
     = {| score := 100;
          scoreReason :=
            [u "ABCD" ++ u " の心理的安全性を脅かす表現は検出されませんでした。";
             u "相手の価値観を尊重した安全なメッセージです。"];
          ngWords := [];
          improved := u "" |}.
Proof. repeat split; vm_compute; reflexivity. Qed.

(** * Further properties of the analysis *)

(** ** Order and number of the findings *)

(** Phase 1 records insult findings only, one per entry at most, and
    counts them. *)
Lemma phase1_fold_shape (n ty : jsstring) (l : list DI.t) (st : state) :
  let st' := fold_left
               (fun st di => phase1_patterns n ty di (DI.patterns di) st) l st in
  exists ins,
    found st' = found st ++ ins
    /\ Forall (fun f => Finding._category f = direct_insult
                        /\ In (Finding.keyword f) (concat (map DI.patterns l)))
              ins
    /\ directInsultCount st' = directInsultCount st + Z.of_nat (length ins)
    /\ (length ins <= length l)%nat.
Proof.
  cbv zeta. revert st. induction l as [|di l IH]; intros st.
  - exists []. simpl. rewrite app_nil_r. repeat split; try constructor. lia.
  - cbn [fold_left]. 
    destruct (IH (phase1_patterns n ty di (DI.patterns di) st))
      as (ins & Hf & Hc & Hn & Hl).
    rewrite phase1_patterns_find in Hf, Hn |- *.
    assert (Forall (fun f => Finding._category f = direct_insult
                             /\ In (Finding.keyword f)
                                  (concat (map DI.patterns (di :: l)))) ins) as Hc'.
    { eapply Forall_impl; [|exact Hc]. intros f [A B]. split; [assumption|].
      cbn [map concat]. apply in_app_iff. now right. }
    destruct (find (occurs n) (DI.patterns di)) as [p|] eqn:Efind;
      [|exists ins; split; [exact Hf | split; [exact Hc' | split; [exact Hn | cbn [length]; lia]]]].
    destruct (isQuotedInsult n (indexOf n p));
      [exists ins; split; [exact Hf | split; [exact Hc' | split; [exact Hn | cbn [length]; lia]]]|].
    destruct (found_some (found st) p);
      [exists ins; split; [exact Hf | split; [exact Hc' | split; [exact Hn | cbn [length]; lia]]]|].
    exists (Finding.mk p (DI.reason di) [ty] direct_insult direct_insult_base :: ins).
    unfold push_insult in Hf, Hn |- *. cbn [found directInsultCount] in Hf, Hn.
    rewrite <- app_assoc in Hf. repeat split.
    + exact Hf.
    + constructor; [|assumption]. split; [reflexivity|].
      cbn [Finding.keyword map concat]. apply in_app_iff. left.
      now apply find_some in Efind.
    + rewrite Hn. cbn [length]. lia.
    + cbn [length]. lia.
Qed.

Lemma phase2_entries_shape (n ty : jsstring) (m : catObj Q) (c : catId)
    (es : list CP.t) (st : state) :
  let st' := phase2_entries n ty m c es st in
  exists cats,
    found st' = found st ++ cats
    /\ Forall (fun f => Finding._category f = c
                        /\ In (Finding.keyword f) (concat (map CP.patterns es)))
              cats
    /\ (length cats <= length es)%nat.
Proof.
  cbv zeta. unfold phase2_entries. revert st.
  induction es as [|e es IH]; intros st.
  - exists []. simpl. rewrite app_nil_r. repeat split; constructor.
  - cbn [fold_left].
    destruct (IH (phase2_patterns n ty m c e (CP.patterns e) st))
      as (cats & Hf & Hc & Hl).
    rewrite phase2_patterns_find in Hf |- *.
    assert (Forall (fun f => Finding._category f = c
                             /\ In (Finding.keyword f)
                                  (concat (map CP.patterns (e :: es)))) cats) as Hc'.
    { eapply Forall_impl; [|exact Hc]. intros f [A B]. split; [assumption|].
      cbn [map concat]. apply in_app_iff. now right. }
    destruct (find (includes n) (CP.patterns e)) as [p|] eqn:Efind;
      [|exists cats; split; [exact Hf | split; [exact Hc' | cbn [length]; lia]]].
    destruct (found_some (found st) p);
      [exists cats; split; [exact Hf | split; [exact Hc' | cbn [length]; lia]]|].
    eexists (_ :: cats).
    unfold push_category in Hf |- *. cbn [found] in Hf.
    rewrite <- app_assoc in Hf. repeat split.
    + exact Hf.
    + constructor; [|assumption]. split; [reflexivity|].
      cbn [Finding.keyword map concat]. apply in_app_iff. left.
      now apply find_some in Efind.
    + cbn [length]. lia.
Qed.

Lemma phase2_fold_shape (n ty : jsstring) (m : catObj Q)
    (l : list (catId * list CP.t)) (st : state) :
  let st' := fold_left (fun st ce => phase2_entries n ty m (fst ce) (snd ce) st)
               l st in
  exists cats,
    found st' = found st ++ cats
    /\ Forall (fun f => In (Finding._category f) (map fst l)
                        /\ In (Finding.keyword f)
                             (concat (map CP.patterns (concat (map snd l)))))
              cats
    /\ (length cats <= length (concat (map snd l)))%nat.
Proof.
  cbv zeta. revert st. induction l as [|[c es] l IH]; intros st.
  - exists []. simpl. rewrite app_nil_r. repeat split; constructor.
  - cbn [fold_left fst snd].
    destruct (IH (phase2_entries n ty m c es st)) as (cats & Hf & Hc & Hl).
    destruct (phase2_entries_shape n ty m c es st) as (cs & Hf1 & Hc1 & Hl1).
    exists (cs ++ cats). rewrite Hf, Hf1, <- app_assoc. repeat split.
    + apply Forall_app. split.
      * eapply Forall_impl; [|exact Hc1]. intros f [A B]. split.
        -- left. now symmetry.
        -- cbn [map concat fst snd]. rewrite map_app, concat_app.
           apply in_app_iff. now left.
      * eapply Forall_impl; [|exact Hc]. intros f [A B]. split.
        -- now right.
        -- cbn [map concat fst snd]. rewrite map_app, concat_app.
           apply in_app_iff. now right.
    + cbn [map concat snd]. rewrite !length_app. lia.
Qed.

(** The findings of a call: those of phase 1, then those of phase 2. *)
Lemma detect_shape (n ty : jsstring) (m : catObj Q) :
  exists ins cats,
    found (detect n ty m) = ins ++ cats
    /\ Forall (fun f => Finding._category f = direct_insult
                        /\ In (Finding.keyword f) insultPhrases) ins
    /\ Forall (fun f => Finding._category f <> direct_insult
                        /\ In (Finding.keyword f) categoryPhrases) cats
    /\ directInsultCount (detect n ty m) = Z.of_nat (length ins)
    /\ (length ins <= 8)%nat /\ (length cats <= 82)%nat.
Proof.
  unfold detect.
  destruct (phase1_fold_shape n ty DIRECT_INSULTS init)
    as (ins & Hf & Hc & Hn & Hl).
  destruct (phase2_fold_shape n ty m CATEGORY_PATTERNS (phase1 n ty init))
    as (cats & Hf2 & Hc2 & Hl2).
  exists ins, cats. cbv zeta in *. fold (phase1 n ty init) in Hf, Hn.
  fold (phase2 n ty m (phase1 n ty init)) in Hf2.
  rewrite Hf2, Hf. cbn [found init app]. repeat split.
  - exact Hc.
  - eapply Forall_impl; [|exact Hc2]. intros f [A B]. split; [|exact B].
    intros E. rewrite E in A. revert A. vm_compute. intuition discriminate.
  - rewrite (proj1 (phase2_keeps_insults n ty m _)), Hn. reflexivity.
  - exact Hl.
  - exact Hl2.
Qed.

(** No phrase is both an insult and a category phrase. *)
Lemma insult_and_category_phrases_disjoint (k : jsstring) :
  In k insultPhrases -> In k categoryPhrases -> False.
Proof.
  assert (forallb (fun k => negb (existsb (str_eqb k) categoryPhrases))
                  insultPhrases = true) as H by (vm_compute; reflexivity).
  rewrite forallb_forall in H. intros Hi Hc. specialize (H k Hi).
  apply negb_true_iff in H. now apply (not_in_b k categoryPhrases H).
Qed.

(** The findings list the insults first, at most one per entry of
    [DIRECT_INSULTS], and then the category findings, at most one per entry
    of [CATEGORY_PATTERNS]; the insult count is the number of the former. *)
Theorem findings_insults_first (toLowerCase : jsstring -> jsstring)
    (Math_pow : Q -> Q -> Q) (text targetMbti : jsstring) :
  exists ins cats : list NgWord.t,
    ngWords (analyzeLocal toLowerCase Math_pow text targetMbti) = ins ++ cats
    /\ Forall (fun w => In (NgWord.keyword w) insultPhrases) ins
    /\ Forall (fun w => In (NgWord.keyword w) categoryPhrases
                        /\ ~ In (NgWord.keyword w) insultPhrases) cats
    /\ directInsultCount
         (detect (normalizeText toLowerCase text) targetMbti
            (multipliersOf targetMbti)) = Z.of_nat (length ins)
    /\ (length ins <= 8)%nat /\ (length cats <= 82)%nat.
Proof.
  destruct (detect_shape (normalizeText toLowerCase text) targetMbti
              (multipliersOf targetMbti))
    as (ins & cats & Hf & Hi & Hc & Hn & Hl1 & Hl2).
  exists (cleanFound ins), (cleanFound cats).
  unfold analyzeLocal; cbn [ngWords]. rewrite Hf.
  unfold cleanFound. rewrite map_app, !length_map. repeat split; try assumption.
  - apply Forall_map. eapply Forall_impl; [|exact Hi]. now intros f [_ H].
  - apply Forall_map. eapply Forall_impl; [|exact Hc]. intros f [_ H].
    split; [exact H|]. intros Hin.
    exact (insult_and_category_phrases_disjoint _ Hin H).
Qed.

Lemma score_of_reported_insult (toLowerCase : jsstring -> jsstring)
    (Math_pow : Q -> Q -> Q) (text targetMbti k : jsstring) :
  In k (map NgWord.keyword
          (ngWords (analyzeLocal toLowerCase Math_pow text targetMbti))) ->
  In k insultPhrases ->
  score (analyzeLocal toLowerCase Math_pow text targetMbti) <= 30.
Proof.
  intros Hk Hi. rewrite score_analyzeLocal.
  unfold analyzeLocal in Hk; cbn [ngWords] in Hk.
  rewrite cleanFound_keywords in Hk.
  destruct (detect_shape (normalizeText toLowerCase text) targetMbti
              (multipliersOf targetMbti))
    as (ins & cats & Hf & Hins & Hc & Hn & _).
  rewrite Hf, map_app, in_app_iff in Hk.
  assert (ins <> []) as Hne.
  { destruct Hk as [Hk|Hk]; [intros ->; contradiction|].
    exfalso. apply in_map_iff in Hk as [f [<- Hin]].
    rewrite Forall_forall in Hc. destruct (Hc f Hin) as [_ Hcat].
    exact (insult_and_category_phrases_disjoint _ Hi Hcat). }
  pose proof (computeScore_capped Math_pow
    (detect (normalizeText toLowerCase text) targetMbti (multipliersOf targetMbti))
    (fst (toneCorrection text (normalizeText toLowerCase text)))
    (fst (pressureCorrection (normalizeText toLowerCase text)
            (detect (normalizeText toLowerCase text) targetMbti
               (multipliersOf targetMbti)))) 1 ltac:(lia)) as H.
  unfold insultCap in H.
  assert (directInsultCount
            (detect (normalizeText toLowerCase text) targetMbti
               (multipliersOf targetMbti)) >= 1) as Hge.
  { rewrite Hn. destruct ins; [contradiction|]. cbn [length]. lia. }
  specialize (H (or_introl Hge)). lia.
Qed.

(** A reported insult caps the score at 30, for every personality code. *)
Theorem reported_insult_caps_at_30 (toLowerCase : jsstring -> jsstring)
    (Math_pow : Q -> Q -> Q) (text targetMbti k : jsstring) :
  In k (map NgWord.keyword
          (ngWords (analyzeLocal toLowerCase Math_pow text targetMbti))) ->
  In k insultPhrases ->
  score (analyzeLocal toLowerCase Math_pow text targetMbti) <= 30.
Proof. apply score_of_reported_insult. Qed.

Lemma reported_insult_caps_at_30_witness :
  score (analyze (u "このバカ") (u "ESTJ")) <= 30.
Proof.
  apply (reported_insult_caps_at_30 toLowerCaseASCII Math_pow_model
           (u "このバカ") (u "ESTJ") (u "バカ")).
  - apply in_b. vm_compute. reflexivity.
  - apply in_b. vm_compute. reflexivity.
Defined.

(** ** What the personality code changes *)

Lemma found_some_core (a b : list Finding.t) (p : jsstring) :
  map findingCore a = map findingCore b -> found_some a p = found_some b p.
Proof.
  intros H. apply found_some_keywords.
  apply (f_equal (map (fun x : jsstring * jsstring * catId => fst (fst x)))) in H.
  now rewrite !map_map in H.
Qed.

Lemma detect_same_core (n t1 t2 : jsstring) (m1 m2 : catObj Q) :
  map findingCore (found (detect n t1 m1))
  = map findingCore (found (detect n t2 m2)).
Proof.
  unfold detect, phase2, phase1.
  apply (fold_left_rel
           (fun a b => map findingCore (found a) = map findingCore (found b))).
  - apply (fold_left_rel
             (fun a b => map findingCore (found a) = map findingCore (found b)));
      [reflexivity|].
    intros a b di _ H. rewrite !phase1_patterns_find.
    destruct (find (occurs n) (DI.patterns di)) as [p|]; [|assumption].
    destruct (isQuotedInsult n (indexOf n p)); [assumption|].
    rewrite (found_some_core _ _ p H).
    destruct (found_some (found b) p); [assumption|].
    unfold push_insult; cbn [found]. now rewrite !map_app, H.
  - intros a b [c es] _ H. unfold phase2_entries; cbn [fst snd].
    apply (fold_left_rel
             (fun a b => map findingCore (found a) = map findingCore (found b)));
      [assumption|].
    intros a' b' e _ H'. rewrite !phase2_patterns_find.
    destruct (find (includes n) (CP.patterns e)) as [p|]; [|assumption].
    rewrite (found_some_core _ _ p H').
    destruct (found_some (found b') p); [assumption|].
    unfold push_category; cbn [found]. now rewrite !map_app, H'.
Qed.

Lemma generatePsychologicalReplacement_mbti (k : jsstring) (c : catId)
    (t1 t2 : jsstring) :
  generatePsychologicalReplacement k c t1 = generatePsychologicalReplacement k c t2.
Proof. reflexivity. Qed.

Lemma rewrite_same_core (t1 t2 text : jsstring) (a b : list Finding.t) :
  map findingCore a = map findingCore b ->
  rewrite t1 text a = rewrite t2 text b.
Proof.
  intros H. unfold rewrite. f_equal. revert b text H.
  induction a as [|f a IH]; intros [|g b] text H; try discriminate;
    [reflexivity|].
  cbn [map] in H. injection H as Hk Hr Hc H. cbn [fold_left].
  assert (rewriteItem t1 text f = rewriteItem t2 text g) as ->.
  { unfold rewriteItem. rewrite Hk, Hc. reflexivity. }
  now apply IH.
Qed.

(** The personality code changes neither what is found nor the rewritten
    text: for two codes the phrases and reasons of the findings, in order,
    and the improved text are the same. *)
Theorem findings_do_not_depend_on_code (toLowerCase : jsstring -> jsstring)
    (Math_pow : Q -> Q -> Q) (text t1 t2 : jsstring) :
  let r1 := analyzeLocal toLowerCase Math_pow text t1 in
  let r2 := analyzeLocal toLowerCase Math_pow text t2 in
  map NgWord.keyword (ngWords r1) = map NgWord.keyword (ngWords r2)
  /\ map NgWord.reason (ngWords r1) = map NgWord.reason (ngWords r2)
  /\ improved r1 = improved r2.
Proof.
  cbv zeta. unfold analyzeLocal; cbn [ngWords improved].
  pose proof (detect_same_core (normalizeText toLowerCase text) t1 t2
                (multipliersOf t1) (multipliersOf t2)) as H.
  split; [|split].
  - unfold cleanFound. rewrite !map_map. cbn [NgWord.keyword].
    apply (f_equal (map (fun x : jsstring * jsstring * catId => fst (fst x)))) in H.
    now rewrite !map_map in H.
  - unfold cleanFound. rewrite !map_map. cbn [NgWord.reason].
    apply (f_equal (map (fun x : jsstring * jsstring * catId => snd (fst x)))) in H.
    now rewrite !map_map in H.
  - now apply rewrite_same_core.
Qed.

(** The personality weighting moves the score by at most 10 points from
    the score computed on the base damages. *)
Theorem score_within_10_of_base (toLowerCase : jsstring -> jsstring)
    (Math_pow : Q -> Q -> Q) (text targetMbti : jsstring) :
  let normalized := normalizeText toLowerCase text in
  let st := detect normalized targetMbti (multipliersOf targetMbti) in
  Z.abs (score (analyzeLocal toLowerCase Math_pow text targetMbti)
         - baseScoreCapped Math_pow st (fst (toneCorrection text normalized))
             (fst (pressureCorrection normalized st))) <= 10.
Proof.
  cbv zeta. rewrite score_analyzeLocal. unfold computeScore, baseScoreCapped.
  eapply Z.le_trans; [apply applyCap_close|].
  set (b := scoreOf _). set (r := scoreOf _).
  pose proof (scoreOf_range
    (deduction Math_pow
       (total (categoryBaseDamage
                 (detect (normalizeText toLowerCase text) targetMbti
                    (multipliersOf targetMbti))))
       (fst (toneCorrection text (normalizeText toLowerCase text)))
       (fst (pressureCorrection (normalizeText toLowerCase text)
               (detect (normalizeText toLowerCase text) targetMbti
                  (multipliersOf targetMbti)))))) as Hb.
  fold b in Hb. pose proof (clampToBase_near b r Hb). lia.
Qed.

(** ** Tone and pressure *)

Lemma bump_fst (c : correction) (k : Z) (rs : list jsstring) :
  fst (bump c k rs) = fst c + k.
Proof. reflexivity. Qed.

Lemma bump_reasons (c : correction) (k : Z) (rs : list jsstring) :
  length (snd (bump c k rs)) = (length (snd c) + length rs)%nat.
Proof. unfold bump; cbn [snd]. apply length_app. Qed.

Lemma bounded_bump (hi k : Z) (n : nat) (c : correction) (rs : list jsstring) :
  boundedCorrection hi n c -> 0 < k -> (length rs <= 1)%nat ->
  boundedCorrection (hi + k) (S n) (bump c k rs).
Proof.
  intros (H1 & H2 & H3) Hk Hr. unfold boundedCorrection.
  rewrite bump_fst, bump_reasons. split; [lia|]. split; [lia|]. intros E. lia.
Qed.

Lemma bounded_if (b : bool) (hi k : Z) (n : nat) (c : correction)
    (rs : list jsstring) :
  boundedCorrection hi n c -> 0 < k -> (length rs <= 1)%nat ->
  boundedCorrection (hi + k) (S n) (if b then bump c k rs else c).
Proof.
  intros H Hk Hr. destruct b; [now apply bounded_bump|].
  destruct H as (H1 & H2 & H3). unfold boundedCorrection.
  split; [lia|]. split; [lia|exact H3].
Qed.

(** The tone correction lies between 0 and 60 and comes with at most five
    reasons; a correction of 0 comes with none. *)
Theorem toneCorrection_bounds (text normalized : jsstring) :
  let c := toneCorrection text normalized in
  0 <= fst c <= 60
  /\ (length (snd c) <= 5)%nat
  /\ (fst c = 0 -> snd c = []).
Proof.
  cbv zeta. change (boundedCorrection 60 5 (toneCorrection text normalized)).
  unfold toneCorrection. cbv zeta.
  apply (bounded_if _ 55 5 4); [|lia|cbn [length]; lia].
  apply (bounded_if _ 45 10 3); [|lia|cbn [length]; lia].
  apply (bounded_if _ 30 15 2); [|lia|cbn [length]; lia].
  assert (boundedCorrection 15 1
            (if regex_test re_emphasis text
             then bump (0, []) 15
                    [u "感嘆符・疑問符の連続が強い攻撃性・圧迫感を示しています"]
             else if match_count re_exclam text >=? 3
                  then bump (0, []) 8 [u "感嘆符の多用が心理的圧迫感を生んでいます"]
                  else if match_count re_exclam text >=? 1
                       then bump (0, []) 1 []
                       else (0, []))) as H1.
  { destruct (regex_test re_emphasis text);
      [|destruct (match_count re_exclam text >=? 3);
        [|destruct (match_count re_exclam text >=? 1)]];
      unfold boundedCorrection, bump; cbn [fst snd app length];
      (split; [lia | split; [lia | intros E; try lia; reflexivity]]). }
  destruct (regex_test re_ques3 text);
    [apply (bounded_bump 15 15 1); [exact H1 | lia | cbn [length]; lia]|].
  destruct (regex_test re_ques2 text).
  - destruct (bounded_bump 15 8 1 _ _ H1 ltac:(lia)
                (Nat.le_refl (length [u "連続する疑問符が詰問・追及のプレッシャーを与えます"])))
      as (A & B & C).
    unfold boundedCorrection. split; [lia|]. split; [lia|exact C].
  - destruct H1 as (A & B & C). unfold boundedCorrection.
    split; [lia|]. split; [lia|exact C].
Qed.

(** The pressure correction lies between 0 and 8: the penalties for a long
    and for a short text exclude each other, and the empty text gets
    neither. *)
Theorem pressureCorrection_bounds (normalized : jsstring) (st : state) :
  let c := pressureCorrection normalized st in
  0 <= fst c <= 8
  /\ (length (snd c) <= 2)%nat
  /\ (normalized = [] -> (length (categoryMbtiDamage st) < 3)%nat -> fst c = 0).
Proof.
  cbv zeta. unfold pressureCorrection, jslength. rewrite length_map.
  destruct (Z.of_nat (length normalized) >? 200) eqn:E1;
    destruct ((Z.of_nat (length normalized) <? 5)
              && (Z.of_nat (length normalized) >? 0)) eqn:E2;
    destruct (Z.of_nat (length (categoryMbtiDamage st)) >=? 3) eqn:E3;
    rewrite ?bump_fst, ?bump_reasons; cbn [fst snd length];
    (split; [lia | split; [lia | intros H1 H2; try reflexivity;
                                  subst; cbn [length] in *;
                                  try (cbn in E1; discriminate E1);
                                  try (cbn in E2; discriminate E2); lia]]).
Qed.

(** ** Quotation contexts, again *)

Lemma includes_cons (s p : jsstring) (c : Z) :
  includes s p = true -> includes (c :: s) p = true.
Proof. intros H. cbn [includes]. rewrite H. apply orb_true_r. Qed.

Lemma includes_skipn (s p : jsstring) (i j : nat) :
  (j <= i)%nat -> includes (skipn i s) p = true -> includes (skipn j s) p = true.
Proof.
  revert i j. induction s as [|c s IH]; intros i j Hij H.
  - now rewrite skipn_nil in *.
  - destruct j as [|j].
    + cbn [skipn]. destruct i as [|i]; [exact H|].
      cbn [skipn] in H. apply includes_cons. now apply (IH i 0%nat); [lia|].
    + destruct i as [|i]; [lia|]. cbn [skipn] in *. apply (IH i j); [lia|exact H].
Qed.

(** A quotation suffix reaches back: what is quoted at an index is quoted
    at every earlier index of the text, and nothing is quoted from the end
    of the text on. *)
Theorem isQuotedInsult_earlier (text : jsstring) (i j : Z) :
  (0 <= j <= i -> isQuotedInsult text i = true -> isQuotedInsult text j = true)
  /\ (jslength text <= i -> isQuotedInsult text i = false).
Proof.
  split.
  - intros Hij H. apply isQuotedInsult_iff in H as [qp [Hq Hi]].
    apply isQuotedInsult_iff. exists qp. split; [assumption|].
    unfold slice in *.
    replace (i <? 0) with false in Hi by lia.
    replace (j <? 0) with false by lia.
    apply (includes_skipn text qp (Z.to_nat (Z.min i (jslength text)))); [lia|].
    exact Hi.
  - intros Hlen. unfold isQuotedInsult, slice.
    replace (i <? 0) with false by (unfold jslength in *; lia).
    rewrite Z.min_r by lia. unfold jslength. rewrite Nat2Z.id, skipn_all.
    vm_compute. reflexivity.
Qed.

Lemma isQuotedInsult_earlier_witness :
  isQuotedInsult (u "アホでバカって言われた") 0 = true.
Proof.
  refine (proj1 (isQuotedInsult_earlier (u "アホでバカって言われた") 3 0) _ _).
  - lia.
  - vm_compute. reflexivity.
Defined.

(** ** The all-clear result *)

Lemma detect_nothing_found (n ty : jsstring) (m : catObj Q) :
  found (detect n ty m) = [] ->
  categoryBaseDamage (detect n ty m) = [] /\ categoryMbtiDamage (detect n ty m) = [].
Proof.
  unfold detect, phase2, phase1.
  apply (fold_left_inv
    (fun a => found a = [] -> categoryBaseDamage a = [] /\ categoryMbtiDamage a = [])).
  - apply (fold_left_inv
      (fun a => found a = [] ->
                categoryBaseDamage a = [] /\ categoryMbtiDamage a = []));
      [now split|].
    intros a di _ Ha. rewrite phase1_patterns_find.
    destruct (find (occurs n) (DI.patterns di)) as [p|]; [|assumption].
    destruct (isQuotedInsult n (indexOf n p)); [assumption|].
    destruct (found_some (found a) p); [assumption|].
    unfold push_insult; cbn [found]. intros H.
    now destruct (found a); discriminate H.
  - intros a [c es] _ Ha. unfold phase2_entries; cbn [fst snd].
    apply fold_left_inv; [assumption|].
    intros b e _ Hb. rewrite phase2_patterns_find.
    destruct (find (includes n) (CP.patterns e)) as [p|]; [|assumption].
    destruct (found_some (found b) p); [assumption|].
    unfold push_category; cbn [found]. intros H.
    now destruct (found b); discriminate H.
Qed.

Lemma detect_unultra (n ty : jsstring) (m : catObj Q) :
  found (detect n ty m) = [] -> hasUltraSevere (detect n ty m) = false.
Proof.
  unfold detect. rewrite (proj2 (phase2_keeps_insults n ty m _)).
  intros H.
  destruct (phase2_fold_shape n ty m CATEGORY_PATTERNS (phase1 n ty init))
    as (cats & Hf & _). cbv zeta in Hf. fold (phase2 n ty m (phase1 n ty init)) in Hf.
  rewrite H in Hf. symmetry in Hf. apply app_eq_nil in Hf as [Hf _].
  revert Hf. unfold phase1.
  apply (fold_left_inv (fun a => found a = [] -> hasUltraSevere a = false));
    [reflexivity|].
  intros a di _ Ha. rewrite phase1_patterns_find.
  destruct (find (occurs n) (DI.patterns di)) as [p|]; [|assumption].
  destruct (isQuotedInsult n (indexOf n p)); [assumption|].
  destruct (found_some (found a) p); [assumption|].
  unfold push_insult; cbn [found]. intros E.
  now destruct (found a); discriminate E.
Qed.

Lemma scoreOf_comp (d d' : Q) : (d == d')%Q -> scoreOf d = scoreOf d'.
Proof.
  intros H. apply Z.le_antisymm; apply scoreOf_antitone; rewrite H; apply Qle_refl.
Qed.

(** When nothing is found and neither correction fires, the result is the
    all-clear: score 100 and the two reassuring sentences. [Math.pow] enters
    through [Math.pow(0, 1.3) = 0]. *)
Theorem nothing_found_scores_100 (toLowerCase : jsstring -> jsstring)
    (Math_pow : Q -> Q -> Q) (text targetMbti : jsstring) :
  let normalized := normalizeText toLowerCase text in
  let st := detect normalized targetMbti (multipliersOf targetMbti) in
  let r := analyzeLocal toLowerCase Math_pow text targetMbti in
  (Math_pow 0 1.3 == 0)%Q ->
  ngWords r = [] ->
  fst (toneCorrection text normalized) = 0 ->
  fst (pressureCorrection normalized st) = 0 ->
  score r = 100
  /\ scoreReason r
     = [targetMbti ++ u " の心理的安全性を脅かす表現は検出されませんでした。";
        u "相手の価値観を尊重した安全なメッセージです。"].
Proof.
  cbv zeta. intros Hpow Hng Ht Hp.
  assert (found (detect (normalizeText toLowerCase text) targetMbti
                   (multipliersOf targetMbti)) = []) as Hf.
  { unfold analyzeLocal in Hng; cbn [ngWords] in Hng. unfold cleanFound in Hng.
    now apply map_eq_nil in Hng. }
  destruct (detect_nothing_found _ _ _ Hf) as [Hb Hm].
  assert (forall u0 c, applyCap 0 u0 c = if u0 then Z.min c 5 else c) as Hcap
    by (intros [|] c; reflexivity).
  split.
  - rewrite score_analyzeLocal. unfold computeScore. rewrite Hb, Hm, Ht, Hp.
    assert (scoreOf (deduction Math_pow (total []) 0 0) = 100) as ->.
    { rewrite (scoreOf_comp _ 0); [reflexivity|].
      unfold deduction, total, nadd, nmul. cbn [map fold_left].
      rewrite !Qred_correct, Hpow. reflexivity. }
    destruct (detect_shape (normalizeText toLowerCase text) targetMbti
                (multipliersOf targetMbti)) as (ins & cats & E & _ & _ & Hn & _).
    rewrite Hf in E. symmetry in E. apply app_eq_nil in E as [-> ->].
    pose proof (detect_unultra (normalizeText toLowerCase text) targetMbti
                  (multipliersOf targetMbti) Hf) as Hu.
    rewrite Hn, Hu. reflexivity.
  - unfold analyzeLocal; cbn [scoreReason]. unfold buildScoreReason.
    rewrite Hf, Ht, Hp. reflexivity.
Qed.

Lemma nothing_found_scores_100_witness :
  score (analyze (u "今日はいい天気ですね") (u "INFP")) = 100.
Proof.
  refine (proj1 (nothing_found_scores_100 toLowerCaseASCII Math_pow_model
                   (u "今日はいい天気ですね") (u "INFP") _ _ _ _));
    vm_compute; reflexivity.
Defined.

(** ** The rewritten text *)

Lemma regex_replace_no_match (r : regex) (repl : list rpart) (s : jsstring) :
  regex_test r s = false -> regex_replace r repl s = s.
Proof.
  unfold regex_replace. induction s as [|c s IH]; cbn [regex_test replace_from].
  - unfold matchesAt. destruct (rmatch r []); [reflexivity|discriminate].
  - intros H. apply orb_false_iff in H as [H1 H2]. unfold matchesAt in H1.
    destruct (rmatch r (c :: s)); [|discriminate]. f_equal. now apply IH.
Qed.

Lemma includes_test (s p : jsstring) :
  regex_test (RLit p) s = includes s p.
Proof.
  induction s as [|c s IH]; cbn [regex_test includes]; unfold matchesAt;
    cbn [rmatch].
  - destruct (startsWith [] p); reflexivity.
  - rewrite IH. destruct (startsWith (c :: s) p); reflexivity.
Qed.

Lemma tryRules_no_match (rules : list rule) (s : jsstring) :
  (forall rl, In rl rules -> regex_test (rule_match rl) s = false) ->
  tryRules rules s = (s, false).
Proof.
  induction rules as [|rl rules IH]; intros H; [reflexivity|].
  cbn [tryRules]. rewrite regex_replace_no_match by (apply H; now left).
  rewrite str_eqb_refl. cbn [negb]. apply IH. intros x Hx. apply H. now right.
Qed.

Lemma tryGroups_no_match (groups : list ruleGroup) (s : jsstring) :
  (forall rl, In rl allRules -> regex_test (rule_match rl) s = false) ->
  tryGroups groups s = (s, false).
Proof.
  intros H. induction groups as [|g groups IH]; [reflexivity|].
  cbn [tryGroups]. rewrite tryRules_no_match; [exact IH|].
  intros rl Hrl. apply H. unfold allRules. rewrite !in_app_iff.
  destruct g; tauto.
Qed.

(** The rewriter works on the text as typed, the detection on the
    normalized text. When no transformation rule matches the text and none
    of the found phrases occurs in it literally, the improved text is the
    text itself. *)
Theorem rewrite_leaves_uncovered_text (targetMbti text : jsstring)
    (found : list Finding.t) :
  (forall rl, In rl allRules -> regex_test (rule_match rl) text = false) ->
  (forall f, In f found -> includes text (Finding.keyword f) = false) ->
  rewrite targetMbti text found = text.
Proof.
  intros Hr Hk. unfold rewrite.
  assert (fold_left (rewriteItem targetMbti) found text = text) as ->.
  { induction found as [|f fs IH]; [reflexivity|]. cbn [fold_left].
    assert (rewriteItem targetMbti text f = text) as ->.
    { unfold rewriteItem. rewrite (tryGroups_no_match _ _ Hr).
      rewrite (Hk f (or_introl eq_refl)). reflexivity. }
    apply IH. intros g Hg. apply Hk. now right. }
  assert (forall rules,
            (forall rl, In rl rules -> regex_test (rule_match rl) text = false) ->
            fold_left (fun improved rule =>
                         regex_replace (rule_match rule) (rule_replace rule) improved)
                      rules text = text) as Hfold.
  { induction rules as [|rl rules IH]; intros H; [reflexivity|].
    cbn [fold_left]. rewrite regex_replace_no_match by (apply H; now left).
    apply IH. intros x Hx. apply H. now right. }
  apply Hfold. intros rl Hrl. apply Hr. unfold allRules. rewrite !in_app_iff. tauto.
Qed.

Lemma rules_all_false (s : jsstring) :
  forallb (fun rl => negb (regex_test (rule_match rl) s)) allRules = true ->
  forall rl, In rl allRules -> regex_test (rule_match rl) s = false.
Proof.
  intros H rl Hrl. rewrite forallb_forall in H. specialize (H rl Hrl).
  now apply negb_true_iff in H.
Qed.

Lemma rewrite_leaves_uncovered_text_witness :
  improved (analyze (u "ば か") (u "INFP")) = u "ば か"
  /\ map NgWord.keyword (ngWords (analyze (u "ば か") (u "INFP"))) = [u "ばか"].
Proof.
  split; [|vm_compute; reflexivity].
  unfold analyze, analyzeLocal; cbn [improved].
  apply rewrite_leaves_uncovered_text.
  - apply rules_all_false. vm_compute. reflexivity.
  - intros f Hf.
    assert (forallb (fun f => negb (includes (u "ば か") (Finding.keyword f)))
              (found (detect (normalizeText toLowerCaseASCII (u "ば か")) (u "INFP")
                        (multipliersOf (u "INFP")))) = true) as H
      by (vm_compute; reflexivity).
    rewrite forallb_forall in H. specialize (H f Hf).
    apply negb_true_iff in H. exact H.
Defined.

(** ** Weighted damages *)

Lemma multipliers_listed :
  forallb (fun ty => forallb (multiplierListed ty) weightedCategories)
          validCodes = true.
Proof. vm_compute. reflexivity. Qed.

Lemma multiplier_in_range (ty : jsstring) (c : catId) :
  In ty validCodes -> c <> direct_insult ->
  exists m, obj_get (multipliersOf ty) c = Some m
            /\ get_or (multipliersOf ty) c 1.0%Q = m
            /\ (0.5 <= m <= 2.0)%Q.
Proof.
  intros Hty Hc. pose proof multipliers_listed as H.
  rewrite forallb_forall in H. specialize (H ty Hty).
  rewrite forallb_forall in H.
  assert (In c weightedCategories) as Hin
    by (destruct c; try (exfalso; now apply Hc); cbn; tauto).
  specialize (H c Hin). unfold multiplierListed in H.
  unfold get_or. destruct (obj_get (multipliersOf ty) c) as [m|]; [|discriminate].
  apply andb_true_iff in H as [H1 H2]. apply Qle_bool_iff in H1, H2.
  exists m. split; [reflexivity|]. split; [|now split].
  unfold num_or. destruct (Qeq_bool m 0) eqn:E; [|reflexivity].
  apply Qeq_bool_iff in E. rewrite E in H1. exfalso. revert H1.
  unfold Qle; cbn. lia.
Qed.

Lemma baseSeverityOf_nonneg (c : catId) : (0 <= baseSeverityOf c)%Q.
Proof. destruct c; unfold Qle; cbn; lia. Qed.

Lemma detect_damages (n ty : jsstring) (m : catObj Q) :
  Forall (weighedBy m) (found (detect n ty m)).
Proof.
  unfold detect, phase2, phase1.
  set (P := fun a : state => Forall (weighedBy m) (found a)).
  apply (fold_left_inv P).
  - apply (fold_left_inv P); [constructor|].
    intros a di _ Ha. rewrite phase1_patterns_find.
    destruct (find (occurs n) (DI.patterns di)) as [p|]; [|assumption].
    destruct (isQuotedInsult n (indexOf n p)); [assumption|].
    destruct (found_some (found a) p); [assumption|].
    unfold P, push_insult; cbn [found]. apply Forall_app. split; [exact Ha|].
    constructor; [|constructor]. left. split; reflexivity.
  - intros a ce Hce Ha. destruct ce as [c es]. unfold phase2_entries; cbn [fst snd].
    assert (c <> direct_insult) as Hc.
    { assert (forallb (fun ce => negb (catId_eqb (fst ce) direct_insult))
                CATEGORY_PATTERNS = true) as T by (vm_compute; reflexivity).
      rewrite forallb_forall in T. specialize (T _ Hce). cbn [fst] in T.
      intros ->. discriminate T. }
    apply (fold_left_inv P); [assumption|].
    intros b e _ Hb. rewrite phase2_patterns_find.
    destruct (find (includes n) (CP.patterns e)) as [p|]; [|assumption].
    destruct (found_some (found b) p); [assumption|].
    unfold P, push_category; cbv zeta; cbn [found].
    apply Forall_app. split; [exact Hb|].
    constructor; [|constructor]. right. split; [exact Hc | reflexivity].
Qed.

(** For each of the sixteen codes every multiplier is listed, so the
    default 1.0 is never used: an insult finding weighs 10 whatever the
    code, and a category finding weighs between half and twice the base
    severity of its category. *)
Theorem weighted_damage_bounds (n targetMbti : jsstring) (f : Finding.t) :
  In targetMbti validCodes ->
  In f (found (detect n targetMbti (multipliersOf targetMbti))) ->
  (Finding._category f = direct_insult /\ Finding._damage f = 10%Q)
  \/ (Finding._category f <> direct_insult
      /\ exists m, obj_get (multipliersOf targetMbti) (Finding._category f) = Some m
                   /\ (0.5 <= m <= 2.0)%Q
                   /\ (Finding._damage f == baseSeverityOf (Finding._category f) * m)%Q
                   /\ (baseSeverityOf (Finding._category f) * 0.5
                       <= Finding._damage f
                       <= baseSeverityOf (Finding._category f) * 2.0)%Q).
Proof.
  intros Hty Hf.
  pose proof (detect_damages n targetMbti (multipliersOf targetMbti)) as H.
  rewrite Forall_forall in H. destruct (H f Hf) as [Hi|[Hc Hd]]; [now left|].
  right. split; [exact Hc|].
  destruct (multiplier_in_range targetMbti (Finding._category f) Hty Hc)
    as (m & Hm & Hg & Hlo & Hhi).
  exists m. split; [exact Hm|]. split; [now split|].
  rewrite Hd, Hg. unfold nmul.
  pose proof (baseSeverityOf_nonneg (Finding._category f)) as Hb.
  split; [apply Qred_correct|]. rewrite Qred_correct. split.
  - rewrite !(Qmult_comm (baseSeverityOf _)). now apply Qmult_le_compat_r.
  - rewrite !(Qmult_comm (baseSeverityOf _)). now apply Qmult_le_compat_r.
Qed.

Lemma weighted_damage_bounds_witness :
  Forall (fun f => (Finding._damage f <= 20)%Q)
         (found (detect (u "現実を見てバカ") (u "INFP") (multipliersOf (u "INFP")))).
Proof.
  apply Forall_forall. intros f Hf.
  destruct (weighted_damage_bounds (u "現実を見てバカ") (u "INFP") f) as [[_ H]|[_ H]].
  - apply in_b. vm_compute. reflexivity.
  - exact Hf.
  - rewrite H. unfold Qle; cbn; lia.
  - destruct H as (m & _ & _ & _ & _ & H). eapply Qle_trans; [exact H|].
    assert (forallb (fun f => Qle_bool (baseSeverityOf (Finding._category f) * 2.0) 20)
              (found (detect (u "現実を見てバカ") (u "INFP") (multipliersOf (u "INFP"))))
            = true) as T by (vm_compute; reflexivity).
    rewrite forallb_forall in T. apply Qle_bool_iff. exact (T f Hf).
Defined.

(** ** Normalization, character by character *)

Lemma zenkakuOf_single_table :
  forallb (fun i => (length (zenkakuOf (0xFF66 + Z.of_nat i)) =? 1)%nat)
          (List.seq 0%nat 58) = true.
Proof. vm_compute. reflexivity. Qed.

Lemma zenkakuOf_single (c : Z) : length (zenkakuOf c) = 1%nat.
Proof.
  destruct (isHankakuKana c) eqn:Hk.
  - rewrite isHankakuKana_range in Hk.
    apply andb_true_iff in Hk as [H1 H2]. apply Z.leb_le in H1, H2.
    pose proof zenkakuOf_single_table as T. rewrite forallb_forall in T.
    specialize (T (Z.to_nat (c - 0xFF66))).
    replace (0xFF66 + Z.of_nat (Z.to_nat (c - 0xFF66))) with c in T by lia.
    apply Nat.eqb_eq, T. apply in_seq. lia.
  - unfold zenkakuOf. rewrite Hk. reflexivity.
Qed.

Lemma flat_map_single {A : Type} (f : A -> list A) (l : list A) :
  (forall x, length (f x) = 1%nat) -> length (flat_map f l) = length l.
Proof.
  intros H. induction l as [|x l IH]; [reflexivity|].
  cbn [flat_map]. rewrite length_app, H, IH. reflexivity.
Qed.

(** Before lower-casing, normalization is a map of characters: each
    character that is not white space yields exactly one character (a
    half-width katakana always has its full-width counterpart), none of
    which a further pass would rewrite; and a text made of such characters
    goes to [toLowerCase] unchanged. *)
Theorem normalizeText_by_character (toLowerCase : jsstring -> jsstring)
    (text : jsstring) :
  exists s,
    normalizeText toLowerCase text = toLowerCase s
    /\ length s = length (filter (fun c => negb (isWhiteSpace c)) text)
    /\ forallb settled s = true
    /\ (forallb settled text = true -> s = text).
Proof.
  exists (hankakuToZenkaku (zenkakuToHankaku (removeSpaces text))).
  split; [reflexivity|]. split; [|split].
  - rewrite hankakuToZenkaku_flat, (flat_map_single _ _ zenkakuOf_single).
    unfold zenkakuToHankaku, removeSpaces. rewrite length_map.
    f_equal. apply filter_ext. intros c.
    destruct (isWhiteSpace c) eqn:E; [reflexivity|].
    cbn [orb negb]. f_equal. unfold isWhiteSpace in E.
    destruct (c =? 12288) eqn:E2; [|reflexivity].
    apply Z.eqb_eq in E2. subst c. discriminate E.
  - apply prefix_settled.
  - apply prefix_fixes_settled.
Qed.

(** * The LINE bot *)

(** ** The state object *)

Lemma str_eqb_neq (a b : jsstring) : a <> b -> str_eqb a b = false.
Proof.
  intros H. destruct (str_eqb a b) eqn:E; [|reflexivity].
  apply str_eqb_eq in E. contradiction.
Qed.

Lemma str_get_set_same {A : Type} (o : list (jsstring * A)) (k : jsstring) (v : A) :
  str_get (str_set o k v) k = Some v.
Proof.
  induction o as [|[k' v'] o IH]; cbn [str_set str_get].
  - now rewrite str_eqb_refl.
  - destruct (str_eqb k' k) eqn:E; cbn [str_get].
    + now rewrite str_eqb_refl.
    + now rewrite E.
Qed.

Lemma str_get_set_other {A : Type} (o : list (jsstring * A)) (k k' : jsstring)
    (v : A) :
  k <> k' -> str_get (str_set o k v) k' = str_get o k'.
Proof.
  intros H. induction o as [|[k1 v1] o IH]; cbn [str_set str_get].
  - now rewrite (str_eqb_neq k k' H).
  - destruct (str_eqb k1 k) eqn:E; cbn [str_get].
    + apply str_eqb_eq in E. subst k1. now rewrite (str_eqb_neq k k' H).
    + destruct (str_eqb k1 k'); [reflexivity | exact IH].
Qed.

Lemma str_get_remove_same {A : Type} (o : list (jsstring * A)) (k : jsstring) :
  str_get (str_remove o k) k = None.
Proof.
  induction o as [|[k' v'] o IH]; cbn [str_remove str_get]; [reflexivity|].
  destruct (str_eqb k' k) eqn:E; [exact IH|]. cbn [str_get]. now rewrite E.
Qed.

Lemma str_get_remove_other {A : Type} (o : list (jsstring * A)) (k k' : jsstring) :
  k <> k' -> str_get (str_remove o k) k' = str_get o k'.
Proof.
  intros H. induction o as [|[k1 v1] o IH]; cbn [str_remove str_get];
    [reflexivity|].
  destruct (str_eqb k1 k) eqn:E.
  - apply str_eqb_eq in E. subst k1. now rewrite (str_eqb_neq k k' H).
  - cbn [str_get]. destruct (str_eqb k1 k'); [reflexivity | exact IH].
Qed.

Lemma str_get_delete_same {A : Type} (o : list (jsstring * A)) (k : jsstring) :
  k <> u "__proto__" -> str_get (str_delete o k) k = None.
Proof.
  intros H. unfold str_delete. rewrite (str_eqb_neq _ _ H).
  apply str_get_remove_same.
Qed.

Lemma str_get_delete_other {A : Type} (o : list (jsstring * A)) (k k' : jsstring) :
  k <> k' -> str_get (str_delete o k) k' = str_get o k'.
Proof.
  intros H. unfold str_delete.
  destruct (str_eqb k (u "__proto__")); [reflexivity|].
  now apply str_get_remove_other.
Qed.

Lemma str_get_delete_valid (userStates : userStatesT) (k k' : jsstring)
    (m : jsstring) :
  str_get (str_delete userStates k) k' = Some (waiting_text m) ->
  exists k2, str_get userStates k2 = Some (waiting_text m).
Proof.
  unfold str_delete. destruct (str_eqb k (u "__proto__")).
  - intros H. now exists k'.
  - destruct (str_eqb k k') eqn:E.
    + apply str_eqb_eq in E. subst k'. rewrite str_get_remove_same. discriminate.
    + intros H. exists k'. rewrite <- H. symmetry. apply str_get_remove_other.
      intros E'. rewrite E', str_eqb_refl in E. discriminate.
Qed.

(** ** One event *)

Lemma upper_codes_valid :
  forallb (fun a => forallb (fun b => forallb (fun c => forallb (fun d =>
    existsb (str_eqb [a; b; c; d]) validCodes)
    (u "JP")) (u "TF")) (u "SN")) (u "EI") = true.
Proof. vm_compute. reflexivity. Qed.

Lemma isUpperMbtiCode_valid (m : jsstring) :
  isUpperMbtiCode m = true -> In m validCodes.
Proof.
  destruct m as [|a [|b [|c [|d [|e m]]]]]; try discriminate.
  unfold isUpperMbtiCode. intros H.
  apply andb_true_iff in H as [H Hd]. apply andb_true_iff in H as [H Hc].
  apply andb_true_iff in H as [Ha Hb].
  apply mem_In in Ha, Hb, Hc, Hd.
  pose proof upper_codes_valid as T.
  rewrite forallb_forall in T. specialize (T a Ha).
  rewrite forallb_forall in T. specialize (T b Hb).
  rewrite forallb_forall in T. specialize (T c Hc).
  rewrite forallb_forall in T. specialize (T d Hd).
  now apply in_b.
Qed.

Section BotFacts.

Variable toLowerCase : jsstring -> jsstring.
Variable toUpperCase : jsstring -> jsstring.
Variable Math_pow : Q -> Q -> Q.

(** What a text message of a user does, by the user's state. *)
Lemma onEvent_text (userStates : userStatesT) (ev : event) (userId : jsstring) :
  textEventOf userId ev ->
  onEvent toLowerCase toUpperCase Math_pow userStates ev =
  let userText := trim (ev_text ev) in
  let token := ev_replyToken ev in
  if startsFlow userText then
    (str_set userStates userId waiting_mbti,
     [{| replyToken := token;
         reply_text := u "相手のMBTIを選んでください";
         quickReply := map (fun t => (t, t)) mbtiTypes |}])
  else
    match str_get userStates userId with
    | Some waiting_mbti =>
      let mbti := toUpperCase userText in
      if negb (isUpperMbtiCode mbti) then
        (userStates,
         [{| replyToken := token;
             reply_text :=
               u "有効なMBTIタイプを入力してください（例: INFP, ESTJ）";
             quickReply := [] |}])
      else
        (str_set userStates userId (waiting_text mbti),
         [{| replyToken := token;
             reply_text :=
               mbti ++ u " ですね！" ++ [10]
               ++ u "チェックしたい文章を送ってください。";
             quickReply := [] |}])
    | Some (waiting_text mbti) =>
      (str_delete userStates userId,
       [{| replyToken := token;
           reply_text :=
             formatResult (analyzeLocal toLowerCase Math_pow userText mbti);
           quickReply := [(u "もう一度診断する", u "診断を始める")] |}])
    | None =>
      (userStates,
       [{| replyToken := token;
           reply_text := u "🔍 MBTI地雷診断を始めますか？";
           quickReply := [(u "診断を始める", u "診断を始める")] |}])
    end.
Proof.
  intros (Ht & Hm & Hu & Hne). unfold onEvent, startsFlow.
  rewrite Ht, Hm, Hu, !str_eqb_refl. cbn [negb orb].
  destruct userId as [|c userId]; [contradiction|]. reflexivity.
Qed.

Lemma onEvent_other (userStates : userStatesT) (ev : event) :
  ev_type ev <> u "message" \/ ev_messageType ev <> Some (u "text")
  \/ ev_userId ev = None \/ ev_userId ev = Some [] ->
  onEvent toLowerCase toUpperCase Math_pow userStates ev = (userStates, []).
Proof.
  intros H. unfold onEvent.
  destruct (str_eqb (ev_type ev) (u "message")) eqn:Et; [|reflexivity].
  apply str_eqb_eq in Et. cbn [negb orb].
  destruct (ev_messageType ev) as [t|] eqn:Em; [|reflexivity].
  destruct (str_eqb t (u "text")) eqn:Ett; [|reflexivity].
  apply str_eqb_eq in Ett. subst t. cbn [negb].
  destruct H as [H|[H|[H|H]]]; try contradiction; rewrite H; reflexivity.
Qed.

(** An event is a text message of some user, or changes nothing. *)
Lemma event_cases (ev : event) :
  (exists userId, textEventOf userId ev)
  \/ (ev_type ev <> u "message" \/ ev_messageType ev <> Some (u "text")
      \/ ev_userId ev = None \/ ev_userId ev = Some []).
Proof.
  destruct (str_eqb (ev_type ev) (u "message")) eqn:Et.
  2:{ right. left. intros E. rewrite E, str_eqb_refl in Et. discriminate. }
  apply str_eqb_eq in Et.
  destruct (ev_messageType ev) as [t|] eqn:Em.
  2:{ right. right. left. discriminate. }
  destruct (str_eqb t (u "text")) eqn:Ett.
  2:{ right. right. left. intros E. injection E as E.
      rewrite E, str_eqb_refl in Ett. discriminate. }
  apply str_eqb_eq in Ett. subst t.
  destruct (ev_userId ev) as [[|c uid]|] eqn:Eu.
  - right. now right; right; right.
  - left. exists (c :: uid). repeat split; try assumption. discriminate.
  - right. now right; right; left.
Qed.

Lemma onEvents_states (userStates : userStatesT) (events : list event) :
  fst (onEvents toLowerCase toUpperCase Math_pow userStates events)
  = fold_left (fun s ev => fst (onEvent toLowerCase toUpperCase Math_pow s ev))
      events userStates.
Proof.
  unfold onEvents.
  assert (forall acc,
            fst (fold_left
                   (fun acc ev =>
                      let '(states, replies) := acc in
                      let '(states', sent) :=
                        onEvent toLowerCase toUpperCase Math_pow states ev in
                      (states', replies ++ sent))
                   events acc)
            = fold_left
                (fun s ev => fst (onEvent toLowerCase toUpperCase Math_pow s ev))
                events (fst acc)) as H.
  { induction events as [|ev events IH]; intros [s r]; [reflexivity|].
    cbn [fold_left]. rewrite IH. cbn [fst].
    destruct (onEvent toLowerCase toUpperCase Math_pow s ev) as [s' sent].
    reflexivity. }
  apply (H (userStates, [])).
Qed.

Lemma set_keeps_valid (userStates : userStatesT) (userId : jsstring)
    (v : userState) :
  codesValid userStates ->
  (forall mbti, v = waiting_text mbti -> In mbti validCodes) ->
  codesValid (str_set userStates userId v).
Proof.
  intros Hv Hnew k m. destruct (str_eqb userId k) eqn:Ek.
  - apply str_eqb_eq in Ek. subst k. rewrite str_get_set_same.
    intros E. injection E as E. now apply Hnew.
  - rewrite str_get_set_other; [apply Hv|].
    intros E. rewrite E, str_eqb_refl in Ek. discriminate.
Qed.

Lemma delete_keeps_valid (userStates : userStatesT) (userId : jsstring) :
  codesValid userStates -> codesValid (str_delete userStates userId).
Proof.
  intros Hv k m H. apply str_get_delete_valid in H as [k2 H].
  exact (Hv k2 m H).
Qed.

Lemma onEvent_codesValid (userStates : userStatesT) (ev : event) :
  codesValid userStates ->
  codesValid (fst (onEvent toLowerCase toUpperCase Math_pow userStates ev)).
Proof.
  intros Hv. destruct (event_cases ev) as [[userId Hev]|Hno];
    [|now rewrite onEvent_other].
  rewrite (onEvent_text userStates ev userId Hev). cbv zeta.
  destruct (startsFlow (trim (ev_text ev))).
  - cbn [fst]. apply set_keeps_valid; [assumption | discriminate].
  - destruct (str_get userStates userId) as [[|mbti]|] eqn:Es.
    + destruct (isUpperMbtiCode (toUpperCase (trim (ev_text ev)))) eqn:Ec;
        cbn [negb fst]; [|assumption].
      apply set_keeps_valid; [assumption|].
      intros m E. injection E as <-. now apply isUpperMbtiCode_valid.
    + cbn [fst]. now apply delete_keeps_valid.
    + assumption.
Qed.

Lemma onEvents_codesValid (events : list event) :
  codesValid (fst (onEvents toLowerCase toUpperCase Math_pow [] events)).
Proof.
  rewrite onEvents_states. apply fold_left_inv.
  - intros k m H. discriminate H.
  - intros s ev _ Hs. now apply onEvent_codesValid.
Qed.

(** Whatever events came before, the bot analyses a text with one of the
    sixteen codes only: a user's stored code is always valid, and the text
    a user sends while the bot waits for it is analysed with that code, the
    result sent back, and the user's state removed. The user id
    [__proto__] is set aside: its state is the prototype of [userStates],
    which [delete] leaves in place. *)
Theorem bot_analyses_with_valid_codes (events : list event) (ev : event)
    (userId mbti : jsstring) :
  let userStates := fst (onEvents toLowerCase toUpperCase Math_pow [] events) in
  textEventOf userId ev ->
  userId <> u "__proto__" ->
  startsFlow (trim (ev_text ev)) = false ->
  str_get userStates userId = Some (waiting_text mbti) ->
  In mbti validCodes
  /\ onEvent toLowerCase toUpperCase Math_pow userStates ev
     = (str_delete userStates userId,
        [{| replyToken := ev_replyToken ev;
            reply_text :=
              formatResult
                (analyzeLocal toLowerCase Math_pow (trim (ev_text ev)) mbti);
            quickReply := [(u "もう一度診断する", u "診断を始める")] |}])
  /\ str_get (fst (onEvent toLowerCase toUpperCase Math_pow userStates ev)) userId
     = None.
Proof.
  cbv zeta. intros Hev Hp Hs Hst. split; [|split].
  - exact (onEvents_codesValid events userId mbti Hst).
  - rewrite (onEvent_text _ ev userId Hev). cbv zeta. rewrite Hs, Hst. reflexivity.
  - rewrite (onEvent_text _ ev userId Hev). cbv zeta. rewrite Hs, Hst.
    cbn [fst]. now apply str_get_delete_same.
Qed.

(** The transitions of the flow. A start word puts the user in
    [waiting_mbti] from any state; while the bot waits for a code an
    accepted code is stored and a refused one changes nothing; an event
    never touches the state of another user; an event that is no text
    message, or has no user id, changes nothing and sends nothing; and no
    event is answered twice. *)
Theorem bot_transitions (userStates : userStatesT) (ev : event)
    (userId : jsstring) :
  (textEventOf userId ev -> startsFlow (trim (ev_text ev)) = true ->
   str_get (fst (onEvent toLowerCase toUpperCase Math_pow userStates ev)) userId
   = Some waiting_mbti)
  /\ (textEventOf userId ev -> startsFlow (trim (ev_text ev)) = false ->
      str_get userStates userId = Some waiting_mbti ->
      str_get (fst (onEvent toLowerCase toUpperCase Math_pow userStates ev)) userId
      = if isUpperMbtiCode (toUpperCase (trim (ev_text ev)))
        then Some (waiting_text (toUpperCase (trim (ev_text ev))))
        else Some waiting_mbti)
  /\ (forall other, ev_userId ev = Some userId -> other <> userId ->
      str_get (fst (onEvent toLowerCase toUpperCase Math_pow userStates ev)) other
      = str_get userStates other)
  /\ (ev_type ev <> u "message" \/ ev_messageType ev <> Some (u "text")
      \/ ev_userId ev = None \/ ev_userId ev = Some [] ->
      onEvent toLowerCase toUpperCase Math_pow userStates ev = (userStates, []))
  /\ (length (snd (onEvent toLowerCase toUpperCase Math_pow userStates ev)) <= 1)%nat.
Proof.
  split; [|split; [|split; [|split]]].
  - intros Hev Hs. rewrite (onEvent_text _ ev userId Hev). cbv zeta. rewrite Hs.
    cbn [fst]. apply str_get_set_same.
  - intros Hev Hs Hst. rewrite (onEvent_text _ ev userId Hev). cbv zeta.
    rewrite Hs, Hst.
    destruct (isUpperMbtiCode (toUpperCase (trim (ev_text ev)))); cbn [negb fst].
    + apply str_get_set_same.
    + exact Hst.
  - intros other Hu Hne.
    destruct (event_cases ev) as [[uid Hev]|Hno];
      [|now rewrite onEvent_other].
    assert (uid = userId) as ->.
    { destruct Hev as (_ & _ & Hu' & _). rewrite Hu in Hu'. now injection Hu'. }
    rewrite (onEvent_text userStates ev userId Hev). cbv zeta.
    assert (userId <> other) as Hne' by (intros E; apply Hne; now symmetry).
    destruct (startsFlow (trim (ev_text ev))); cbn [fst];
      [now apply str_get_set_other|].
    destruct (str_get userStates userId) as [[|mbti]|]; cbn [fst];
      [|now apply str_get_delete_other|reflexivity].
    destruct (isUpperMbtiCode (toUpperCase (trim (ev_text ev)))); cbn [negb fst];
      [now apply str_get_set_other|reflexivity].
  - apply onEvent_other.
  - destruct (event_cases ev) as [[uid Hev]|Hno];
      [|rewrite onEvent_other by assumption; cbn [snd length]; lia].
    rewrite (onEvent_text userStates ev uid Hev). cbv zeta.
    destruct (startsFlow (trim (ev_text ev))); [cbn [snd length]; lia|].
    destruct (str_get userStates uid) as [[|mbti]|];
      [destruct (isUpperMbtiCode (toUpperCase (trim (ev_text ev))))| |];
      cbn [negb snd length]; lia.
Qed.

End BotFacts.

Lemma bot_analyses_with_valid_codes_witness :
  str_get
    (fst (onEvent toLowerCaseASCII toUpperCaseASCII Math_pow_model
            (fst (onEvents toLowerCaseASCII toUpperCaseASCII Math_pow_model []
                    [textEvent "U1" "診断"; textEvent "U1" " infp "]))
            (textEvent "U1" "お前はバカだ")))
    (u "U1") = None.
Proof.
  refine (proj2 (proj2 (bot_analyses_with_valid_codes toLowerCaseASCII
                          toUpperCaseASCII Math_pow_model
                          [textEvent "U1" "診断"; textEvent "U1" " infp "]
                          (textEvent "U1" "お前はバカだ") (u "U1") (u "INFP")
                          _ _ _ _))).
  - repeat split. discriminate.
  - discriminate.
  - vm_compute. reflexivity.
  - vm_compute. reflexivity.
Defined.


Lemma bot_transitions_witness :
  str_get
    (fst (onEvent toLowerCaseASCII toUpperCaseASCII Math_pow_model
            [(u "U1", waiting_text (u "ENTJ"))] (textEvent "U1" "診断を始める")))
    (u "U1") = Some waiting_mbti.
Proof.
  refine (proj1 (bot_transitions toLowerCaseASCII toUpperCaseASCII Math_pow_model
                   [(u "U1", waiting_text (u "ENTJ"))]
                   (textEvent "U1" "診断を始める") (u "U1")) _ _).
  - repeat split. discriminate.
  - vm_compute. reflexivity.
Defined.

(** ** The lightweight endpoint *)





(** ** The reply's risk label *)

(** The risk shown to the user is [100 - score], between 0 and 100. A
    reported insult is always shown as the highest level, "地雷" (and with
    the alarm emoji of the earlier reply format), whatever the personality
    code. *)
Theorem reported_insult_is_landmine (toLowerCase : jsstring -> jsstring)
    (Math_pow : Q -> Q -> Q) (text targetMbti k : jsstring) :
  let r := analyzeLocal toLowerCase Math_pow text targetMbti in
  0 <= 100 - score r <= 100
  /\ (In k (map NgWord.keyword (ngWords r)) -> In k insultPhrases ->
      riskLabel (100 - score r) = (u "🔴", u "地雷")
      /\ scoreEmoji (score r) = u "🚨").
Proof.
  cbv zeta. split.
  - pose proof (computeScore_range Math_pow
      (detect (normalizeText toLowerCase text) targetMbti (multipliersOf targetMbti))
      (fst (toneCorrection text (normalizeText toLowerCase text)))
      (fst (pressureCorrection (normalizeText toLowerCase text)
              (detect (normalizeText toLowerCase text) targetMbti
                 (multipliersOf targetMbti))))) as H.
    rewrite score_analyzeLocal. lia.
  - intros Hk Hi.
    pose proof (score_of_reported_insult toLowerCase Math_pow text targetMbti k
                  Hk Hi) as H.
    unfold riskLabel, scoreEmoji.
    replace (100 - score (analyzeLocal toLowerCase Math_pow text targetMbti) >=? 60)
      with true by lia.
    replace (score (analyzeLocal toLowerCase Math_pow text targetMbti) >=? 80)
      with false by lia.
    replace (score (analyzeLocal toLowerCase Math_pow text targetMbti) >=? 60)
      with false by lia.
    replace (score (analyzeLocal toLowerCase Math_pow text targetMbti) >=? 40)
      with false by lia.
    split; reflexivity.
Qed.

Lemma reported_insult_is_landmine_witness :
  riskLabel (100 - score (analyze (u "うざい") (u "ENFP"))) = (u "🔴", u "地雷").
Proof.
  refine (proj1 (proj2 (reported_insult_is_landmine toLowerCaseASCII Math_pow_model
                          (u "うざい") (u "ENFP") (u "うざい")) _ _));
    apply in_b; vm_compute; reflexivity.
Defined.

(** ** White space in the text *)

Lemma removeSpaces_insert (a b : jsstring) (c : Z) :
  isWhiteSpace c = true -> removeSpaces (a ++ c :: b) = removeSpaces (a ++ b).
Proof.
  intros H. unfold removeSpaces. rewrite !filter_app. cbn [filter].
  now rewrite H.
Qed.

(** The findings are read off the normalized text alone: two texts with
    the same normalized form have the same findings, so white space put
    anywhere in a text, inside a phrase too, hides nothing. *)
Theorem whitespace_hides_nothing (toLowerCase : jsstring -> jsstring)
    (Math_pow : Q -> Q -> Q) (targetMbti : jsstring) :
  (forall t1 t2,
     normalizeText toLowerCase t1 = normalizeText toLowerCase t2 ->
     ngWords (analyzeLocal toLowerCase Math_pow t1 targetMbti)
     = ngWords (analyzeLocal toLowerCase Math_pow t2 targetMbti))
  /\ (forall a b c,
        isWhiteSpace c = true ->
        ngWords (analyzeLocal toLowerCase Math_pow (a ++ c :: b) targetMbti)
        = ngWords (analyzeLocal toLowerCase Math_pow (a ++ b) targetMbti)).
Proof.
  assert (forall t1 t2,
     normalizeText toLowerCase t1 = normalizeText toLowerCase t2 ->
     ngWords (analyzeLocal toLowerCase Math_pow t1 targetMbti)
     = ngWords (analyzeLocal toLowerCase Math_pow t2 targetMbti)) as H.
  { intros t1 t2 E. unfold analyzeLocal; cbn [ngWords]. now rewrite E. }
  split; [exact H|].
  intros a b c Hc. apply H. rewrite !normalizeText_unfold.
  now rewrite removeSpaces_insert.
Qed.

Lemma whitespace_hides_nothing_witness :
  ngWords (analyze (u "バ　カ") (u "INFP")) = ngWords (analyze (u "バカ") (u "INFP")).
Proof.
  refine (proj2 (whitespace_hides_nothing toLowerCaseASCII Math_pow_model (u "INFP"))
            (u "バ") (u "カ") 0x3000 _).
  vm_compute. reflexivity.
Defined.

Lemma toneCorrection_bounds_witness :
  snd (toneCorrection (u "こんにちは") (u "こんにちは")) = [].
Proof.
  refine (proj2 (proj2 (toneCorrection_bounds (u "こんにちは") (u "こんにちは"))) _).
  vm_compute. reflexivity.
Defined.

Lemma pressureCorrection_bounds_witness :
  fst (pressureCorrection [] init) = 0.
Proof.
  refine (proj2 (proj2 (pressureCorrection_bounds [] init)) _ _).
  - reflexivity.
  - cbn. lia.
Defined.

Lemma normalizeText_by_character_witness :
  normalizeText toLowerCaseASCII (u "Abcカ") = toLowerCaseASCII (u "Abcカ").
Proof.
  destruct (normalizeText_by_character toLowerCaseASCII (u "Abcカ"))
    as (s & E & _ & _ & Hs).
  rewrite E. f_equal. apply Hs. vm_compute. reflexivity.
Defined.

(** * Loading [.env] *)

Lemma indexOf_from_absent (s p : jsstring) (i : Z) :
  includes s p = false -> indexOf_from i s p = -1.
Proof.
  revert i. induction s as [|c s IH]; intros i; cbn [includes indexOf_from].
  - intros H. apply orb_false_iff in H as [-> _]. reflexivity.
  - intros H. apply orb_false_iff in H as [-> H]. now apply IH.
Qed.

Lemma indexOf_absent (s p : jsstring) :
  includes s p = false -> indexOf s p = -1.
Proof. apply indexOf_from_absent. Qed.

Lemma loadEnvLine_keeps (env : environment) (line name value : jsstring) :
  str_get env name = Some value -> value <> [] ->
  str_get (loadEnvLine env line) name = Some value.
Proof.
  intros H Hv. unfold loadEnvLine.
  destruct ((jslength (trim line) =? 0) || startsWith (trim line) (u "#"));
    [exact H|].
  destruct (indexOf (trim line) (u "=") =? -1); [exact H|].
  set (key := trim (slice2 (trim line) 0 (indexOf (trim line) (u "=")))).
  destruct (str_eqb key name) eqn:E.
  - apply str_eqb_eq in E. rewrite E, H.
    destruct value; [contradiction|]. exact H.
  - destruct (match str_get env key with
              | Some v => jslength v =? 0
              | None => true
              end); [|exact H].
    rewrite str_get_set_other; [exact H|].
    intros K. rewrite K, str_eqb_refl in E. discriminate.
Qed.

(** A variable that is set, to a non-empty value, before [.env] is read
    keeps its value whatever the file says; and a line that is blank,
    starts with [#] or has no [=] changes nothing. *)
Theorem env_file_never_overrides (envContent : jsstring) (env : environment)
    (name value : jsstring) :
  (str_get env name = Some value -> value <> [] ->
   str_get (loadEnv envContent env) name = Some value)
  /\ (forall line,
        trim line = [] \/ startsWith (trim line) (u "#") = true
        \/ includes (trim line) (u "=") = false ->
        loadEnvLine env line = env).
Proof.
  split.
  - intros H Hv. unfold loadEnv.
    apply (fold_left_inv (fun e => str_get e name = Some value)); [exact H|].
    intros e line _ He. now apply loadEnvLine_keeps.
  - intros line H. unfold loadEnvLine.
    destruct H as [H|[H|H]].
    + rewrite H. reflexivity.
    + rewrite H. now rewrite orb_true_r.
    + destruct ((jslength (trim line) =? 0) || startsWith (trim line) (u "#"));
        [reflexivity|].
      rewrite (indexOf_absent _ _ H). reflexivity.
Qed.

Lemma env_file_never_overrides_witness :
  str_get (loadEnv (u "# keys" ++ [10] ++ u "PORT = 8080" ++ [10] ++ u "MODE=dev")
             [(u "PORT", u "3000")])
          (u "PORT") = Some (u "3000").
Proof.
  refine (proj1 (env_file_never_overrides _ [(u "PORT", u "3000")] (u "PORT")
                   (u "3000")) _ _).
  - vm_compute. reflexivity.
  - discriminate.
Defined.

(** C4 as stated fails. Two insult phrases of one entry are one insult:
    the loop over the phrases of an entry stops at the first phrase it
    finds, so the text below, made of two phrases and nothing else, is
    capped at 30 and not at 10. *)
Lemma two_phrases_of_one_entry_score_30 :
  exists di,
    In di DIRECT_INSULTS /\ DI.ultraSevere di = false
    /\ In (u "クズ") (DI.patterns di) /\ In (u "カス") (DI.patterns di)
    /\ u "クズ" <> u "カス"
    /\ normalizeText toLowerCaseASCII (u "クズカス") = u "クズ" ++ u "カス"
    /\ score (analyze (u "クズカス") (u "INFP")) = 30
    /\ ~ score (analyze (u "クズカス") (u "INFP")) <= 10.
Proof.
  assert (score (analyze (u "クズカス") (u "INFP")) = 30) as A
    by (vm_compute; reflexivity).
  exists (nth 4 DIRECT_INSULTS ultraEntry).
  split; [apply nth_In; apply Nat.ltb_lt; vm_compute; reflexivity|].
  split; [vm_compute; reflexivity|].
  split; [apply in_b; vm_compute; reflexivity|].
  split; [apply in_b; vm_compute; reflexivity|].
  split; [intros E; apply (f_equal (str_eqb (u "クズ"))) in E;
          vm_compute in E; discriminate E|].
  split; [vm_compute; reflexivity|].
  split; [exact A|]. rewrite A. lia.
Qed.

(** * Texts that grow by an insult phrase *)

(** ** Strings *)

Lemma startsWith_nil (s : jsstring) : startsWith s [] = true.
Proof. destruct s; reflexivity. Qed.

Lemma startsWith_app (s x q : jsstring) :
  startsWith s q = true -> startsWith (s ++ x) q = true.
Proof.
  revert s. induction q as [|c q IH]; intros s H; [apply startsWith_nil|].
  destruct s as [|d s]; [discriminate H|]. cbn [startsWith app] in *.
  apply andb_true_iff in H as [H1 H2]. rewrite H1. cbn [andb]. now apply IH.
Qed.

Lemma startsWith_length (s q : jsstring) :
  startsWith s q = true -> (length q <= length s)%nat.
Proof.
  revert s. induction q as [|c q IH]; intros s H; [cbn [length]; lia|].
  destruct s as [|d s]; [discriminate H|]. cbn [startsWith] in H.
  apply andb_true_iff in H as [_ H]. apply IH in H. cbn [length]. lia.
Qed.

Lemma startsWith_app_inv (s x q : jsstring) :
  (length q <= length s)%nat -> startsWith (s ++ x) q = true ->
  startsWith s q = true.
Proof.
  revert s. induction q as [|c q IH]; intros s Hl H; [apply startsWith_nil|].
  destruct s as [|d s]; [cbn [length] in Hl; lia|].
  cbn [startsWith app length] in *.
  apply andb_true_iff in H as [H1 H2]. rewrite H1. cbn [andb].
  apply IH; [lia|exact H2].
Qed.

Lemma startsWith_firstn (v l : jsstring) :
  startsWith v l = true -> firstn (length l) v = l.
Proof.
  revert v. induction l as [|c l IH]; intros v H; [reflexivity|].
  destruct v as [|d v]; [discriminate H|]. cbn [startsWith] in H.
  apply andb_true_iff in H as [H1 H2]. apply Z.eqb_eq in H1. subst d.
  cbn [length firstn]. f_equal. now apply IH.
Qed.

(** Two phrases that start the same text: the shorter starts the longer. *)
Lemma startsWith_comparable (v a l : jsstring) :
  startsWith v a = true -> startsWith v l = true ->
  (length l <= length a)%nat -> startsWith a l = true.
Proof.
  revert v a. induction l as [|c l IH]; intros v a Ha Hl Hlen;
    [apply startsWith_nil|].
  destruct a as [|d a]; [cbn [length] in Hlen; lia|].
  destruct v as [|e v]; [discriminate Ha|]. cbn [startsWith length] in *.
  apply andb_true_iff in Ha as [A1 A2]. apply andb_true_iff in Hl as [L1 L2].
  apply Z.eqb_eq in A1, L1. subst. rewrite Z.eqb_refl. cbn [andb].
  apply (IH v); [exact A2 | exact L2 | lia].
Qed.

Lemma includes_iff (s q : jsstring) :
  includes s q = true <->
  exists k, (k <= length s)%nat /\ startsWith (skipn k s) q = true.
Proof.
  induction s as [|c s IH]; cbn [includes].
  - rewrite orb_false_r. split.
    + intros H. exists 0%nat. split; [cbn [length]; lia|exact H].
    + intros [k [_ H]]. now rewrite skipn_nil in H.
  - rewrite orb_true_iff, IH. split.
    + intros [H|[k [Hk H]]].
      * exists 0%nat. split; [lia|exact H].
      * exists (S k). split; [cbn [length]; lia|exact H].
    + intros [[|k] [Hk H]]; [now left|right].
      exists k. split; [cbn [length] in Hk; lia|exact H].
Qed.

Lemma includes_length (s q : jsstring) :
  includes s q = true -> (length q <= length s)%nat.
Proof.
  intros H. apply includes_iff in H as [k [Hk H]].
  apply startsWith_length in H. rewrite length_skipn in H. lia.
Qed.

Lemma includes_app (s x q : jsstring) :
  includes s q = true -> includes (s ++ x) q = true.
Proof.
  intros H. apply includes_iff in H as [k [Hk H]]. apply includes_iff.
  exists k. split; [rewrite length_app; lia|].
  rewrite skipn_app. replace (k - length s)%nat with 0%nat by lia.
  cbn [skipn]. now apply startsWith_app.
Qed.

Lemma includes_from (s q : jsstring) (i k : nat) :
  (i <= k)%nat -> startsWith (skipn k s) q = true ->
  includes (skipn i s) q = true.
Proof.
  intros Hik H. apply (includes_skipn s q k i Hik).
  destruct (skipn k s) eqn:E; cbn [includes]; now rewrite H.
Qed.

(** [indexOf], by the position it returns. *)
Lemma indexOf_from_spec (s q : jsstring) (i : Z) :
  (indexOf_from i s q = -1 /\ includes s q = false)
  \/ exists k, indexOf_from i s q = i + Z.of_nat k /\ (k <= length s)%nat
               /\ startsWith (skipn k s) q = true
               /\ forall j, (j < k)%nat -> startsWith (skipn j s) q = false.
Proof.
  revert i. induction s as [|c s IH]; intros i; cbn [indexOf_from includes].
  - destruct (startsWith [] q) eqn:E.
    + right. exists 0%nat. cbn [skipn length]. repeat split; [lia|lia|exact E|].
      intros j Hj. lia.
    + left. split; reflexivity.
  - destruct (startsWith (c :: s) q) eqn:E.
    + right. exists 0%nat. cbn [skipn]. repeat split; [lia|lia|exact E|].
      intros j Hj. lia.
    + destruct (IH (i + 1)) as [[A B]|[k (A & B & C & D)]].
      * left. split; [exact A|exact B].
      * right. exists (S k). cbn [skipn length].
        repeat split; [lia|lia|exact C|].
        intros [|j] Hj; [exact E|]. cbn [skipn]. apply D. lia.
Qed.

Lemma occurs_includes (s q : jsstring) : occurs s q = includes s q.
Proof.
  unfold occurs, indexOf.
  destruct (indexOf_from_spec s q 0) as [[A B]|[k (A & B & C & D)]].
  - rewrite A, B. reflexivity.
  - rewrite A. replace (0 + Z.of_nat k =? -1) with false by lia.
    symmetry. apply includes_iff. now exists k.
Qed.

Lemma indexOf_spec (s q : jsstring) :
  occurs s q = true ->
  exists k, indexOf s q = Z.of_nat k /\ (k <= length s)%nat
            /\ startsWith (skipn k s) q = true
            /\ forall j, (j < k)%nat -> startsWith (skipn j s) q = false.
Proof.
  intros H. rewrite occurs_includes in H. unfold indexOf.
  destruct (indexOf_from_spec s q 0) as [[A B]|[k (A & B & C & D)]];
    [congruence|].
  exists k. repeat split; [lia|exact B|exact C|exact D].
Qed.

Lemma skipn_app_le {A : Type} (k : nat) (s x : list A) :
  (k <= length s)%nat -> skipn k (s ++ x) = skipn k s ++ x.
Proof.
  intros H. rewrite skipn_app. replace (k - length s)%nat with 0%nat by lia.
  reflexivity.
Qed.

(** The first occurrence of a phrase stays where it is when the text grows. *)
Lemma indexOf_app (s x q : jsstring) :
  occurs s q = true -> indexOf (s ++ x) q = indexOf s q.
Proof.
  intros H. destruct (indexOf_spec s q H) as [k (A & B & C & D)].
  assert (occurs (s ++ x) q = true) as H'
    by (rewrite occurs_includes in *; now apply includes_app).
  destruct (indexOf_spec (s ++ x) q H') as [k' (A' & B' & C' & D')].
  rewrite A, A'. f_equal.
  destruct (Nat.lt_trichotomy k k') as [L|[E|L]]; [|exact (eq_sym E)|].
  - specialize (D' k L). rewrite skipn_app_le in D' by exact B.
    rewrite (startsWith_app _ x _ C) in D'. discriminate D'.
  - specialize (D k' L). rewrite skipn_app_le in C' by lia.
    apply startsWith_app_inv in C'; [congruence|].
    apply startsWith_length in C. rewrite length_skipn in *. lia.
Qed.

(** A phrase that occurs only once the text has grown ends in what was
    appended. *)
Lemma indexOf_new (s x q : jsstring) :
  occurs s q = false -> occurs (s ++ x) q = true ->
  exists k, indexOf (s ++ x) q = Z.of_nat k
            /\ (length (skipn k s) < length q)%nat.
Proof.
  intros H H'. destruct (indexOf_spec (s ++ x) q H') as [k (A & B & C & D)].
  exists k. split; [exact A|].
  destruct (Nat.lt_ge_cases (length (skipn k s)) (length q)) as [L|L];
    [exact L|exfalso].
  rewrite length_skipn in L.
  assert (k <= length s)%nat as Hk.
  { destruct (Nat.le_gt_cases k (length s)) as [G|G]; [exact G|].
    assert (length q = 0)%nat as Z0 by lia.
    destruct q; [|discriminate Z0].
    rewrite occurs_includes in H. destruct s; discriminate H. }
  rewrite skipn_app_le in C by exact Hk.
  apply startsWith_app_inv in C; [|rewrite length_skipn; exact L].
  rewrite occurs_includes in H.
  assert (includes s q = true) as E by (apply includes_iff; now exists k).
  congruence.
Qed.

Lemma slice_nat (s : jsstring) (k : nat) : slice s (Z.of_nat k) = skipn k s.
Proof.
  unfold slice, jslength.
  destruct (Z.ltb_spec (Z.of_nat k) 0) as [N|_]; [lia|].
  destruct (Nat.le_gt_cases k (length s)) as [L|L].
  - replace (Z.min (Z.of_nat k) (Z.of_nat (length s))) with (Z.of_nat k) by lia.
    now rewrite Nat2Z.id.
  - replace (Z.min (Z.of_nat k) (Z.of_nat (length s)))
      with (Z.of_nat (length s)) by lia.
    rewrite Nat2Z.id, skipn_all. symmetry. apply skipn_all2. lia.
Qed.

(** ** Phrases the appended text completes *)

Lemma completes_none (n p q : jsstring) (i : nat) :
  completes n p q = false ->
  includes (skipn i (n ++ p)) q = true -> includes (skipn i n) q = true.
Proof.
  unfold completes. intros Hc H.
  apply includes_iff in H as [k [Hk H]]. rewrite skipn_skipn in H.
  destruct (Nat.le_gt_cases (k + i + length q) (length n)) as [L|L].
  - apply (includes_from n q i (k + i)); [lia|].
    rewrite skipn_app_le in H by lia.
    apply startsWith_app_inv in H; [exact H|]. rewrite length_skipn. lia.
  - exfalso.
    assert (includes (skipn (length n + 1 - length q) (n ++ p)) q = true) as E
      by (apply (includes_from _ q _ (k + i)); [lia|exact H]).
    congruence.
Qed.

Lemma completes_none_includes (n p q : jsstring) :
  completes n p q = false -> includes (n ++ p) q = includes n q.
Proof.
  intros Hc. destruct (includes n q) eqn:E; [now apply includes_app|].
  destruct (includes (n ++ p) q) eqn:E'; [|reflexivity].
  apply (completes_none n p q 0 Hc) in E'. cbn [skipn] in E'. congruence.
Qed.

(** ** Phase 1 when the text grows *)

Lemma insult_phrases_short :
  forallb (fun q => (length q <=? 5)%nat) insultPhrases = true.
Proof. vm_compute. reflexivity. Qed.

Lemma quote_patterns_long :
  forallb (fun q => (5 <=? length q)%nat) QUOTE_PATTERNS = true.
Proof. vm_compute. reflexivity. Qed.

Lemma existsb_false_In {A : Type} (f : A -> bool) (l : list A) (x : A) :
  existsb f l = false -> In x l -> f x = false.
Proof.
  intros H Hx. destruct (f x) eqn:E; [|reflexivity].
  assert (existsb f l = true) as T by (apply existsb_exists; now exists x).
  congruence.
Qed.

Lemma find_first {A : Type} (f g : A -> bool) (l : list A) (a b : A) :
  (forall x, f x = true -> g x = true) ->
  find f l = Some a -> find g l = Some b -> f b = true -> a = b.
Proof.
  intros Hfg. induction l as [|x l IH]; cbn [find]; intros Ha Hb Hfb;
    [discriminate Ha|].
  destruct (f x) eqn:Ef.
  - rewrite (Hfg _ Ef) in Hb. congruence.
  - destruct (g x) eqn:Eg; [|now apply IH].
    injection Hb as <-. congruence.
Qed.

Lemma find_mono {A : Type} (f g : A -> bool) (l : list A) (a : A) :
  (forall x, f x = true -> g x = true) ->
  find f l = Some a -> exists b, find g l = Some b.
Proof.
  intros Hfg. induction l as [|x l IH]; cbn [find]; intros Ha;
    [discriminate Ha|].
  destruct (g x) eqn:Eg; [now exists x|].
  destruct (f x) eqn:Ef; [rewrite (Hfg _ Ef) in Eg; discriminate Eg|].
  now apply IH.
Qed.

Lemma find_none_existsb {A : Type} (f : A -> bool) (l : list A) :
  existsb f l = false -> find f l = None.
Proof.
  induction l as [|x l IH]; cbn [existsb find]; [reflexivity|].
  intros H. apply orb_false_iff in H as [H1 H2]. rewrite H1. now apply IH.
Qed.

Lemma find_some_existsb {A : Type} (f : A -> bool) (l : list A) (x : A) :
  In x l -> f x = true -> exists y, find f l = Some y.
Proof.
  intros Hx Hf. destruct (find f l) as [y|] eqn:E; [now exists y|].
  pose proof (find_none f l E x Hx). congruence.
Qed.

Lemma startsWith_refl (q : jsstring) : startsWith q q = true.
Proof.
  induction q as [|c q IH]; [reflexivity|]. cbn [startsWith].
  now rewrite Z.eqb_refl.
Qed.

Lemma occurs_app (s x q : jsstring) :
  occurs s q = true -> occurs (s ++ x) q = true.
Proof. rewrite !occurs_includes. apply includes_app. Qed.

Lemma occurs_appended (s x : jsstring) : occurs (s ++ x) x = true.
Proof.
  rewrite occurs_includes. apply includes_iff. exists (length s).
  split; [rewrite length_app; lia|].
  rewrite skipn_app, skipn_all, Nat.sub_diag. cbn [skipn app].
  apply startsWith_refl.
Qed.

Lemma insult_phrase_of_entry (di : DI.t) (q : jsstring) :
  In di DIRECT_INSULTS -> In q (DI.patterns di) -> In q insultPhrases.
Proof.
  intros Hd Hq. unfold insultPhrases. apply in_concat.
  exists (DI.patterns di). split; [now apply in_map|exact Hq].
Qed.

Section Growth.

Variables n p : jsstring.

Hypothesis no_quote_completed :
  existsb (completes n p) QUOTE_PATTERNS = false.

Lemma quoted_app (k : nat) :
  isQuotedInsult (n ++ p) (Z.of_nat k) = true ->
  isQuotedInsult n (Z.of_nat k) = true.
Proof.
  rewrite !isQuotedInsult_iff, !slice_nat. intros [qp [Hqp H]].
  exists qp. split; [exact Hqp|].
  apply (completes_none n p qp k); [|exact H].
  exact (existsb_false_In (completes n p) QUOTE_PATTERNS qp
           no_quote_completed Hqp).
Qed.

(** A phrase that occurs only in the longer text is not taken as quoted:
    a quotation suffix after it would have to fit in the few characters
    before what was appended. *)
Lemma new_phrase_unquoted (q : jsstring) :
  In q insultPhrases -> occurs n q = false -> occurs (n ++ p) q = true ->
  isQuotedInsult (n ++ p) (indexOf (n ++ p) q) = false.
Proof.
  intros Hq H H'. destruct (indexOf_new n p q H H') as [k [A B]]. rewrite A.
  destruct (isQuotedInsult (n ++ p) (Z.of_nat k)) eqn:E; [exfalso|reflexivity].
  apply quoted_app in E. apply isQuotedInsult_iff in E as [qp [Hqp E]].
  rewrite slice_nat in E. apply includes_length in E.
  pose proof insult_phrases_short as S1. rewrite forallb_forall in S1.
  specialize (S1 q Hq). apply Nat.leb_le in S1.
  pose proof quote_patterns_long as S2. rewrite forallb_forall in S2.
  specialize (S2 qp Hqp). apply Nat.leb_le in S2. lia.
Qed.

(** An entry reported for the text is reported for the longer text. *)
Lemma reported_app (di : DI.t) :
  In di DIRECT_INSULTS -> reported n di = true -> reported (n ++ p) di = true.
Proof.
  intros Hd. unfold reported.
  destruct (find (occurs n) (DI.patterns di)) as [q|] eqn:F; [|discriminate].
  intros Hr. apply negb_true_iff in Hr.
  destruct (find_mono (occurs n) (occurs (n ++ p)) _ q
              (fun x => occurs_app n p x) F) as [q' F'].
  rewrite F'. apply negb_true_iff.
  destruct (occurs n q') eqn:O.
  - assert (q = q') as <-
      by exact (find_first _ _ _ q q' (fun x => occurs_app n p x) F F' O).
    rewrite (indexOf_app n p q O).
    destruct (indexOf_spec n q O) as [k [A _]]. rewrite A in *.
    destruct (isQuotedInsult (n ++ p) (Z.of_nat k)) eqn:E; [|reflexivity].
    apply quoted_app in E. congruence.
  - apply new_phrase_unquoted; [|exact O|].
    + apply (insult_phrase_of_entry di); [exact Hd|].
      now apply find_some in F'.
    + now apply find_some in F'.
Qed.

(** An entry none of whose phrases occurs in the text is reported once
    one of them is appended. *)
Lemma reported_new (di : DI.t) :
  In di DIRECT_INSULTS -> In p (DI.patterns di) ->
  existsb (occurs n) (DI.patterns di) = false ->
  reported n di = false /\ reported (n ++ p) di = true.
Proof.
  intros Hd Hp Hn. unfold reported.
  rewrite (find_none_existsb _ _ Hn). split; [reflexivity|].
  destruct (find_some_existsb (occurs (n ++ p)) _ p Hp (occurs_appended n p))
    as [q' F'].
  rewrite F'. apply negb_true_iff. apply new_phrase_unquoted.
  - apply (insult_phrase_of_entry di); [exact Hd|]. now apply find_some in F'.
  - apply (existsb_false_In _ _ _ Hn). now apply find_some in F'.
  - now apply find_some in F'.
Qed.

End Growth.

(** ** Phase 1 in closed form *)

Lemma direct_insult_base_10 : direct_insult_base = 10%Q.
Proof. reflexivity. Qed.

Lemma Qred_inject_Z (z : Z) : Qred (inject_Z z) = inject_Z z.
Proof.
  unfold inject_Z, Qred. cbn [Qnum Qden].
  pose proof (Z.ggcd_gcd z 1) as G. pose proof (Z.ggcd_correct_divisors z 1) as D.
  destruct (Z.ggcd z 1) as [g [a b]]. cbn [fst snd] in *.
  rewrite Z.gcd_1_r in G. subst g. destruct D as [D1 D2].
  rewrite Z.mul_1_l in D1, D2. subst a b. reflexivity.
Qed.

Lemma nadd_inject_Z (a b : Z) :
  nadd (inject_Z a) (inject_Z b) = inject_Z (a + b).
Proof.
  unfold nadd. rewrite <- (Qred_inject_Z (a + b)). apply Qred_complete.
  unfold Qeq, Qplus, inject_Z. cbn [Qnum Qden]. lia.
Qed.

Lemma insultObj_step (k : nat) :
  obj_set (insultObj k) direct_insult
    (nadd (get_or (insultObj k) direct_insult 0) direct_insult_base)
  = insultObj (S k).
Proof.
  rewrite direct_insult_base_10.
  destruct k as [|k].
  - reflexivity.
  - unfold insultObj. cbn [obj_set]. unfold get_or. cbn [obj_get].
    replace (catId_eqb direct_insult direct_insult) with true by reflexivity.
    unfold num_or.
    replace (Qeq_bool (inject_Z (10 * Z.of_nat (S k))) 0) with false.
    + change 10%Q with (inject_Z 10). rewrite nadd_inject_Z.
      do 3 f_equal. lia.
    + symmetry. unfold Qeq_bool, inject_Z. cbn [Qnum Qden].
      apply Z.eqb_neq. lia.
Qed.

(** The entries of [l] reported for [n], counted. *)
Lemma phase1_fold_closed (n ty : jsstring) (l2 l1 : list DI.t) (st : state) :
  NoDup (concat (map DI.patterns (l1 ++ l2))) ->
  (forall k, In k (map Finding.keyword (found st)) ->
             In k (concat (map DI.patterns l1))) ->
  directInsultCount st = Z.of_nat (length (filter (reported n) l1)) ->
  hasUltraSevere st
  = existsb (fun di => reported n di && DI.ultraSevere di) l1 ->
  categoryBaseDamage st = insultObj (length (filter (reported n) l1)) ->
  categoryMbtiDamage st = insultObj (length (filter (reported n) l1)) ->
  let st' := fold_left
               (fun st di => phase1_patterns n ty di (DI.patterns di) st) l2 st in
  directInsultCount st' = Z.of_nat (length (filter (reported n) (l1 ++ l2)))
  /\ hasUltraSevere st'
     = existsb (fun di => reported n di && DI.ultraSevere di) (l1 ++ l2)
  /\ categoryBaseDamage st' = insultObj (length (filter (reported n) (l1 ++ l2)))
  /\ categoryMbtiDamage st' = insultObj (length (filter (reported n) (l1 ++ l2))).
Proof.
  revert l1 st. induction l2 as [|di l2 IH]; intros l1 st Hnd Hk Hc Hu Hb Hm.
  - cbv zeta. cbn [fold_left]. rewrite app_nil_r. now repeat split.
  - cbv zeta. cbn [fold_left].
    replace (l1 ++ di :: l2) with ((l1 ++ [di]) ++ l2) in *
      by (rewrite <- app_assoc; reflexivity).
    apply IH; clear IH.
    + exact Hnd.
    + intros k Hin. apply phase1_patterns_keywords in Hin.
      rewrite map_app, concat_app. apply in_app_iff.
      destruct Hin as [Hin|Hin]; [left; now apply Hk|right].
      cbn [map concat]. now rewrite app_nil_r.
    + rewrite phase1_patterns_find, filter_app, length_app.
      cbn [filter]. unfold reported at 2.
      destruct (find (occurs n) (DI.patterns di)) as [q|] eqn:F;
        [|cbn [length]; lia].
      destruct (isQuotedInsult n (indexOf n q)); cbn [negb length]; [lia|].
      destruct (found_some (found st) q) eqn:Fs.
      * exfalso. apply found_some_In in Fs. apply Hk in Fs.
        rewrite map_app, concat_app, map_app, concat_app in Hnd.
        rewrite <- app_assoc in Hnd.
        apply (NoDup_app_disjoint _ _ q Hnd Fs).
        apply in_app_iff. left. cbn [map concat]. rewrite app_nil_r.
        now apply find_some in F.
      * unfold push_insult. cbn [directInsultCount length]. lia.
    + rewrite phase1_patterns_find, existsb_app. cbn [existsb].
      rewrite orb_false_r. unfold reported at 2.
      destruct (find (occurs n) (DI.patterns di)) as [q|] eqn:F;
        [|cbn [andb]; now rewrite orb_false_r].
      destruct (isQuotedInsult n (indexOf n q)); cbn [negb andb];
        [now rewrite orb_false_r|].
      destruct (found_some (found st) q) eqn:Fs.
      * exfalso. apply found_some_In in Fs. apply Hk in Fs.
        rewrite map_app, concat_app, map_app, concat_app in Hnd.
        rewrite <- app_assoc in Hnd.
        apply (NoDup_app_disjoint _ _ q Hnd Fs).
        apply in_app_iff. left. cbn [map concat]. rewrite app_nil_r.
        now apply find_some in F.
      * unfold push_insult. cbn [hasUltraSevere]. rewrite Hu.
        destruct (DI.ultraSevere di); [now rewrite orb_true_r|].
        now rewrite orb_false_r.
    + rewrite phase1_patterns_find, filter_app, length_app.
      cbn [filter]. unfold reported at 2.
      destruct (find (occurs n) (DI.patterns di)) as [q|] eqn:F;
        [|cbn [length]; now rewrite Nat.add_0_r].
      destruct (isQuotedInsult n (indexOf n q)); cbn [negb length];
        [now rewrite Nat.add_0_r|].
      destruct (found_some (found st) q) eqn:Fs.
      * exfalso. apply found_some_In in Fs. apply Hk in Fs.
        rewrite map_app, concat_app, map_app, concat_app in Hnd.
        rewrite <- app_assoc in Hnd.
        apply (NoDup_app_disjoint _ _ q Hnd Fs).
        apply in_app_iff. left. cbn [map concat]. rewrite app_nil_r.
        now apply find_some in F.
      * unfold push_insult. cbn [categoryBaseDamage]. rewrite Hb.
        rewrite insultObj_step. f_equal. lia.
    + rewrite phase1_patterns_find, filter_app, length_app.
      cbn [filter]. unfold reported at 2.
      destruct (find (occurs n) (DI.patterns di)) as [q|] eqn:F;
        [|cbn [length]; now rewrite Nat.add_0_r].
      destruct (isQuotedInsult n (indexOf n q)); cbn [negb length];
        [now rewrite Nat.add_0_r|].
      destruct (found_some (found st) q) eqn:Fs.
      * exfalso. apply found_some_In in Fs. apply Hk in Fs.
        rewrite map_app, concat_app, map_app, concat_app in Hnd.
        rewrite <- app_assoc in Hnd.
        apply (NoDup_app_disjoint _ _ q Hnd Fs).
        apply in_app_iff. left. cbn [map concat]. rewrite app_nil_r.
        now apply find_some in F.
      * unfold push_insult. cbn [categoryMbtiDamage]. rewrite Hm.
        rewrite insultObj_step. f_equal. lia.
Qed.

(** The number of entries reported for [n]. *)
Lemma phase1_closed (n ty : jsstring) :
  let st := phase1 n ty init in
  let k := length (filter (reported n) DIRECT_INSULTS) in
  directInsultCount st = Z.of_nat k
  /\ hasUltraSevere st
     = existsb (fun di => reported n di && DI.ultraSevere di) DIRECT_INSULTS
  /\ categoryBaseDamage st = insultObj k
  /\ categoryMbtiDamage st = insultObj k.
Proof.
  cbv zeta. unfold phase1.
  apply (phase1_fold_closed n ty DIRECT_INSULTS [] init).
  - exact insult_phrases_distinct.
  - intros k H. exact H.
  - reflexivity.
  - reflexivity.
  - reflexivity.
  - reflexivity.
Qed.

Lemma filter_length_le {A : Type} (f g : A -> bool) (l : list A) :
  (forall x, In x l -> f x = true -> g x = true) ->
  (length (filter f l) <= length (filter g l))%nat.
Proof.
  induction l as [|x l IH]; intros H; [cbn [filter length]; lia|].
  cbn [filter].
  assert (length (filter f l) <= length (filter g l))%nat as L
    by (apply IH; intros y Hy; apply H; now right).
  destruct (f x) eqn:Ef.
  - rewrite (H x (or_introl eq_refl) Ef). cbn [length]. lia.
  - destruct (g x); cbn [length]; lia.
Qed.

Lemma filter_length_lt {A : Type} (f g : A -> bool) (l : list A) (a : A) :
  (forall x, In x l -> f x = true -> g x = true) ->
  In a l -> f a = false -> g a = true ->
  (length (filter f l) < length (filter g l))%nat.
Proof.
  induction l as [|x l IH]; intros H Ha Hf Hg; [contradiction Ha|].
  cbn [filter].
  assert (length (filter f l) <= length (filter g l))%nat as L
    by (apply filter_length_le; intros y Hy; apply H; now right).
  destruct Ha as [->|Ha].
  - rewrite Hf, Hg. cbn [length]. lia.
  - assert (length (filter f l) < length (filter g l))%nat as L'
      by (apply IH; [intros y Hy; apply H; now right|exact Ha|exact Hf|exact Hg]).
    destruct (f x) eqn:Ef.
    + rewrite (H x (or_introl eq_refl) Ef). cbn [length]. lia.
    + destruct (g x); cbn [length]; lia.
Qed.

Lemma existsb_mono {A : Type} (f g : A -> bool) (l : list A) :
  (forall x, In x l -> f x = true -> g x = true) ->
  existsb f l = true -> existsb g l = true.
Proof.
  intros H E. apply existsb_exists in E as [x [Hx E]].
  apply existsb_exists. exists x. split; [exact Hx|now apply H].
Qed.

(** ** Phase 2 when the text grows *)

Lemma obj_get_In {A : Type} (o : catObj A) (k : catId) (v : A) :
  obj_get o k = Some v -> exists k', In (k', v) o.
Proof.
  induction o as [|[k1 v1] o IH]; cbn [obj_get]; [discriminate|].
  destruct (catId_eqb k1 k).
  - intros E. injection E as ->. exists k1. now left.
  - intros E. destruct (IH E) as [k' H]. exists k'. now right.
Qed.

Lemma get_or_nonneg (o : catObj Q) (k : catId) (d : Q) :
  Forall (fun x => 0 <= snd x)%Q o -> (0 <= d)%Q -> (0 <= get_or o k d)%Q.
Proof.
  intros Ho Hd. unfold get_or.
  destruct (obj_get o k) as [v|] eqn:E; [|exact Hd].
  apply obj_get_In in E as [k' E]. rewrite Forall_forall in Ho.
  specialize (Ho _ E). cbn [snd] in Ho. unfold num_or.
  destruct (Qeq_bool v 0); assumption.
Qed.

Lemma nmul_nonneg (a b : Q) : (0 <= a -> 0 <= b -> 0 <= nmul a b)%Q.
Proof.
  intros Ha Hb. unfold nmul. rewrite Qred_correct. now apply Qmult_le_0_compat.
Qed.

Lemma str_get_In {A : Type} (o : list (jsstring * A)) (k : jsstring) (v : A) :
  str_get o k = Some v -> In v (map snd o).
Proof.
  induction o as [|[k1 v1] o IH]; cbn [str_get map snd]; [discriminate|].
  destruct (str_eqb k1 k).
  - intros E. injection E as ->. now left.
  - intros E. right. now apply IH.
Qed.

Lemma multipliers_nonneg_table :
  forallb (fun m => forallb (fun cv => Qle_bool 0 (snd cv)) m)
          (map snd MBTI_MULTIPLIERS) = true.
Proof. vm_compute. reflexivity. Qed.

Lemma multipliers_nonneg (ty : jsstring) (c : catId) :
  (0 <= get_or (multipliersOf ty) c 1.0)%Q.
Proof.
  apply get_or_nonneg; [|unfold Qle; cbn; lia].
  unfold multipliersOf.
  destruct (str_get MBTI_MULTIPLIERS ty) as [m|] eqn:E; [|constructor].
  apply str_get_In in E. pose proof multipliers_nonneg_table as T.
  rewrite forallb_forall in T. specialize (T m E).
  rewrite forallb_forall in T. apply Forall_forall. intros x Hx.
  apply Qle_bool_iff. now apply T.
Qed.

(** *** Totals *)

Lemma fold_nadd (l : list Q) (a : Q) :
  (fold_left nadd l a == a + fold_right Qplus 0 l)%Q.
Proof.
  revert a. induction l as [|x l IH]; intros a; cbn [fold_left fold_right].
  - ring.
  - rewrite IH. unfold nadd. rewrite Qred_correct. ring.
Qed.

Lemma total_sum (o : catObj Q) :
  (total o == fold_right Qplus 0 (map snd o))%Q.
Proof. unfold total. rewrite fold_nadd. ring. Qed.

Lemma num_or_0 (v : Q) : (num_or v 0 == v)%Q.
Proof.
  unfold num_or. destruct (Qeq_bool v 0) eqn:E; [|reflexivity].
  apply Qeq_bool_iff in E. now rewrite E.
Qed.

(** [o[c] = (o[c] || 0) + v] adds [v] to the total. *)
Lemma total_add (o : catObj Q) (c : catId) (v : Q) :
  (total (obj_set o c (nadd (get_or o c 0) v)) == total o + v)%Q.
Proof.
  rewrite !total_sum. induction o as [|[k1 v1] o IH].
  - unfold get_or. cbn [obj_get obj_set map snd fold_right].
    unfold nadd. rewrite Qred_correct. ring.
  - unfold get_or in *. cbn [obj_set obj_get].
    destruct (catId_eqb k1 c).
    + cbn [map snd fold_right]. unfold nadd. rewrite Qred_correct, num_or_0.
      ring.
    + cbn [map snd fold_right]. rewrite IH. ring.
Qed.

Lemma total_insultObj (k : nat) :
  (total (insultObj k) == inject_Z (10 * Z.of_nat k))%Q.
Proof.
  rewrite total_sum. destruct k as [|k].
  - reflexivity.
  - unfold insultObj. cbn [map snd fold_right]. ring.
Qed.

(** *** Keys *)

Lemma obj_set_keys_In {A : Type} (o : catObj A) (c x : catId) (v : A) :
  In x (map fst (obj_set o c v)) <-> x = c \/ In x (map fst o).
Proof.
  induction o as [|[k1 v1] o IH]; cbn [obj_set map fst In].
  - split; [intros [H|[]]; now left|intros [H|[]]; now left].
  - unfold catId_eqb. destruct (catId_eq_dec k1 c) as [->|N]; cbn [map fst In].
    + split; [intros [H|H]; [left; now symmetry|right; now right]|].
      intros [H|[H|H]]; [left; now symmetry|now left|now right].
    + rewrite IH. split.
      * intros [H|[H|H]]; [right; now left|now left|right; now right].
      * intros [H|[H|H]]; [right; now left|now left|right; now right].
Qed.

Lemma obj_set_keys_NoDup {A : Type} (o : catObj A) (c : catId) (v : A) :
  NoDup (map fst o) -> NoDup (map fst (obj_set o c v)).
Proof.
  induction o as [|[k1 v1] o IH]; cbn [obj_set map fst]; intros H.
  - constructor; [intros []|constructor].
  - inversion H as [|? ? H1 H2]; subst. unfold catId_eqb.
    destruct (catId_eq_dec k1 c) as [->|N]; cbn [map fst].
    + now constructor.
    + constructor; [|now apply IH].
      intros Hin. apply obj_set_keys_In in Hin as [E|Hin]; [now apply N|].
      now apply H1.
Qed.

(** *** The entries, one after the other *)

Lemma fold_left_map {A B C : Type} (f : A -> C -> A) (g : B -> C)
    (l : list B) (a : A) :
  fold_left f (map g l) a = fold_left (fun x y => f x (g y)) l a.
Proof.
  revert a. induction l as [|y l IH]; intros a; [reflexivity|].
  cbn [map fold_left]. apply IH.
Qed.

Lemma phase2_flat (n ty : jsstring) (m : catObj Q) (st : state) :
  phase2 n ty m st
  = fold_left
      (fun st ce =>
         phase2_patterns n ty m (fst ce) (snd ce) (CP.patterns (snd ce)) st)
      entriesOf st.
Proof.
  unfold phase2, entriesOf. revert st.
  induction CATEGORY_PATTERNS as [|[c es] l IH]; intros st; [reflexivity|].
  cbn [fold_left flat_map fst snd]. rewrite fold_left_app, fold_left_map.
  cbn [fst snd]. unfold phase2_entries at 1. apply IH.
Qed.

Lemma category_keys_not_insult :
  forallb (fun ce => negb (catId_eqb (fst ce) direct_insult))
          CATEGORY_PATTERNS = true.
Proof. vm_compute. reflexivity. Qed.

Lemma entry_listed (ce : catId * CP.t) :
  In ce entriesOf ->
  fst ce <> direct_insult
  /\ forall q, In q (CP.patterns (snd ce)) -> In q categoryPhrases.
Proof.
  unfold entriesOf. intros H. apply in_flat_map in H as [[c es] [Hc H]].
  apply in_map_iff in H as [e [<- He]]. cbn [fst snd] in *. split.
  - pose proof category_keys_not_insult as T. rewrite forallb_forall in T.
    specialize (T _ Hc). cbn [fst] in T. intros ->. discriminate T.
  - intros q Hq. unfold categoryPhrases. apply in_concat.
    exists (CP.patterns e). split; [|exact Hq]. apply in_map.
    apply in_concat. exists es. split; [|exact He].
    change es with (snd (c, es)). now apply in_map.
Qed.

Lemma filter_length_pos {A : Type} (f : A -> bool) (l : list A) (x : A) :
  In x l -> f x = true -> (1 <= length (filter f l))%nat.
Proof.
  intros Hx Hf.
  assert (In x (filter f l)) as H by (apply filter_In; now split).
  destruct (filter f l); [contradiction H|cbn [length]; lia].
Qed.

Lemma lists_In (q : jsstring) (ce : catId * CP.t) :
  In q (CP.patterns (snd ce)) -> lists q ce = true.
Proof.
  intros H. unfold lists. apply existsb_exists. exists q.
  split; [exact H|apply str_eqb_refl].
Qed.

(** A phrase of an entry that an earlier entry lists too is shared. *)
Lemma shared_phrase (E1 E2 : list (catId * CP.t)) (ce ce0 : catId * CP.t)
    (q : jsstring) :
  entriesOf = E1 ++ ce :: E2 -> In ce0 E1 ->
  In q (CP.patterns (snd ce0)) -> In q (CP.patterns (snd ce)) ->
  In q sharedPhrases.
Proof.
  intros HE H0 Hq0 Hq.
  assert (In ce entriesOf) as Hce
    by (rewrite HE; apply in_app_iff; right; now left).
  pose proof (proj2 (entry_listed ce Hce) q Hq) as Hc.
  assert ((2 <=? length (filter (lists q) entriesOf))%nat = true) as H2.
  { apply Nat.leb_le. rewrite HE, filter_app, length_app.
    pose proof (filter_length_pos (lists q) E1 ce0 H0 (lists_In q ce0 Hq0)).
    pose proof (filter_length_pos (lists q) (ce :: E2) ce (or_introl eq_refl)
                  (lists_In q ce Hq)).
    lia. }
  exact (proj2 (filter_In
                  (fun q => (2 <=? length (filter (lists q) entriesOf))%nat)
                  q categoryPhrases) (conj Hc H2)).
Qed.

Lemma keywords_push (ty : jsstring) (m : catObj Q) (c : catId) (e : CP.t)
    (q : jsstring) (st : state) :
  keywords (push_category ty m c e q st) = keywords st ++ [q].
Proof. apply push_category_keywords. Qed.

Section Lockstep.

Variables n n' ty : jsstring.
Variable m : catObj Q.
Variable extra : Q.

Hypothesis grows : forall q, includes n q = true -> includes n' q = true.

Hypothesis shared_kept :
  forall q, In q sharedPhrases -> includes n' q = true -> includes n q = true.

Hypothesis multipliers_are_nonneg : forall c, (0 <= get_or m c 1.0)%Q.

Lemma ahead_skip (E1 : list (catId * CP.t)) (ce : catId * CP.t) (a b : state) :
  ahead n extra E1 a b -> ahead n extra (E1 ++ [ce]) a b.
Proof.
  intros (K & J & Tb & Tm & C & N). repeat split; try assumption.
  intros q Hq. destruct (K q Hq) as [H|[ce0 [H0 H]]]; [now left|right].
  exists ce0. split; [apply in_app_iff; now left|exact H].
Qed.

(** Only the longer text records a phrase of the entry. *)
Lemma ahead_push_b (E1 : list (catId * CP.t)) (ce : catId * CP.t)
    (q : jsstring) (a b : state) :
  ahead n extra E1 a b -> In q (CP.patterns (snd ce)) ->
  (includes n q = true -> In q (keywords a)) ->
  ahead n extra (E1 ++ [ce]) a (push_category ty m (fst ce) (snd ce) q b).
Proof.
  intros (K & J & Tb & Tm & C & N) Hq Ha. unfold ahead.
  rewrite keywords_push. unfold push_category.
  cbn [categoryBaseDamage categoryMbtiDamage]. rewrite !total_add.
  pose proof (baseSeverityOf_nonneg (fst ce)) as B0.
  pose proof (nmul_nonneg _ _ B0 (multipliers_are_nonneg (fst ce))) as M0.
  split; [|split; [|split; [|split; [|split]]]].
  - intros q2 H2. apply in_app_iff in H2 as [H2|[<-|[]]].
    + destruct (K q2 H2) as [H|[ce0 [H0 H]]]; [now left|right].
      exists ce0. split; [apply in_app_iff; now left|exact H].
    + right. exists ce. split; [apply in_app_iff; right; now left|exact Hq].
  - intros q2 H2 Hc Hi. apply in_app_iff in H2 as [H2|[<-|[]]].
    + now apply J.
    + now apply Ha.
  - lra.
  - lra.
  - intros x Hx. apply obj_set_keys_In. right. now apply C.
  - exact N.
Qed.

(** Both texts record a phrase of the entry. *)
Lemma ahead_push_both (E1 : list (catId * CP.t)) (ce : catId * CP.t)
    (q0 q1 : jsstring) (a b : state) :
  ahead n extra E1 a b -> In q1 (CP.patterns (snd ce)) ->
  (includes n q1 = true -> q1 = q0) ->
  ahead n extra (E1 ++ [ce])
    (push_category ty m (fst ce) (snd ce) q0 a)
    (push_category ty m (fst ce) (snd ce) q1 b).
Proof.
  intros (K & J & Tb & Tm & C & N) Hq Ha. unfold ahead.
  rewrite !keywords_push. unfold push_category.
  cbn [categoryBaseDamage categoryMbtiDamage]. rewrite !total_add.
  split; [|split; [|split; [|split; [|split]]]].
  - intros q2 H2. apply in_app_iff in H2 as [H2|[<-|[]]].
    + destruct (K q2 H2) as [H|[ce0 [H0 H]]]; [now left|right].
      exists ce0. split; [apply in_app_iff; now left|exact H].
    + right. exists ce. split; [apply in_app_iff; right; now left|exact Hq].
  - intros q2 H2 Hc Hi. apply in_app_iff.
    apply in_app_iff in H2 as [H2|[<-|[]]].
    + left. now apply J.
    + right. left. symmetry. now apply Ha.
  - lra.
  - lra.
  - intros x Hx. apply obj_set_keys_In.
    apply obj_set_keys_In in Hx as [Hx|Hx]; [now left|right; now apply C].
  - now apply obj_set_keys_NoDup.
Qed.

(** One entry: whenever the text records a phrase of it, so does the
    longer text. *)
Lemma ahead_entry (E1 E2 : list (catId * CP.t)) (ce : catId * CP.t)
    (a b : state) :
  entriesOf = E1 ++ ce :: E2 ->
  ahead n extra E1 a b ->
  ahead n extra (E1 ++ [ce])
    (phase2_patterns n ty m (fst ce) (snd ce) (CP.patterns (snd ce)) a)
    (phase2_patterns n' ty m (fst ce) (snd ce) (CP.patterns (snd ce)) b).
Proof.
  intros HE H. rewrite !phase2_patterns_find.
  assert (In ce entriesOf) as Hce
    by (rewrite HE; apply in_app_iff; right; now left).
  destruct (entry_listed ce Hce) as [_ Hcat].
  destruct (find (includes n') (CP.patterns (snd ce))) as [q1|] eqn:F'.
  - pose proof (find_some _ _ F') as [P1 I1].
    destruct (found_some (found b) q1) eqn:Db.
    + (* the longer text has recorded [q1] before *)
      apply found_some_In in Db. fold (keywords b) in Db.
      assert (includes n q1 = true) as In1.
      { destruct H as (K & _).
        destruct (K q1 Db) as [Hi|[ce0 [H0 Hq0]]].
        - exfalso.
          exact (insult_and_category_phrases_disjoint q1 Hi (Hcat q1 P1)).
        - apply shared_kept; [|exact I1].
          exact (shared_phrase E1 E2 ce ce0 q1 HE H0 Hq0 P1). }
      assert (In q1 (keywords a)) as Da
        by (destruct H as (_ & J & _); exact (J q1 Db (Hcat q1 P1) In1)).
      destruct (find (includes n) (CP.patterns (snd ce))) as [q0|] eqn:F;
        [|now apply ahead_skip].
      assert (q0 = q1) as -> by exact (find_first _ _ _ q0 q1 grows F F' In1).
      apply found_some_In in Da. rewrite Da. now apply ahead_skip.
    + destruct (find (includes n) (CP.patterns (snd ce))) as [q0|] eqn:F.
      * destruct (found_some (found a) q0) eqn:Da.
        -- apply ahead_push_b; [exact H|exact P1|].
           intros In1.
           assert (q0 = q1) as <-
             by exact (find_first _ _ _ q0 q1 grows F F' In1).
           now apply found_some_In in Da.
        -- apply ahead_push_both; [exact H|exact P1|].
           intros In1. symmetry.
           exact (find_first _ _ _ q0 q1 grows F F' In1).
      * apply ahead_push_b; [exact H|exact P1|].
        intros In1. exfalso.
        pose proof (find_none _ _ F q1 P1). congruence.
  - destruct (find (includes n) (CP.patterns (snd ce))) as [q0|] eqn:F;
      [|now apply ahead_skip].
    exfalso. destruct (find_mono _ (includes n') _ q0 grows F) as [q1 F1].
    congruence.
Qed.

Lemma ahead_fold (E2 E1 : list (catId * CP.t)) (a b : state) :
  entriesOf = E1 ++ E2 ->
  ahead n extra E1 a b ->
  ahead n extra (E1 ++ E2)
    (fold_left
       (fun st ce =>
          phase2_patterns n ty m (fst ce) (snd ce) (CP.patterns (snd ce)) st)
       E2 a)
    (fold_left
       (fun st ce =>
          phase2_patterns n' ty m (fst ce) (snd ce) (CP.patterns (snd ce)) st)
       E2 b).
Proof.
  revert E1 a b. induction E2 as [|ce E2 IH]; intros E1 a b HE H.
  - cbn [fold_left]. now rewrite app_nil_r.
  - cbn [fold_left].
    replace (E1 ++ ce :: E2) with ((E1 ++ [ce]) ++ E2) in *
      by (rewrite <- app_assoc; reflexivity).
    apply IH; [exact HE|]. apply (ahead_entry E1 E2); [|exact H].
    rewrite HE, <- app_assoc. reflexivity.
Qed.

Lemma ahead_phase2 (a b : state) :
  ahead n extra [] a b ->
  ahead n extra entriesOf (phase2 n ty m a) (phase2 n' ty m b).
Proof.
  intros H. rewrite !phase2_flat.
  exact (ahead_fold entriesOf [] a b eq_refl H).
Qed.

End Lockstep.

(** The damage of the reported insults is part of the total. *)
Lemma phase2_total (n ty : jsstring) (m : catObj Q) (x : Q) (st : state) :
  (forall c, 0 <= get_or m c 1.0)%Q ->
  (x <= total (categoryBaseDamage st))%Q ->
  (x <= total (categoryMbtiDamage st))%Q ->
  (x <= total (categoryBaseDamage (phase2 n ty m st)))%Q
  /\ (x <= total (categoryMbtiDamage (phase2 n ty m st)))%Q.
Proof.
  intros Hm Hb Hmb. unfold phase2.
  apply (fold_left_inv
           (fun s => (x <= total (categoryBaseDamage s))%Q
                     /\ (x <= total (categoryMbtiDamage s))%Q));
    [now split|].
  intros s [c es] _ Hs. cbn [fst snd]. unfold phase2_entries.
  apply (fold_left_inv
           (fun s => (x <= total (categoryBaseDamage s))%Q
                     /\ (x <= total (categoryMbtiDamage s))%Q));
    [exact Hs|].
  intros s' e _ [H1 H2]. rewrite phase2_patterns_find.
  destruct (find (includes n) (CP.patterns e)) as [q|]; [|now split].
  destruct (found_some (found s') q); [now split|].
  unfold push_category. cbn [categoryBaseDamage categoryMbtiDamage].
  rewrite !total_add.
  pose proof (baseSeverityOf_nonneg c) as B0.
  pose proof (nmul_nonneg _ _ B0 (Hm c)) as M0.
  split; lra.
Qed.

Lemma detect_counts (n ty : jsstring) (m : catObj Q) :
  directInsultCount (detect n ty m)
  = Z.of_nat (length (filter (reported n) DIRECT_INSULTS))
  /\ hasUltraSevere (detect n ty m)
     = existsb (fun di => reported n di && DI.ultraSevere di) DIRECT_INSULTS.
Proof.
  unfold detect. destruct (phase2_keeps_insults n ty m (phase1 n ty init)) as [A B].
  rewrite A, B. destruct (phase1_closed n ty) as (C & U & _ & _).
  cbv zeta in *. now split.
Qed.

(** The damage of a text is at least that of its reported insults. *)
Lemma detect_total (n ty : jsstring) :
  (inject_Z (10 * directInsultCount (detect n ty (multipliersOf ty)))
   <= total (categoryBaseDamage (detect n ty (multipliersOf ty))))%Q
  /\ (inject_Z (10 * directInsultCount (detect n ty (multipliersOf ty)))
      <= total (categoryMbtiDamage (detect n ty (multipliersOf ty))))%Q.
Proof.
  destruct (detect_counts n ty (multipliersOf ty)) as [A _]. rewrite A.
  unfold detect. destruct (phase1_closed n ty) as (_ & _ & B & M).
  cbv zeta in *.
  apply phase2_total; [apply multipliers_nonneg| |].
  - rewrite B, total_insultObj. apply Qle_refl.
  - rewrite M, total_insultObj. apply Qle_refl.
Qed.

Lemma phase1_keywords (n ty : jsstring) (q : jsstring) :
  In q (keywords (phase1 n ty init)) -> In q insultPhrases.
Proof.
  unfold keywords, phase1. intros H.
  apply phase1_fold_keywords in H as [H|H]; [contradiction H|exact H].
Qed.

Lemma insultObj_keys (k k' : nat) :
  (k <= k')%nat ->
  incl (map fst (insultObj k)) (map fst (insultObj k'))
  /\ NoDup (map fst (insultObj k)).
Proof.
  intros H. destruct k as [|k].
  - split; [intros x []|constructor].
  - destruct k' as [|k']; [lia|]. unfold insultObj. cbn [map fst]. split.
    + intros x Hx. exact Hx.
    + constructor; [intros []|constructor].
Qed.

(** The damages of a text and of a longer text that reports the insults
    of the text and in which no shared category phrase is new. *)
Lemma detect_ahead (n n' ty : jsstring) :
  (forall q, includes n q = true -> includes n' q = true) ->
  (forall q, In q sharedPhrases -> includes n' q = true ->
             includes n q = true) ->
  (length (filter (reported n) DIRECT_INSULTS)
   <= length (filter (reported n') DIRECT_INSULTS))%nat ->
  let a := detect n ty (multipliersOf ty) in
  let b := detect n' ty (multipliersOf ty) in
  (total (categoryBaseDamage a)
   + inject_Z (10 * (directInsultCount b - directInsultCount a))
   <= total (categoryBaseDamage b))%Q
  /\ (total (categoryMbtiDamage a)
      + inject_Z (10 * (directInsultCount b - directInsultCount a))
      <= total (categoryMbtiDamage b))%Q
  /\ (length (categoryMbtiDamage a) <= length (categoryMbtiDamage b))%nat.
Proof.
  intros Hg Hs Hk. cbv zeta.
  destruct (detect_counts n ty (multipliersOf ty)) as [A _].
  destruct (detect_counts n' ty (multipliersOf ty)) as [A' _].
  rewrite A, A'. unfold detect.
  destruct (phase1_closed n ty) as (_ & _ & B & M).
  destruct (phase1_closed n' ty) as (_ & _ & B' & M').
  cbv zeta in *.
  set (k := length (filter (reported n) DIRECT_INSULTS)) in *.
  set (k' := length (filter (reported n') DIRECT_INSULTS)) in *.
  destruct (insultObj_keys k k' Hk) as [Ki Kn].
  assert (ahead n (inject_Z (10 * (Z.of_nat k' - Z.of_nat k))) []
            (phase1 n ty init) (phase1 n' ty init)) as H0.
  { unfold ahead. rewrite B, B', M, M', !total_insultObj.
    split; [|split; [|split; [|split; [|split]]]].
    - intros q Hq. left. exact (phase1_keywords n' ty q Hq).
    - intros q Hq Hc _. exfalso. apply phase1_keywords in Hq.
      exact (insult_and_category_phrases_disjoint q Hq Hc).
    - rewrite <- inject_Z_plus. rewrite <- Zle_Qle. lia.
    - rewrite <- inject_Z_plus. rewrite <- Zle_Qle. lia.
    - exact Ki.
    - exact Kn. }
  destruct (ahead_phase2 n n' ty (multipliersOf ty) _ Hg Hs
              (multipliers_nonneg ty) _ _ H0) as (_ & _ & Tb & Tm & C & N).
  split; [exact Tb|]. split; [exact Tm|].
  rewrite <- !(length_map fst). apply NoDup_incl_length; assumption.
Qed.

(** ** Regular expressions when the text grows *)

Lemma repRests_here (cs s : jsstring) : In ([], s) (repRests cs 0 s).
Proof.
  destruct s as [|c s]; cbn [repRests]; [now left|].
  destruct (mem c cs); [apply in_app_iff; right|]; now left.
Qed.

Lemma repRests_app (cs : jsstring) (k : nat) (s x : jsstring) (cr : rresult) :
  In cr (repRests cs k s) -> In (fst cr, snd cr ++ x) (repRests cs k (s ++ x)).
Proof.
  revert k. induction s as [|c s IH]; intros k H.
  - destruct k; cbn [repRests] in H; [|contradiction H].
    destruct H as [<-|[]]. cbn [fst snd app]. apply repRests_here.
  - destruct k; cbn [repRests app] in *.
    + destruct (mem c cs).
      * apply in_app_iff in H as [H|[<-|[]]].
        -- apply in_app_iff. left. now apply IH.
        -- apply in_app_iff. right. now left.
      * destruct H as [<-|[]]. now left.
    + destruct (mem c cs); [now apply IH|contradiction H].
Qed.

Lemma dotPlusRests_app (s x : jsstring) (cr : rresult) :
  In cr (dotPlusRests s) -> In (fst cr, snd cr ++ x) (dotPlusRests (s ++ x)).
Proof.
  revert cr. induction s as [|c s IH]; intros cr H; [contradiction H|].
  cbn [dotPlusRests app] in *.
  destruct (isLineTerminator c); [contradiction H|].
  apply in_app_iff in H as [H|[<-|[]]].
  - apply in_map_iff in H as [cr0 [<- H]]. apply in_app_iff. left.
    cbn [fst snd].
    apply (in_map (fun cr => (c :: fst cr, snd cr)) _ _ (IH _ H)).
  - apply in_app_iff. right. now left.
Qed.

(** A way of matching a regex without [$] is a way of matching it in the
    longer text. *)
Lemma rmatch_app (r : regex) (x : jsstring) :
  eolFree r = true ->
  forall s cr, In cr (rmatch r s) -> In (fst cr, snd cr ++ x) (rmatch r (s ++ x)).
Proof.
  induction r as [q|cs|cs k|cs| | |r1 IH1 r2 IH2|r1 IH1 r2 IH2];
    cbn [eolFree]; intros He s cr H.
  - cbn [rmatch] in *. destruct (startsWith s q) eqn:E; [|contradiction H].
    destruct H as [<-|[]]. rewrite (startsWith_app s x q E). left.
    cbn [fst snd]. f_equal. apply skipn_app_le.
    now apply startsWith_length.
  - destruct s as [|c s]; cbn [rmatch app] in *; [contradiction H|].
    destruct (mem c cs); [|contradiction H].
    destruct H as [<-|[]]. now left.
  - cbn [rmatch] in *. now apply repRests_app.
  - destruct s as [|c s].
    + cbn [rmatch] in H. destruct H as [<-|[]]. cbn [fst snd app].
      destruct x as [|d x]; cbn [rmatch]; [now left|].
      destruct (mem d cs); [right|]; now left.
    + cbn [rmatch app] in *. destruct (mem c cs).
      * destruct H as [<-|[<-|[]]]; [now left|right; now left].
      * destruct H as [<-|[]]. now left.
  - cbn [rmatch] in *. now apply dotPlusRests_app.
  - discriminate He.
  - apply andb_true_iff in He as [He1 He2]. cbn [rmatch] in *.
    apply in_flat_map in H as [cr1 [H1 H]].
    apply in_map_iff in H as [cr2 [<- H2]].
    apply in_flat_map. exists (fst cr1, snd cr1 ++ x).
    split; [now apply IH1|]. cbn [fst snd].
    apply in_map_iff. exists (fst cr2, snd cr2 ++ x).
    split; [reflexivity|]. now apply IH2.
  - apply andb_true_iff in He as [He1 He2]. cbn [rmatch] in *.
    apply in_app_iff in H as [H|H]; apply in_app_iff;
      [left; now apply IH1|right; now apply IH2].
Qed.

Lemma matchesAt_app (r : regex) (s x : jsstring) :
  eolFree r = true -> matchesAt r s = true -> matchesAt r (s ++ x) = true.
Proof.
  intros He. unfold matchesAt.
  destruct (rmatch r s) as [|cr l] eqn:E; [discriminate|]. intros _.
  assert (In cr (rmatch r s)) as H by (rewrite E; now left).
  apply (rmatch_app r x He) in H.
  destruct (rmatch r (s ++ x)); [contradiction H|reflexivity].
Qed.

(** A test with a regex without [$] that succeeds on a text succeeds on
    the longer text. *)
Lemma regex_test_app (r : regex) (s x : jsstring) :
  eolFree r = true -> regex_test r s = true -> regex_test r (s ++ x) = true.
Proof.
  intros He. induction s as [|c s IH]; cbn [regex_test app].
  - rewrite orb_false_r. intros H. apply (matchesAt_app r [] x He) in H.
    cbn [app] in H. destruct x; cbn [regex_test]; now rewrite H.
  - intros H. apply orb_true_iff in H as [H|H].
    + apply (matchesAt_app r (c :: s) x He) in H. cbn [app] in H.
      now rewrite H.
    + rewrite (IH H). apply orb_true_r.
Qed.

Lemma regex_test_alt (a b : regex) (s : jsstring) :
  regex_test (RAlt a b) s = regex_test a s || regex_test b s.
Proof.
  assert (forall v, matchesAt (RAlt a b) v = matchesAt a v || matchesAt b v) as M.
  { intros v. unfold matchesAt. cbn [rmatch].
    destruct (rmatch a v); [|reflexivity]. destruct (rmatch b v); reflexivity. }
  induction s as [|c s IH]; cbn [regex_test]; rewrite M.
  - now rewrite !orb_false_r.
  - rewrite IH.
    destruct (matchesAt a (c :: s)), (matchesAt b (c :: s)),
             (regex_test a s), (regex_test b s); reflexivity.
Qed.

(** *** Counting matches *)

Lemma count_from_nonneg (r : regex) (k : nat) (s : jsstring) :
  0 <= count_from r k s.
Proof.
  revert k. induction s as [|c s IH]; intros k.
  - destruct k; cbn [count_from]; [|lia].
    destruct (rmatch r []) as [|[cap rest] l]; lia.
  - destruct k; cbn [count_from]; [|apply IH].
    destruct (rmatch r (c :: s)) as [|[cap rest] l]; [apply IH|].
    pose proof (IH (length (c :: s) - length rest - 1)%nat). lia.
Qed.

Lemma count_from_matched (r : regex) (v cap rest : jsstring)
    (l : list rresult) :
  rmatch r v = (cap, rest) :: l -> 1 <= count_from r 0 v.
Proof.
  intros E. destruct v as [|c v]; cbn [count_from]; rewrite E; [lia|].
  pose proof (count_from_nonneg r (length (c :: v) - length rest - 1) v). lia.
Qed.

Section CountGrowth.

Variable r : regex.
Variable x : jsstring.

(** The first way of matching at a position is the first way of matching
    there in the longer text. *)
Hypothesis first_stays :
  forall v cap rest l,
    rmatch r v = (cap, rest) :: l ->
    exists cap' l', rmatch r (v ++ x) = (cap', rest ++ x) :: l'.

(** A match that only the longer text has leaves at most one match
    behind it in the text. *)
Hypothesis new_match_short :
  forall v, rmatch r v = [] -> rmatch r (v ++ x) <> [] ->
            count_from r 0 (tl v) <= 1.

Lemma count_from_app (k : nat) (s : jsstring) :
  count_from r k s <= count_from r k (s ++ x).
Proof.
  revert k. induction s as [|c s IH]; intros k.
  - cbn [app]. destruct k.
    + cbn [count_from].
      destruct (rmatch r []) as [|[cap rest] l] eqn:E;
        [apply count_from_nonneg|].
      destruct (first_stays _ _ _ _ E) as (cap' & l' & E').
      cbn [app] in E'. pose proof (count_from_matched r x _ _ _ E'). lia.
    + cbn [count_from]. apply count_from_nonneg.
  - destruct k; cbn [count_from app]; [|apply IH].
    destruct (rmatch r (c :: s)) as [|[cap rest] l] eqn:E.
    + destruct (rmatch r (c :: s ++ x)) as [|[cap' rest'] l'] eqn:E';
        [apply IH|].
      assert (count_from r 0 s <= 1) as N.
      { apply (new_match_short (c :: s) E). cbn [app]. rewrite E'.
        discriminate. }
      pose proof (count_from_nonneg r
                    (length (c :: s ++ x) - length rest' - 1) (s ++ x)).
      lia.
    + destruct (first_stays _ _ _ _ E) as (cap' & l' & E').
      cbn [app] in E'. rewrite E'.
      replace (length (c :: s ++ x) - length (rest ++ x) - 1)%nat
        with (length (c :: s) - length rest - 1)%nat
        by (cbn [length]; rewrite !length_app; lia).
      pose proof (IH (length (c :: s) - length rest - 1)%nat). lia.
Qed.

End CountGrowth.

(** *** Alternations of literals *)

Lemma rmatch_lits (ls : list jsstring) (v : jsstring) :
  rmatch (lits ls) v
  = map (fun l => (([] : jsstring), skipn (length l) v)) (filter (startsWith v) ls).
Proof.
  unfold lits. induction ls as [|a ls IH].
  - cbn [map alt rmatch filter]. destruct v; reflexivity.
  - destruct ls as [|b ls].
    + cbn [map alt rmatch filter]. destruct (startsWith v a); reflexivity.
    + change (alt (map RLit (a :: b :: ls)))
        with (RAlt (RLit a) (alt (map RLit (b :: ls)))).
      cbn [rmatch]. rewrite IH. cbn [filter].
      destruct (startsWith v a); reflexivity.
Qed.

Lemma filter_find {A : Type} (f : A -> bool) (l : list A) :
  match find f l with
  | Some a => exists l', filter f l = a :: l'
  | None => filter f l = []
  end.
Proof.
  induction l as [|x l IH]; cbn [find filter]; [reflexivity|].
  destruct (f x); [now exists (filter f l)|exact IH].
Qed.

Lemma find_prefixFree (ls : list jsstring) (v x l : jsstring) :
  prefixFree ls = true ->
  find (startsWith v) ls = Some l -> find (startsWith (v ++ x)) ls = Some l.
Proof.
  induction ls as [|a ls IH]; cbn [prefixFree find]; [discriminate|].
  intros Hp H. apply andb_true_iff in Hp as [Ha Hp].
  destruct (startsWith v a) eqn:E.
  - now rewrite (startsWith_app v x a E).
  - destruct (startsWith (v ++ x) a) eqn:E'; [exfalso|now apply IH].
    apply find_some in H as [Hl Hv].
    rewrite forallb_forall in Ha. specialize (Ha l Hl).
    apply negb_true_iff in Ha.
    assert (startsWith a l = true) as T; [|congruence].
    apply (startsWith_comparable (v ++ x)); [exact E'|now apply startsWith_app|].
    apply startsWith_length in Hv.
    destruct (Nat.le_gt_cases (length a) (length v)) as [L|L]; [|lia].
    apply (startsWith_app_inv v x a L) in E'. congruence.
Qed.

Lemma proper_prefix (v x l : jsstring) :
  startsWith (v ++ x) l = true -> startsWith v l = false ->
  In v (properPrefixes l).
Proof.
  intros H N.
  assert (length v < length l)%nat as L.
  { destruct (Nat.le_gt_cases (length l) (length v)) as [L|L]; [|exact L].
    apply (startsWith_app_inv v x l L) in H. congruence. }
  unfold properPrefixes. apply in_map_iff. exists (length v).
  split; [|apply in_seq; lia].
  rewrite <- (startsWith_firstn _ _ H) at 1.
  rewrite firstn_firstn.
  replace (Nat.min (length v) (length l)) with (length v) by lia.
  rewrite firstn_app, Nat.sub_diag, firstn_all. cbn [firstn].
  apply app_nil_r.
Qed.

(** The matches of an alternation of literals in a text are matches in
    the longer text. *)
Lemma count_lits_app (ls : list jsstring) (s x : jsstring) :
  prefixFree ls = true -> shortTails (lits ls) ls = true ->
  match_count (lits ls) s <= match_count (lits ls) (s ++ x).
Proof.
  intros Hp Ht. unfold match_count. apply count_from_app.
  - intros v cap rest l E. rewrite rmatch_lits in *.
    pose proof (filter_find (startsWith v) ls) as F.
    destruct (find (startsWith v) ls) as [a|] eqn:Fa;
      [|rewrite F in E; discriminate E].
    destruct F as [l0 F]. rewrite F in E. cbn [map] in E.
    injection E as _ <- _.
    pose proof (find_prefixFree ls v x a Hp Fa) as Fa'.
    pose proof (filter_find (startsWith (v ++ x)) ls) as F'.
    rewrite Fa' in F'. destruct F' as [l1 F']. rewrite F'. cbn [map].
    eexists. eexists. f_equal. f_equal. apply skipn_app_le.
    apply find_some in Fa as [_ Fa]. now apply startsWith_length.
  - intros v E E'. rewrite rmatch_lits in *.
    pose proof (filter_find (startsWith (v ++ x)) ls) as F'.
    destruct (find (startsWith (v ++ x)) ls) as [a|] eqn:Fa';
      [|rewrite F' in E'; now contradiction E'].
    apply find_some in Fa' as [Ha Hv].
    assert (startsWith v a = false) as N.
    { destruct (startsWith v a) eqn:T; [|reflexivity].
      assert (In a (filter (startsWith v) ls)) as I
        by (apply filter_In; now split).
      destruct (filter (startsWith v) ls); [contradiction I|discriminate E]. }
    unfold shortTails in Ht. rewrite forallb_forall in Ht.
    specialize (Ht a Ha). rewrite forallb_forall in Ht.
    specialize (Ht v (proper_prefix v x a Hv N)). now apply Z.leb_le in Ht.
Qed.

Lemma exclam_count_app (s x : jsstring) :
  match_count re_exclam s <= match_count re_exclam (s ++ x).
Proof.
  change re_exclam with (lits [u "！"; u "!"]).
  apply count_lits_app; vm_compute; reflexivity.
Qed.

Lemma negation_count_app (s x : jsstring) :
  match_count re_negation s <= match_count re_negation (s ++ x).
Proof.
  change re_negation
    with (lits [u "ない"; u "ません"; u "じゃない"; u "ではない"; u "できない";
                u "しない"]).
  apply count_lits_app; vm_compute; reflexivity.
Qed.

(** ** The corrections when the text grows *)

Lemma fst_if_bump (b : bool) (c : correction) (k : Z) (rs : list jsstring) :
  fst (if b then bump c k rs else c) = fst c + (if b then k else 0).
Proof. destruct b; unfold bump; cbn [fst]; lia. Qed.

Lemma fst_if2_bump (b1 b2 : bool) (c : correction) (k1 k2 : Z)
    (r1 r2 : list jsstring) :
  fst (if b1 then bump c k1 r1 else if b2 then bump c k2 r2 else c)
  = fst c + (if b1 then k1 else if b2 then k2 else 0).
Proof. destruct b1, b2; unfold bump; cbn [fst]; lia. Qed.

Lemma fst_if3_bump (b1 b2 b3 : bool) (c : correction) (k1 k2 k3 : Z)
    (r1 r2 r3 : list jsstring) :
  fst (if b1 then bump c k1 r1
       else if b2 then bump c k2 r2 else if b3 then bump c k3 r3 else c)
  = fst c + (if b1 then k1 else if b2 then k2 else if b3 then k3 else 0).
Proof. destruct b1, b2, b3; unfold bump; cbn [fst]; lia. Qed.

(** The tone correction, term by term. *)
Lemma toneCorrection_fst (text n : jsstring) :
  fst (toneCorrection text n)
  = (if regex_test re_emphasis text then 15
     else if match_count re_exclam text >=? 3 then 8
          else if match_count re_exclam text >=? 1 then 1 else 0)
    + (if regex_test re_ques3 text then 15
       else if regex_test re_ques2 text then 8 else 0)
    + (if regex_test re_katakana n then 15 else 0)
    + (if regex_test re_imperative n then 10 else 0)
    + (if match_count re_negation n >=? 3 then 5 else 0).
Proof.
  unfold toneCorrection. cbv zeta.
  rewrite fst_if_bump, fst_if_bump, fst_if_bump, fst_if2_bump, fst_if3_bump.
  cbn [fst]. lia.
Qed.

(** The pressure correction, term by term. *)
Lemma pressureCorrection_fst (n : jsstring) (st : state) :
  fst (pressureCorrection n st)
  = (if jslength n >? 200 then 2 else 0)
    + (if (jslength n <? 5) && (jslength n >? 0) then 3 else 0)
    + (if Z.of_nat (length (categoryMbtiDamage st)) >=? 3 then 5 else 0).
Proof.
  unfold pressureCorrection. cbv zeta.
  rewrite fst_if_bump, fst_if_bump, fst_if_bump. rewrite length_map.
  cbn [fst]. lia.
Qed.

Lemma if_le (b b' : bool) (k : Z) :
  0 <= k -> (b = true -> b' = true) ->
  (if b then k else 0) <= (if b' then k else 0).
Proof. intros Hk H. destruct b; [rewrite (H eq_refl)|destruct b']; lia. Qed.

Lemma exclam_le (e e' : bool) (a a' : Z) :
  (e = true -> e' = true) -> a <= a' ->
  (if e then 15 else if a >=? 3 then 8 else if a >=? 1 then 1 else 0)
  <= (if e' then 15 else if a' >=? 3 then 8 else if a' >=? 1 then 1 else 0).
Proof.
  intros He Ha. rewrite !Z.geb_leb.
  destruct e; [rewrite (He eq_refl); lia|].
  destruct e';
    destruct (Z.leb_spec 3 a), (Z.leb_spec 1 a), (Z.leb_spec 3 a'),
             (Z.leb_spec 1 a'); lia.
Qed.

Lemma ques_le (a a' b b' : bool) :
  (a = true -> a' = true) -> (b = true -> b' = true) ->
  (if a then 15 else if b then 8 else 0)
  <= (if a' then 15 else if b' then 8 else 0).
Proof.
  intros Ha Hb. destruct a; [rewrite (Ha eq_refl); lia|].
  destruct b; [rewrite (Hb eq_refl); destruct a'; lia|].
  destruct a', b'; lia.
Qed.

Lemma negation_le (a a' : Z) :
  a <= a' -> (if a >=? 3 then 5 else 0) <= (if a' >=? 3 then 5 else 0).
Proof.
  intros H. rewrite !Z.geb_leb.
  destruct (Z.leb_spec 3 a), (Z.leb_spec 3 a'); lia.
Qed.

Lemma re_imperative_parts : re_imperative = RAlt commandEnding commandWords.
Proof. reflexivity. Qed.

(** A longer text loses at most the 10 of a command ending that is no
    longer at the end; it loses nothing when there was no such ending. *)
Lemma toneCorrection_app (text n x y : jsstring) :
  fst (toneCorrection text n)
  <= fst (toneCorrection (text ++ x) (n ++ y))
     + (if regex_test commandEnding n then 10 else 0).
Proof.
  rewrite !toneCorrection_fst.
  pose proof (exclam_le _ _ _ _
                (regex_test_app re_emphasis text x eq_refl)
                (exclam_count_app text x)) as H1.
  pose proof (ques_le _ _ _ _
                (regex_test_app re_ques3 text x eq_refl)
                (regex_test_app re_ques2 text x eq_refl)) as H2.
  pose proof (if_le _ _ 15 ltac:(lia)
                (regex_test_app re_katakana n y eq_refl)) as H3.
  pose proof (negation_le _ _ (negation_count_app n y)) as H5.
  pose proof (if_le _ _ 10 ltac:(lia)
                (regex_test_app commandWords n y eq_refl)) as H4.
  rewrite re_imperative_parts, !regex_test_alt.
  revert H1 H2 H3 H4 H5.
  generalize (regex_test commandWords n), (regex_test commandWords (n ++ y)),
             (regex_test commandEnding n), (regex_test commandEnding (n ++ y)).
  intros w w' e e'.
  generalize (if regex_test re_emphasis text then 15
     else if match_count re_exclam text >=? 3 then 8
          else if match_count re_exclam text >=? 1 then 1 else 0).
  generalize (if regex_test re_emphasis (text ++ x) then 15
     else if match_count re_exclam (text ++ x) >=? 3 then 8
          else if match_count re_exclam (text ++ x) >=? 1 then 1 else 0).
  generalize (if regex_test re_ques3 text then 15
       else if regex_test re_ques2 text then 8 else 0).
  generalize (if regex_test re_ques3 (text ++ x) then 15
       else if regex_test re_ques2 (text ++ x) then 8 else 0).
  generalize (if regex_test re_katakana n then 15 else 0).
  generalize (if regex_test re_katakana (n ++ y) then 15 else 0).
  generalize (if match_count re_negation n >=? 3 then 5 else 0).
  generalize (if match_count re_negation (n ++ y) >=? 3 then 5 else 0).
  intros. destruct w, w', e, e'; cbn [orb] in *; lia.
Qed.

Lemma toneCorrection_nonneg (text n : jsstring) : 0 <= fst (toneCorrection text n).
Proof.
  rewrite toneCorrection_fst.
  destruct (regex_test re_emphasis text), (match_count re_exclam text >=? 3),
           (match_count re_exclam text >=? 1), (regex_test re_ques3 text),
           (regex_test re_ques2 text), (regex_test re_katakana n),
           (regex_test re_imperative n), (match_count re_negation n >=? 3); lia.
Qed.

Lemma pressureCorrection_nonneg (n : jsstring) (st : state) :
  0 <= fst (pressureCorrection n st).
Proof.
  rewrite pressureCorrection_fst.
  destruct (jslength n >? 200), ((jslength n <? 5) && (jslength n >? 0)),
           (Z.of_nat (length (categoryMbtiDamage st)) >=? 3); lia.
Qed.

(** A longer text with at least as many damaged categories loses at most
    the 3 of a short text; it loses nothing when the text was empty or had
    five characters or more. *)
Lemma pressureCorrection_app (n y : jsstring) (st st' : state) :
  (length (categoryMbtiDamage st) <= length (categoryMbtiDamage st'))%nat ->
  fst (pressureCorrection n st)
  <= fst (pressureCorrection (n ++ y) st')
     + (if (jslength n <? 5) && (jslength n >? 0) then 3 else 0).
Proof.
  intros H. rewrite !pressureCorrection_fst. unfold jslength.
  rewrite length_app, !Z.geb_leb, !Z.gtb_ltb.
  destruct (Z.ltb_spec 200 (Z.of_nat (length n))),
           (Z.ltb_spec 200 (Z.of_nat (length n + length y))),
           (Z.ltb_spec (Z.of_nat (length n)) 5),
           (Z.ltb_spec 0 (Z.of_nat (length n))),
           (Z.ltb_spec (Z.of_nat (length n + length y)) 5),
           (Z.ltb_spec 0 (Z.of_nat (length n + length y))),
           (Z.leb_spec 3 (Z.of_nat (length (categoryMbtiDamage st)))),
           (Z.leb_spec 3 (Z.of_nat (length (categoryMbtiDamage st'))));
    cbn [andb]; lia.
Qed.

(** ** The score when the damage grows *)

Lemma deduction_eq (Math_pow : Q -> Q -> Q) (d : Q) (tone pressure : Z) :
  (deduction Math_pow d tone pressure
   == Math_pow d 1.3 * 2 + inject_Z tone + inject_Z pressure)%Q.
Proof.
  unfold deduction, nadd, nmul. rewrite !Qred_correct.
  setoid_replace (2.0)%Q with 2%Q by reflexivity. reflexivity.
Qed.

Lemma scoreOf_zero (d : Q) : (100.5 <= d)%Q -> scoreOf d = 0.
Proof.
  intros H. unfold scoreOf, Math_round, nsub.
  assert (Qfloor (Qred (100 - d) + (1 # 2)) <= Qfloor 0) as F.
  { apply Qfloor_resp_le. rewrite Qred_correct. lra. }
  change (Qfloor 0) with 0 in F. lia.
Qed.

Lemma computeScore_le (Math_pow : Q -> Q -> Q) (st st' : state)
    (tone pressure tone' pressure' : Z) :
  capInForce st' <= capInForce st ->
  scoreOf (deduction Math_pow (total (categoryBaseDamage st')) tone' pressure')
  <= scoreOf (deduction Math_pow (total (categoryBaseDamage st)) tone pressure) ->
  scoreOf (deduction Math_pow (total (categoryMbtiDamage st')) tone' pressure')
  <= scoreOf (deduction Math_pow (total (categoryMbtiDamage st)) tone pressure) ->
  computeScore Math_pow st' tone' pressure' <= computeScore Math_pow st tone pressure.
Proof.
  intros Hc Hb Hm. unfold computeScore.
  rewrite !applyCap_capInForce by apply clampToBase_range.
  pose proof (clampToBase_monotone _ _ _ _ Hb Hm). lia.
Qed.

Lemma computeScore_under_cap (Math_pow : Q -> Q -> Q) (st : state)
    (tone pressure : Z) :
  computeScore Math_pow st tone pressure <= capInForce st.
Proof.
  unfold computeScore.
  rewrite applyCap_capInForce by apply clampToBase_range. lia.
Qed.

Lemma applyCap_zero (count : Z) (ultra : bool) : applyCap count ultra 0 = 0.
Proof.
  unfold applyCap, insultCap. destruct ultra; [lia|].
  destruct (count >? 0); lia.
Qed.

Section PowGrowth.

Variable Math_pow : Q -> Q -> Q.
Hypothesis pow_grows : powGrows Math_pow.

(** From a damage of 21 on the score is 0. *)
Lemma scoreOf_high (d : Q) (tone pressure : Z) :
  (21 <= d)%Q -> 0 <= tone + pressure ->
  scoreOf (deduction Math_pow d tone pressure) = 0.
Proof.
  intros Hd Hc. destruct pow_grows as (H1 & _ & H3).
  apply scoreOf_zero. rewrite deduction_eq.
  pose proof (H1 21%Q d ltac:(lra) Hd) as P.
  assert (0 <= inject_Z (tone + pressure))%Q as I
    by (change 0%Q with (inject_Z 0); rewrite <- Zle_Qle; exact Hc).
  rewrite inject_Z_plus in I. lra.
Qed.

(** No less damage and no less correction: no higher score. *)
Lemma scoreOf_same (d d' : Q) (tone pressure tone' pressure' : Z) :
  (0 <= d)%Q -> (d <= d')%Q -> tone + pressure <= tone' + pressure' ->
  scoreOf (deduction Math_pow d' tone' pressure')
  <= scoreOf (deduction Math_pow d tone pressure).
Proof.
  intros H0 Hd Hc. destruct pow_grows as (H1 & _ & _).
  apply scoreOf_antitone. rewrite !deduction_eq.
  pose proof (H1 d d' H0 Hd) as P.
  assert (inject_Z (tone + pressure) <= inject_Z (tone' + pressure'))%Q as I
    by (rewrite <- Zle_Qle; exact Hc).
  rewrite !inject_Z_plus in I. lra.
Qed.

(** Ten more damage outweigh the 13 the corrections can lose. *)
Lemma scoreOf_more (d d' : Q) (tone pressure tone' pressure' : Z) :
  (0 <= d)%Q -> (d + 10 <= d')%Q ->
  0 <= tone + pressure -> 0 <= tone' + pressure' ->
  tone + pressure <= tone' + pressure' + 13 ->
  scoreOf (deduction Math_pow d' tone' pressure')
  <= scoreOf (deduction Math_pow d tone pressure).
Proof.
  intros H0 Hd Hc Hc' Hl. destruct pow_grows as (H1 & H2 & H3).
  destruct (Qlt_le_dec 21 d) as [L|L].
  - assert (scoreOf (deduction Math_pow d tone pressure) = 0) as ->
      by (apply scoreOf_high; [lra|exact Hc]).
    assert (scoreOf (deduction Math_pow d' tone' pressure') = 0) as ->
      by (apply scoreOf_high; [lra|exact Hc']).
    lia.
  - apply scoreOf_antitone. rewrite !deduction_eq.
    pose proof (H2 d H0 L) as P.
    pose proof (H1 (d + 10)%Q d' ltac:(lra) Hd) as P'.
    assert (inject_Z (tone + pressure) <= inject_Z (tone' + pressure' + 13))%Q
      as I by (rewrite <- Zle_Qle; exact Hl).
    rewrite !inject_Z_plus in I. change (inject_Z 13) with 13%Q in I. lra.
Qed.

End PowGrowth.

(** ** A text and the text grown by an insult phrase *)

Lemma insult_phrases_settled :
  forallb (forallb settled) insultPhrases = true.
Proof. vm_compute. reflexivity. Qed.

Lemma normalizeText_app (toLowerCase : jsstring -> jsstring) (t p : jsstring) :
  lowersApart toLowerCase -> In p insultPhrases ->
  normalizeText toLowerCase (t ++ p) = normalizeText toLowerCase t ++ p.
Proof.
  intros HL Hp. rewrite !normalizeText_unfold.
  unfold removeSpaces, zenkakuToHankaku. rewrite filter_app, map_app.
  unfold hankakuToZenkaku at 1. rewrite flat_map_app.
  fold (hankakuToZenkaku
          (map (fun ch => if isZenkakuAlnum ch then ch - 0xFEE0 else ch)
             (filter (fun c => negb (isWhiteSpace c || (c =? 0x3000))) t))).
  fold (hankakuToZenkaku
          (map (fun ch => if isZenkakuAlnum ch then ch - 0xFEE0 else ch)
             (filter (fun c => negb (isWhiteSpace c || (c =? 0x3000))) p))).
  fold (removeSpaces p). fold (zenkakuToHankaku (removeSpaces p)).
  rewrite (prefix_fixes_settled p).
  - now apply HL.
  - pose proof insult_phrases_settled as S. rewrite forallb_forall in S.
    now apply S.
Qed.

Lemma existsb_false_forall {A : Type} (f : A -> bool) (l : list A) :
  (forall x, In x l -> f x = false) -> existsb f l = false.
Proof.
  intros H. destruct (existsb f l) eqn:E; [|reflexivity].
  apply existsb_exists in E as [x [Hx E]]. rewrite (H x Hx) in E.
  discriminate E.
Qed.

Lemma spelling_of_entry (di : DI.t) (p q : jsstring) :
  In di DIRECT_INSULTS -> In p (DI.patterns di) -> In q (DI.patterns di) ->
  In q (spellingsOf p).
Proof.
  intros Hd Hp Hq. unfold spellingsOf. apply in_concat.
  exists (DI.patterns di). split; [|exact Hq]. apply in_map.
  apply filter_In. split; [exact Hd|]. apply existsb_exists.
  exists p. split; [exact Hp|apply str_eqb_refl].
Qed.

Lemma entry_of_insult_phrase (p : jsstring) :
  In p insultPhrases -> exists di, In di DIRECT_INSULTS /\ In p (DI.patterns di).
Proof.
  unfold insultPhrases. intros H. apply in_concat in H as [ps [H Hp]].
  apply in_map_iff in H as [di [<- Hd]]. now exists di.
Qed.

Lemma capInForce_grows (st st' : state) :
  0 <= directInsultCount st <= directInsultCount st' ->
  directInsultCount st < 3 ->
  (hasUltraSevere st = true -> hasUltraSevere st' = true) ->
  capInForce st' <= capInForce st.
Proof.
  intros Hc H3 Hu. unfold capInForce, insultCap.
  destruct (hasUltraSevere st); [rewrite (Hu eq_refl); lia|].
  destruct (hasUltraSevere st');
    destruct (Z.gtb_spec (directInsultCount st) 0),
             (Z.gtb_spec (directInsultCount st') 0); lia.
Qed.

Section GrownText.

Variable toLowerCase : jsstring -> jsstring.
Variable Math_pow : Q -> Q -> Q.

Hypothesis pow_grows : powGrows Math_pow.

Variables n p ty : jsstring.

Hypothesis insult_appended : In p insultPhrases.

Hypothesis no_quote_completed :
  existsb (completes n p) QUOTE_PATTERNS = false.

Lemma reported_counts_grow :
  (length (filter (reported n) DIRECT_INSULTS)
   <= length (filter (reported (n ++ p)) DIRECT_INSULTS))%nat.
Proof.
  apply filter_length_le. intros di Hd. now apply reported_app.
Qed.

Lemma detect_counts_grow :
  0 <= directInsultCount (detect n ty (multipliersOf ty))
    <= directInsultCount (detect (n ++ p) ty (multipliersOf ty))
  /\ (hasUltraSevere (detect n ty (multipliersOf ty)) = true ->
      hasUltraSevere (detect (n ++ p) ty (multipliersOf ty)) = true).
Proof.
  destruct (detect_counts n ty (multipliersOf ty)) as [A B].
  destruct (detect_counts (n ++ p) ty (multipliersOf ty)) as [A' B'].
  rewrite A, A', B, B'. pose proof reported_counts_grow as G. split; [lia|].
  apply existsb_mono. intros di Hd H.
  apply andb_true_iff in H as [H1 H2]. rewrite H2, andb_true_r.
  now apply reported_app.
Qed.

(** With three reported insults the score is 0, cap or no cap. *)
Lemma three_insults_score_0 (m : jsstring) (tone pressure : Z) :
  3 <= directInsultCount (detect m ty (multipliersOf ty)) ->
  0 <= tone + pressure ->
  computeScore Math_pow (detect m ty (multipliersOf ty)) tone pressure = 0.
Proof.
  intros H3 Hc. destruct (detect_total m ty) as [Tb Tm].
  assert (30 <= inject_Z (10 * directInsultCount (detect m ty (multipliersOf ty))))%Q
    as K by (change 30%Q with (inject_Z 30); rewrite <- Zle_Qle; lia).
  unfold computeScore.
  rewrite (scoreOf_high Math_pow pow_grows
             (total (categoryBaseDamage (detect m ty (multipliersOf ty)))))
    by (lra || exact Hc).
  rewrite (scoreOf_high Math_pow pow_grows
             (total (categoryMbtiDamage (detect m ty (multipliersOf ty)))))
    by (lra || exact Hc).
  apply applyCap_zero.
Qed.

Lemma shared_phrases_kept :
  existsb (completes n p) sharedPhrases = false ->
  forall q, In q sharedPhrases -> includes (n ++ p) q = true ->
            includes n q = true.
Proof.
  intros Hcat q Hq H.
  rewrite <- (completes_none_includes n p q); [exact H|].
  exact (existsb_false_In (completes n p) sharedPhrases q Hcat Hq).
Qed.

(** The uncapped scores, when the appended phrase completes no shared
    category phrase and either the corrections lose nothing or an insult
    is new and they lose 13 at most. *)
Lemma grown_scores (tone pressure tone' pressure' : Z) :
  existsb (completes n p) sharedPhrases = false ->
  let st := detect n ty (multipliersOf ty) in
  let st' := detect (n ++ p) ty (multipliersOf ty) in
  0 <= tone + pressure -> 0 <= tone' + pressure' ->
  (tone + pressure <= tone' + pressure'
   \/ (directInsultCount st < directInsultCount st'
       /\ tone + pressure <= tone' + pressure' + 13)) ->
  scoreOf (deduction Math_pow (total (categoryBaseDamage st')) tone' pressure')
  <= scoreOf (deduction Math_pow (total (categoryBaseDamage st)) tone pressure)
  /\ scoreOf (deduction Math_pow (total (categoryMbtiDamage st')) tone' pressure')
     <= scoreOf (deduction Math_pow (total (categoryMbtiDamage st)) tone pressure).
Proof.
  intros Hcat. cbv zeta. intros Hc Hc' Hl.
  destruct (detect_ahead n (n ++ p) ty (fun q => includes_app n p q)
              (shared_phrases_kept Hcat) reported_counts_grow)
    as (Tb & Tm & _).
  destruct (detect_total n ty) as [Lb Lm].
  destruct detect_counts_grow as [G _].
  cbv zeta in *.
  set (k := directInsultCount (detect n ty (multipliersOf ty))) in *.
  set (k' := directInsultCount (detect (n ++ p) ty (multipliersOf ty))) in *.
  assert (0 <= inject_Z (10 * k))%Q as K0
    by (change 0%Q with (inject_Z 0); rewrite <- Zle_Qle; lia).
  destruct Hl as [Hl|[Hk Hl]].
  - assert (0 <= inject_Z (10 * (k' - k)))%Q as K1
      by (change 0%Q with (inject_Z 0); rewrite <- Zle_Qle; lia).
    split; apply (scoreOf_same Math_pow pow_grows); try exact Hl; lra.
  - assert (10 <= inject_Z (10 * (k' - k)))%Q as K2
      by (change 10%Q with (inject_Z 10); rewrite <- Zle_Qle; lia).
    split; apply (scoreOf_more Math_pow pow_grows);
      try exact Hl; try exact Hc; try exact Hc'; lra.
Qed.

Lemma grown_categories :
  existsb (completes n p) sharedPhrases = false ->
  (length (categoryMbtiDamage (detect n ty (multipliersOf ty)))
   <= length (categoryMbtiDamage (detect (n ++ p) ty (multipliersOf ty))))%nat.
Proof.
  intros Hcat.
  destruct (detect_ahead n (n ++ p) ty (fun q => includes_app n p q)
              (shared_phrases_kept Hcat) reported_counts_grow)
    as (_ & _ & L).
  exact L.
Qed.

(** The insult whose phrase is appended is reported, and was not, when
    none of its spellings occurs in the text. *)
Lemma new_insult_counted :
  existsb (occurs n) (spellingsOf p) = false ->
  directInsultCount (detect n ty (multipliersOf ty))
  < directInsultCount (detect (n ++ p) ty (multipliersOf ty)).
Proof.
  intros Hn.
  destruct (detect_counts n ty (multipliersOf ty)) as [A _].
  destruct (detect_counts (n ++ p) ty (multipliersOf ty)) as [A' _].
  rewrite A, A'.
  destruct (entry_of_insult_phrase p insult_appended) as [di [Hd Hp]].
  assert (existsb (occurs n) (DI.patterns di) = false) as Hno.
  { apply existsb_false_forall. intros q Hq.
    apply (existsb_false_In _ _ _ Hn). exact (spelling_of_entry di p q Hd Hp Hq). }
  destruct (reported_new n p no_quote_completed di Hd Hp Hno) as [R R'].
  assert (length (filter (reported n) DIRECT_INSULTS)
          < length (filter (reported (n ++ p)) DIRECT_INSULTS))%nat as L.
  { apply (filter_length_lt _ _ _ di); [|exact Hd|exact R|exact R'].
    intros x Hx. now apply reported_app. }
  lia.
Qed.

(** The score of the longer text. *)
Lemma grown_text_score (t t' : jsstring) :
  let st := detect n ty (multipliersOf ty) in
  let st' := detect (n ++ p) ty (multipliersOf ty) in
  let s := computeScore Math_pow st (fst (toneCorrection t n))
             (fst (pressureCorrection n st)) in
  let s' := computeScore Math_pow st' (fst (toneCorrection (t ++ t') (n ++ p)))
              (fst (pressureCorrection (n ++ p) st')) in
  (capInForce st <= s
   \/ (existsb (completes n p) sharedPhrases = false
       /\ (existsb (occurs n) (spellingsOf p) = false
           \/ (regex_test commandEnding n = false
               /\ (n = [] \/ 5 <= jslength n))))) ->
  s' <= s.
Proof.
  cbv zeta. intros H.
  destruct detect_counts_grow as [Hc Hu].
  pose proof (toneCorrection_nonneg t n) as T0.
  pose proof (toneCorrection_nonneg (t ++ t') (n ++ p)) as T0'.
  pose proof (pressureCorrection_nonneg n (detect n ty (multipliersOf ty))) as P0.
  pose proof (pressureCorrection_nonneg (n ++ p)
                (detect (n ++ p) ty (multipliersOf ty))) as P0'.
  destruct (Z.lt_ge_cases (directInsultCount (detect n ty (multipliersOf ty))) 3)
    as [L3|G3].
  - pose proof (capInForce_grows _ _ Hc L3 Hu) as Hcap.
    destruct H as [H|[Hcat H]].
    + pose proof (computeScore_under_cap Math_pow
                    (detect (n ++ p) ty (multipliersOf ty))
                    (fst (toneCorrection (t ++ t') (n ++ p)))
                    (fst (pressureCorrection (n ++ p)
                            (detect (n ++ p) ty (multipliersOf ty))))).
      lia.
    + pose proof (toneCorrection_app t n t' p) as T.
      pose proof (pressureCorrection_app n p _ _ (grown_categories Hcat)) as P.
      assert (fst (toneCorrection t n)
              + fst (pressureCorrection n (detect n ty (multipliersOf ty)))
              <= fst (toneCorrection (t ++ t') (n ++ p))
                 + fst (pressureCorrection (n ++ p)
                          (detect (n ++ p) ty (multipliersOf ty)))
              \/ (directInsultCount (detect n ty (multipliersOf ty))
                  < directInsultCount (detect (n ++ p) ty (multipliersOf ty))
                  /\ fst (toneCorrection t n)
                     + fst (pressureCorrection n (detect n ty (multipliersOf ty)))
                     <= fst (toneCorrection (t ++ t') (n ++ p))
                        + fst (pressureCorrection (n ++ p)
                                 (detect (n ++ p) ty (multipliersOf ty)))
                        + 13)) as Hl.
      { destruct H as [H|[H1 H2]].
        - right. split; [now apply new_insult_counted|].
          destruct (regex_test commandEnding n),
                   ((jslength n <? 5) && (jslength n >? 0)); lia.
        - left. rewrite H1 in T.
          replace ((jslength n <? 5) && (jslength n >? 0)) with false in P;
            [lia|].
          destruct H2 as [->|H2]; [reflexivity|].
          symmetry. apply andb_false_iff. left. apply Z.ltb_ge. exact H2. }
      destruct (grown_scores
                  (fst (toneCorrection t n))
                  (fst (pressureCorrection n (detect n ty (multipliersOf ty))))
                  (fst (toneCorrection (t ++ t') (n ++ p)))
                  (fst (pressureCorrection (n ++ p)
                          (detect (n ++ p) ty (multipliersOf ty))))
                  Hcat ltac:(lia) ltac:(lia) Hl) as [Sb Sm].
      exact (computeScore_le Math_pow _ _ _ _ _ _ Hcap Sb Sm).
  - rewrite (three_insults_score_0 (n ++ p)) by lia.
    apply computeScore_range.
Qed.

End GrownText.

(** C6, as the code has it. Appending a direct-insult phrase [p] to a text
    [t] does not raise the score, provided [p] completes no quotation
    suffix (no suffix has an occurrence in the longer normalized text that
    ends in [p]) and one of the following holds: [t] already scores the
    insult cap in force for it; or [p] completes no category phrase that
    two entries share and none of the spellings of its insult occurs in
    [t]; or [p] completes no such category phrase, [t] does not end in a
    command ending, and the normalized [t] is empty or has five characters
    or more. The runtime enters through two facts: [toLowerCase] leaves an
    appended insult phrase alone, and [Math.pow(x, 1.3)] increases with
    [x], by at least 6.5 for ten more damage. *)
Theorem appended_insult_never_raises (toLowerCase : jsstring -> jsstring)
    (Math_pow : Q -> Q -> Q) (t p targetMbti : jsstring) :
  let n := normalizeText toLowerCase t in
  let st := detect n targetMbti (multipliersOf targetMbti) in
  lowersApart toLowerCase -> powGrows Math_pow ->
  In p insultPhrases ->
  existsb (completes n p) QUOTE_PATTERNS = false ->
  (capInForce st <= score (analyzeLocal toLowerCase Math_pow t targetMbti)
   \/ (existsb (completes n p) sharedPhrases = false
       /\ (existsb (occurs n) (spellingsOf p) = false
           \/ (regex_test commandEnding n = false
               /\ (n = [] \/ 5 <= jslength n))))) ->
  score (analyzeLocal toLowerCase Math_pow (t ++ p) targetMbti)
  <= score (analyzeLocal toLowerCase Math_pow t targetMbti).
Proof.
  cbv zeta. intros HL HP Hp Hq H. rewrite !score_analyzeLocal in *.
  rewrite (normalizeText_app toLowerCase t p HL Hp).
  now apply grown_text_score.
Qed.

(** ** The runtime the analysis is evaluated with *)

Lemma insult_phrases_uncased :
  forallb (forallb (fun c => negb ((0x41 <=? c) && (c <=? 0x5A))))
          insultPhrases = true.
Proof. vm_compute. reflexivity. Qed.

Lemma toLowerCaseASCII_lowersApart : lowersApart toLowerCaseASCII.
Proof.
  intros a p Hp. unfold toLowerCaseASCII. rewrite map_app. f_equal.
  pose proof insult_phrases_uncased as U. rewrite forallb_forall in U.
  specialize (U p Hp). clear Hp.
  induction p as [|c p IH]; [reflexivity|]. cbn [forallb map] in *.
  apply andb_true_iff in U as [Uc Up]. apply negb_true_iff in Uc.
  rewrite Uc. f_equal. now apply IH.
Qed.

(** *** The integer root *)

Lemma iroot_bisect_spec (q n : Z) (fuel : nat) (lo hi : Z) :
  0 <= lo < hi -> lo ^ q <= n < hi ^ q -> hi - lo <= 2 ^ Z.of_nat fuel ->
  let r := iroot_bisect fuel q n lo hi in
  lo <= r < hi /\ r ^ q <= n < (r + 1) ^ q.
Proof.
  revert lo hi. induction fuel as [|fuel IH]; intros lo hi Hl Hn Hw; cbv zeta.
  - cbn [iroot_bisect]. change (2 ^ Z.of_nat 0) with 1 in Hw.
    replace (lo + 1) with hi by lia. lia.
  - cbn [iroot_bisect]. destruct (Z.leb_spec (hi - lo) 1) as [W|W].
    + replace (lo + 1) with hi by lia. lia.
    + rewrite Nat2Z.inj_succ, Z.pow_succ_r in Hw by lia.
      set (P := 2 ^ Z.of_nat fuel) in *. clearbody P.
      assert (lo < (lo + hi) / 2 < hi /\ hi - (lo + hi) / 2 <= P
              /\ (lo + hi) / 2 - lo <= P) as (Hm & W1 & W2).
      { clear IH Hn. pose proof (Z.div_mod (lo + hi) 2 ltac:(lia)) as D.
        pose proof (Z.mod_pos_bound (lo + hi) 2 ltac:(lia)) as B.
        generalize dependent ((lo + hi) / 2).
        generalize dependent ((lo + hi) mod 2). intros. lia. }
      set (mid := (lo + hi) / 2) in *. clearbody mid.
      destruct (Z.leb_spec (mid ^ q) n) as [M|M].
      * destruct (IH mid hi ltac:(lia) ltac:(lia) ltac:(lia)) as [A B].
        split; [lia|exact B].
      * destruct (IH lo mid ltac:(lia) ltac:(lia) ltac:(lia)) as [A B].
        split; [lia|exact B].
Qed.

Lemma iroot_spec (q n : Z) :
  1 <= q -> 0 <= n ->
  0 <= iroot q n /\ iroot q n ^ q <= n < (iroot q n + 1) ^ q.
Proof.
  intros Hq Hn. unfold iroot.
  set (bits := Z.log2 n / q + 1).
  assert (1 <= bits) as Hb.
  { unfold bits. pose proof (Z.log2_nonneg n).
    pose proof (Z.div_pos (Z.log2 n) q ltac:(lia) ltac:(lia)). lia. }
  assert (n < (2 ^ bits) ^ q) as Hhi.
  { rewrite <- Z.pow_mul_r by lia.
    assert (Z.log2 n + 1 <= bits * q) as L.
    { unfold bits. pose proof (Z.mul_succ_div_gt (Z.log2 n) q ltac:(lia)).
      lia. }
    assert (n < 2 ^ (Z.log2 n + 1)) as P.
    { destruct (Z.eq_dec n 0) as [->|N0]; [reflexivity|].
      pose proof (Z.log2_spec n ltac:(lia)) as S.
      replace (Z.log2 n + 1) with (Z.succ (Z.log2 n)) by lia. lia. }
    pose proof (Z.pow_le_mono_r 2 (Z.log2 n + 1) (bits * q) ltac:(lia) L). lia. }
  assert (0 <= 0 < 2 ^ bits) as I1
    by (pose proof (Z.pow_pos_nonneg 2 bits ltac:(lia) ltac:(lia)); lia).
  assert (0 ^ q <= n < (2 ^ bits) ^ q) as I2
    by (rewrite Z.pow_0_l by lia; lia).
  assert (2 ^ bits - 0 <= 2 ^ Z.of_nat (Z.to_nat (bits + 2))) as I3
    by (rewrite Z2Nat.id by lia; rewrite Z.sub_0_r;
        apply Z.pow_le_mono_r; lia).
  destruct (iroot_bisect_spec q n (Z.to_nat (bits + 2)) 0 (2 ^ bits) I1 I2 I3)
    as [A B].
  split; [lia|exact B].
Qed.

Lemma iroot_monotone (q n n' : Z) :
  1 <= q -> 0 <= n <= n' -> iroot q n <= iroot q n'.
Proof.
  intros Hq Hn.
  destruct (iroot_spec q n Hq ltac:(lia)) as (A & B & C).
  destruct (iroot_spec q n' Hq ltac:(lia)) as (A' & B' & C').
  destruct (Z.le_gt_cases (iroot q n) (iroot q n')) as [L|L]; [exact L|].
  pose proof (Z.pow_le_mono_l (iroot q n' + 1) (iroot q n) q ltac:(lia)). lia.
Qed.

(** *** The power *)

Lemma Math_pow_model_13 (x : Q) :
  Math_pow_model x 1.3
  = Qred (iroot 10 (Qnum (Qred x) ^ 13 * (10 ^ 12) ^ 10
                    / Zpos (Qden (Qred x)) ^ 13)
          # 1000000000000).
Proof. reflexivity. Qed.

Lemma div_le_cross (a b c d : Z) :
  0 < b -> 0 < d -> a * d <= c * b -> a / b <= c / d.
Proof.
  intros Hb Hd H. apply Z.div_le_lower_bound; [exact Hd|].
  pose proof (Z.mul_div_le a b Hb) as M.
  assert (b * (d * (a / b)) <= b * c) as L by nia.
  apply Z.mul_le_mono_pos_l in L; [exact L|exact Hb].
Qed.

Lemma Qred_monotone (a b : Q) : (a <= b)%Q -> (Qred a <= Qred b)%Q.
Proof. intros H. now rewrite !Qred_correct. Qed.

Lemma Math_pow_model_monotone (x y : Q) :
  (0 <= x)%Q -> (x <= y)%Q ->
  (Math_pow_model x 1.3 <= Math_pow_model y 1.3)%Q.
Proof.
  intros H0 Hxy. rewrite !Math_pow_model_13. apply Qred_monotone.
  rewrite <- (Qred_correct x) in H0, Hxy. rewrite <- (Qred_correct y) in Hxy.
  destruct (Qred x) as [a b]. destruct (Qred y) as [c d].
  unfold Qle in *. cbn [Qnum Qden] in *.
  rewrite Z.mul_1_r in H0. change (0 * Zpos b) with 0 in H0.
  assert (0 <= c) as Hc by nia.
  apply Z.mul_le_mono_nonneg_r; [lia|].
  set (S := (10 ^ 12) ^ 10). assert (0 < S) as HS by reflexivity.
  assert (0 < Zpos b ^ 13) as Hb by (apply Z.pow_pos_nonneg; lia).
  assert (0 < Zpos d ^ 13) as Hd by (apply Z.pow_pos_nonneg; lia).
  assert (0 <= a ^ 13) as Ha by (apply Z.pow_nonneg; exact H0).
  apply iroot_monotone; [lia|]. split.
  - apply Z.div_pos; [|exact Hb]. apply Z.mul_nonneg_nonneg; lia.
  - apply div_le_cross; [exact Hb|exact Hd|].
    assert ((a * Zpos d) ^ 13 <= (c * Zpos b) ^ 13) as P
      by (apply Z.pow_le_mono_l; split; [apply Z.mul_nonneg_nonneg; lia|exact Hxy]).
    rewrite !Z.pow_mul_l in P.
    assert (a ^ 13 * Zpos d ^ 13 * S <= c ^ 13 * Zpos b ^ 13 * S) as P'
      by (apply Z.mul_le_mono_nonneg_r; [lia|exact P]).
    lia.
Qed.

Lemma Math_pow_model_grid :
  forallb
    (fun i =>
       Qle_bool (Math_pow_model (inject_Z (Z.of_nat i + 1)) 1.3 + 6.5)
                (Math_pow_model (inject_Z (Z.of_nat i + 10)) 1.3))
    (List.seq 0 22) = true.
Proof. vm_compute. reflexivity. Qed.

Lemma Math_pow_model_grows : powGrows Math_pow_model.
Proof.
  split; [exact Math_pow_model_monotone|]. split.
  - intros x H0 H21.
    assert (0 <= Qfloor x <= 21) as F.
    { split.
      - change 0 with (Qfloor 0). now apply Qfloor_resp_le.
      - change 21 with (Qfloor 21). now apply Qfloor_resp_le. }
    pose proof (Qfloor_le x) as Fl. pose proof (Qlt_floor x) as Fu.
    pose proof Math_pow_model_grid as G. rewrite forallb_forall in G.
    specialize (G (Z.to_nat (Qfloor x))
                  ltac:(apply in_seq; lia)).
    rewrite Z2Nat.id in G by lia. apply Qle_bool_iff in G.
    assert (x <= inject_Z (Qfloor x + 1))%Q as U by (apply Qlt_le_weak; exact Fu).
    pose proof (Math_pow_model_monotone x _ H0 U) as M1.
    assert (inject_Z (Qfloor x + 10) <= x + 10)%Q as L.
    { rewrite inject_Z_plus. change (inject_Z 10) with 10%Q. lra. }
    assert (0 <= inject_Z (Qfloor x + 10))%Q as L0.
    { change 0%Q with (inject_Z 0). rewrite <- Zle_Qle. lia. }
    pose proof (Math_pow_model_monotone _ _ L0 L) as M2. lra.
  - apply Qle_bool_iff. vm_compute. reflexivity.
Qed.

Lemma appended_insult_never_raises_witness :
  score (analyze (u "バカしろ" ++ u "バカ") (u "INFP"))
  <= score (analyze (u "バカしろ") (u "INFP"))
  /\ score (analyze (u "甘いしろ" ++ u "アホ") (u "INFP"))
     <= score (analyze (u "甘いしろ") (u "INFP"))
  /\ score (analyze (u "バカは甘いよ" ++ u "馬鹿") (u "ENTJ"))
     <= score (analyze (u "バカは甘いよ") (u "ENTJ")).
Proof.
  split; [|split].
  - apply (appended_insult_never_raises toLowerCaseASCII Math_pow_model
             (u "バカしろ") (u "バカ") (u "INFP")
             toLowerCaseASCII_lowersApart Math_pow_model_grows).
    + apply in_b. vm_compute. reflexivity.
    + vm_compute. reflexivity.
    + left. apply Z.leb_le. vm_compute. reflexivity.
  - apply (appended_insult_never_raises toLowerCaseASCII Math_pow_model
             (u "甘いしろ") (u "アホ") (u "INFP")
             toLowerCaseASCII_lowersApart Math_pow_model_grows).
    + apply in_b. vm_compute. reflexivity.
    + vm_compute. reflexivity.
    + right. split; [vm_compute; reflexivity|].
      left. vm_compute. reflexivity.
  - apply (appended_insult_never_raises toLowerCaseASCII Math_pow_model
             (u "バカは甘いよ") (u "馬鹿") (u "ENTJ")
             toLowerCaseASCII_lowersApart Math_pow_model_grows).
    + apply in_b. vm_compute. reflexivity.
    + vm_compute. reflexivity.
    + right. split; [vm_compute; reflexivity|].
      right. split; [vm_compute; reflexivity|].
      right. apply Z.leb_le. vm_compute. reflexivity.
Defined.

(** C6 as stated fails. The text below ends in an unfinished quotation
    suffix; the appended insult phrase completes it, the ultra-severe insult
    found before is now taken as quoted, and the score rises from 5 to 30. *)
Lemma appended_insult_raises_score :
  In (u "てめえ") insultPhrases
  /\ score (analyze (u "死ねって言われ") (u "INFP")) = 5
  /\ score (analyze (u "死ねって言われ" ++ u "てめえ") (u "INFP")) = 30
  /\ ~ score (analyze (u "死ねって言われ" ++ u "てめえ") (u "INFP"))
       <= score (analyze (u "死ねって言われ") (u "INFP")).
Proof.
  assert (score (analyze (u "死ねって言われ") (u "INFP")) = 5) as A
    by (vm_compute; reflexivity).
  assert (score (analyze (u "死ねって言われ" ++ u "てめえ") (u "INFP")) = 30) as B
    by (vm_compute; reflexivity).
  split; [apply in_b; vm_compute; reflexivity|].
  split; [exact A|]. split; [exact B|]. rewrite A, B. lia.
Qed.

(** The score can also rise without any quotation. The appended phrase
    repeats an insult already found and moves a command ending away from
    the end of the text, which drops the tone correction, while the text
    scores below its cap. *)
Lemma appended_insult_drops_tone :
  score (analyze (u "バカ甘いしろ") (u "ENTJ")) = 22
  /\ score (analyze (u "バカ甘いしろ" ++ u "バカ") (u "ENTJ")) = 30
  /\ existsb (completes (u "バカ甘いしろ") (u "バカ"))
             (QUOTE_PATTERNS ++ sharedPhrases) = false
  /\ existsb (occurs (u "バカ甘いしろ")) (spellingsOf (u "バカ")) = true
  /\ regex_test commandEnding (u "バカ甘いしろ") = true.
Proof. repeat split; vm_compute; reflexivity. Qed.

(** Or the longer text is no longer a short one and loses the pressure
    correction of short texts. *)
Lemma appended_insult_drops_pressure :
  score (analyze (u "バカ甘い") (u "ENTJ")) = 29
  /\ score (analyze (u "バカ甘い" ++ u "バカ") (u "ENTJ")) = 30
  /\ existsb (completes (u "バカ甘い") (u "バカ"))
             (QUOTE_PATTERNS ++ sharedPhrases) = false
  /\ existsb (occurs (u "バカ甘い")) (spellingsOf (u "バカ")) = true
  /\ regex_test commandEnding (u "バカ甘い") = false
  /\ jslength (u "バカ甘い") = 4.
Proof. repeat split; vm_compute; reflexivity. Qed.

(** And it can rise when the appended phrase completes the category
    phrase that two entries share: "ちゃんとし" and "てめえ" make
    "ちゃんとして"; the entry of [command_soft] records it, the entry of
    [vague_criticism] finds it recorded and no longer records
    "しっかりして", and the damage moves from the category the personality
    is sensitive to (weight 1.5) to the one it is not (0.5). *)
Lemma appended_insult_completes_category :
  score (analyze (u "お前しっかりして甘いちゃんとし") (u "ISTJ")) = 0
  /\ score (analyze (u "お前しっかりして甘いちゃんとし" ++ u "てめえ") (u "ISTJ")) = 3
  /\ sharedPhrases = [u "ちゃんとして"; u "ちゃんとして"]
  /\ completes (u "お前しっかりして甘いちゃんとし") (u "てめえ") (u "ちゃんとして")
     = true
  /\ existsb (completes (u "お前しっかりして甘いちゃんとし") (u "てめえ"))
             QUOTE_PATTERNS = false
  /\ regex_test commandEnding (u "お前しっかりして甘いちゃんとし") = false.
Proof. repeat split; vm_compute; reflexivity. Qed.
